(** * Wikipedia category analyzer: cache-backed word-frequency pipeline

    A shallow embedding of [wikipedia_category_analyzer.py], [app.py] and
    [color_palette.py].

    - [Tokenizer]: [extract_words] on texts of ASCII characters, with the
      regular expression [\b[a-zA-Z]+\b] written out as the scan
      [re.findall] performs.
    - [UnicodeText]: [extract_words] on any text, a sequence of code
      points, with [str.lower] and the class [\w] of Unicode.
    - [Json]: the values [json.load] produces and the Python operations the
      analyzer applies to them (truthiness, [dict.get], [len], [sum]).
    - [Analyzer]: the cache directory as a finite map from file names to
      files, with [_is_cache_valid], [_load_cache] and [_save_cache], and
      [get_category_members], [get_page_content] and [analyze_category] as
      state-passing functions over a world made of the cache directory,
      the clock and the count of requests sent.  The cache check compares
      instants.
    - [LocalClock]: the cache check as [datetime] computes it, on local
      wall-clock dates within the years 1 to 9999, and the analyzer with
      that check.
    - [Float]: the floating-point operations of the word cloud.
    - [WordCloud]: the body of the [/api/word-cloud] route.
    - [Report]: the body of the [/api/analyze] route and what
      [print_results] prints.

    The pipeline of [Analyzer] runs the tokenizer of [Tokenizer]: the
    extracts it reads are texts of ASCII characters, on which the two
    tokenizers agree ([UnicodeTextFacts.extract_words_ascii]). *)

From Stdlib Require Import ZArith List Ascii String Bool Lia QArith Qpower.
From Stdlib Require Import Sorted Permutation.
From stdpp Require Import base gmap strings list.

Local Open Scope string_scope.
Local Open Scope list_scope.
Local Open Scope Z_scope.

(* ===================================================================== *)
(** * Tokenizer *)
(* ===================================================================== *)

(** [extract_words] on a text of ASCII characters, a [string] whose
    characters have codes below 128: there [str.lower] changes the 26
    capital letters only and the class [\w] is the letters, the digits and
    the underscore.  [UnicodeText] below has the tokenizer on any text. *)
Module Tokenizer.

(** Common English stop words to filter out (the set literal [STOP_WORDS];
    a repeated element of the literal is listed once). *)
Definition STOP_WORDS : list string :=
  [ "a"; "an"; "and"; "are"; "as"; "at"; "be"; "by"; "for"; "from"; "has"; "he";
    "in"; "is"; "it"; "its"; "of"; "on"; "that"; "the"; "to"; "was"; "will"; "with";
    "or"; "but"; "not"; "this"; "they"; "their"; "them"; "these"; "those"; "then";
    "than"; "there"; "where"; "when"; "who"; "what"; "which"; "why"; "how"; "can";
    "could"; "would"; "should"; "may"; "might"; "must"; "shall"; "do"; "did";
    "does"; "have"; "had"; "having"; "been"; "being"; "am"; "were";
    "i"; "you"; "we"; "me"; "him"; "her"; "us"; "my"; "your"; "his";
    "our"; "also"; "all"; "any"; "some"; "each"; "every"; "no"; "none"; "one"; "two";
    "first"; "last"; "other"; "another"; "more"; "most"; "many"; "much"; "few"; "less";
    "such"; "same"; "different"; "new"; "old"; "good"; "bad"; "big"; "small"; "long";
    "short"; "high"; "low"; "right"; "left"; "up"; "down"; "here"; "now";
    "today"; "tomorrow"; "yesterday"; "always"; "never"; "sometimes"; "often";
    "usually"; "again"; "once"; "twice"; "very"; "too"; "so"; "just"; "only"; "even";
    "still"; "yet"; "already"; "almost"; "quite"; "rather"; "really"; "actually";
    "probably"; "perhaps"; "maybe"; "certainly"; "definitely"; "absolutely"; "exactly";
    "completely"; "totally"; "entirely"; "particularly"; "especially"; "generally";
    "specifically"; "basically"; "essentially"; "mainly"; "mostly"; "largely";
    "partly"; "slightly"; "somewhat"; "fairly"; "pretty"; "enough" ].

(** [word in STOP_WORDS] *)
Definition in_stop_words (word : string) : bool :=
  existsb (String.eqb word) STOP_WORDS.

Definition code (c : ascii) : nat := nat_of_ascii c.

Definition is_upper (c : ascii) : bool :=
  (65 <=? code c)%nat && (code c <=? 90)%nat.

Definition is_lower (c : ascii) : bool :=
  (97 <=? code c)%nat && (code c <=? 122)%nat.

Definition is_digit (c : ascii) : bool :=
  (48 <=? code c)%nat && (code c <=? 57)%nat.

(** The class [[a-zA-Z]]. *)
Definition is_alpha (c : ascii) : bool := is_upper c || is_lower c.

(** The class [\w] on ASCII: letters, digits and the underscore. *)
Definition is_word_char (c : ascii) : bool :=
  is_alpha c || is_digit c || (code c =? 95)%nat.

(** [str.lower] on one ASCII character. *)
Definition lower_char (c : ascii) : ascii :=
  if is_upper c then ascii_of_nat (code c + 32) else c.

(** [text.lower()] *)
Definition lower (text : list ascii) : list ascii := map lower_char text.

Definition is_word (c : option ascii) : bool :=
  match c with
  | Some c => is_word_char c
  | None => false
  end.

(** [\b] between the character before the position ([None] at the start of
    the string) and the one after it ([None] at the end): exactly one of
    the two is a word character. *)
Definition word_boundary (before after : option ascii) : bool :=
  xorb (is_word before) (is_word after).

(** The greedy [[a-zA-Z]+] takes the longest run of letters at the head. *)
Fixpoint take_alpha (s : list ascii) : list ascii :=
  match s with
  | c :: s' => if is_alpha c then c :: take_alpha s' else []
  | [] => []
  end.

(** Backtracking of [[a-zA-Z]+\b]: with [k] letters taken, the closing [\b]
    is tried after them; when it fails one letter is given back, down to
    one letter. *)
Fixpoint backtrack (s : list ascii) (k : nat) : option (list ascii) :=
  match k with
  | O => None
  | S k' =>
      if word_boundary (nth_error s k') (nth_error s k)
      then Some (firstn k s)
      else backtrack s k'
  end.

(** [\b[a-zA-Z]+\b] anchored at the head of [s], [prev] being the character
    before it. *)
Definition match_here (prev : option ascii) (s : list ascii)
  : option (list ascii) :=
  if word_boundary prev (head s)
  then backtrack s (List.length (take_alpha s))
  else None.

(** [re.findall]: the scan tries every position from left to right; after a
    match of [n] characters it resumes behind the match, which [skip]
    counts down. *)
Fixpoint findall_from (prev : option ascii) (skip : nat) (s : list ascii)
  : list (list ascii) :=
  match s with
  | [] => []
  | c :: s' =>
      match skip with
      | S k => findall_from (Some c) k s'
      | O =>
          match match_here prev s with
          | Some m => m :: findall_from (Some c) (List.length m - 1) s'
          | None => findall_from (Some c) 0 s'
          end
      end
  end.

(** [re.findall(r'\b[a-zA-Z]+\b', s)] *)
Definition findall (s : list ascii) : list (list ascii) :=
  findall_from None 0 s.

(** [word not in STOP_WORDS and len(word) >= 3] *)
Definition keep_word (word : string) : bool :=
  negb (in_stop_words word) && (3 <=? String.length word)%nat.

Definition extract_words (text : string) : list string :=
  if String.eqb text "" then []
  else
    let words :=
      map string_of_list_ascii (findall (lower (list_ascii_of_string text))) in
    List.filter keep_word words.

(** ** Runs of characters *)

Definition cons_nonempty (r : list ascii) (rs : list (list ascii))
  : list (list ascii) :=
  match r with
  | [] => rs
  | _ => r :: rs
  end.

(** [runs p s]: the run of [p]-characters at the head of [s] (empty when
    the head is no [p]-character) and the maximal runs after it. *)
Fixpoint runs (p : ascii -> bool) (s : list ascii)
  : list ascii * list (list ascii) :=
  match s with
  | [] => ([], [])
  | c :: s' =>
      let '(r, rs) := runs p s' in
      if p c then (c :: r, rs) else ([], cons_nonempty r rs)
  end.

(** The maximal runs of [p]-characters of [s], in order. *)
Definition split_runs (p : ascii -> bool) (s : list ascii)
  : list (list ascii) :=
  let '(r, rs) := runs p s in cons_nonempty r rs.

(** The tokens of the regular expression, characterised without the scan:
    the maximal runs of word characters that consist of letters only, that
    is the runs of letters with no word character (letter, digit or
    underscore) next to them. *)
Definition letter_words (s : list ascii) : list (list ascii) :=
  List.filter (forallb is_alpha) (split_runs is_word_char s).

End Tokenizer.

(* ===================================================================== *)
(** * The tokenizer on Unicode text *)
(* ===================================================================== *)

(** [extract_words] on a Python [str], a sequence of code points.  The
    pattern [\b[a-zA-Z]+\b] is a [str] pattern, so its [\b] is the
    boundary of the Unicode class [\w]: an alphanumeric character of any
    script, or the underscore; [[a-zA-Z]] is the 52 ASCII letters.
    [Tokenizer] above is this tokenizer on texts of ASCII characters. *)
Module UnicodeText.

(** A [str]. *)
Definition str : Type := list N.

(** What is taken from the Unicode database: which characters beyond
    ASCII are alphanumeric ([str.isalnum]), and [str.lower] of a text
    that is not all ASCII. *)
Class Unicode : Type := {
  isalnum : N -> bool;
  unicode_lower : str -> str
}.

(** The code points of an ASCII literal. *)
Definition codes (s : string) : str :=
  map N_of_ascii (list_ascii_of_string s).

Fixpoint str_eqb (s t : str) : bool :=
  match s, t with
  | [], [] => true
  | c :: s', d :: t' => (c =? d)%N && str_eqb s' t'
  | _, _ => false
  end.

Definition is_ascii (c : N) : bool := (c <? 128)%N.

Definition is_upper (c : N) : bool := (65 <=? c)%N && (c <=? 90)%N.

Definition is_lower (c : N) : bool := (97 <=? c)%N && (c <=? 122)%N.

Definition is_digit (c : N) : bool := (48 <=? c)%N && (c <=? 57)%N.

(** The class [[a-zA-Z]]. *)
Definition is_alpha (c : N) : bool := is_upper c || is_lower c.

(** [word in STOP_WORDS] *)
Definition in_stop_words (word : str) : bool :=
  existsb (fun w => str_eqb word (codes w)) Tokenizer.STOP_WORDS.

(** [word not in STOP_WORDS and len(word) >= 3] *)
Definition keep_word (word : str) : bool :=
  negb (in_stop_words word) && (3 <=? List.length word)%nat.

(** [str.lower] on one ASCII character. *)
Definition lower_char (c : N) : N := if is_upper c then (c + 32)%N else c.

Section WithUnicode.
Context {unicode : Unicode}.

(** The class [\w]: letters, digits and the underscore on ASCII, the
    alphanumeric characters beyond. *)
Definition is_word_char (c : N) : bool :=
  if is_ascii c then is_alpha c || is_digit c || (c =? 95)%N
  else isalnum c.

(** [text.lower()] *)
Definition lower (text : str) : str :=
  if forallb is_ascii text then map lower_char text else unicode_lower text.

Definition is_word (c : option N) : bool :=
  match c with
  | Some c => is_word_char c
  | None => false
  end.

(** [\b] between the character before the position ([None] at the start of
    the string) and the one after it ([None] at the end): exactly one of
    the two is a word character. *)
Definition word_boundary (before after : option N) : bool :=
  xorb (is_word before) (is_word after).

(** The greedy [[a-zA-Z]+] takes the longest run of letters at the head. *)
Fixpoint take_alpha (s : str) : str :=
  match s with
  | c :: s' => if is_alpha c then c :: take_alpha s' else []
  | [] => []
  end.

(** Backtracking of [[a-zA-Z]+\b]: with [k] letters taken, the closing [\b]
    is tried after them; when it fails one letter is given back, down to
    one letter. *)
Fixpoint backtrack (s : str) (k : nat) : option str :=
  match k with
  | O => None
  | S k' =>
      if word_boundary (nth_error s k') (nth_error s k)
      then Some (firstn k s)
      else backtrack s k'
  end.

(** [\b[a-zA-Z]+\b] anchored at the head of [s], [prev] being the character
    before it. *)
Definition match_here (prev : option N) (s : str) : option str :=
  if word_boundary prev (head s)
  then backtrack s (List.length (take_alpha s))
  else None.

(** [re.findall]: the scan tries every position from left to right; after a
    match of [n] characters it resumes behind the match, which [skip]
    counts down. *)
Fixpoint findall_from (prev : option N) (skip : nat) (s : str) : list str :=
  match s with
  | [] => []
  | c :: s' =>
      match skip with
      | S k => findall_from (Some c) k s'
      | O =>
          match match_here prev s with
          | Some m => m :: findall_from (Some c) (List.length m - 1) s'
          | None => findall_from (Some c) 0 s'
          end
      end
  end.

(** [re.findall(r'\b[a-zA-Z]+\b', s)] *)
Definition findall (s : str) : list str := findall_from None 0 s.

Definition extract_words (text : str) : list str :=
  match text with
  | [] => []
  | _ => List.filter keep_word (findall (lower text))
  end.

End WithUnicode.

(** ** Runs of characters *)

Definition cons_nonempty (r : str) (rs : list str) : list str :=
  match r with
  | [] => rs
  | _ => r :: rs
  end.

(** [runs p s]: the run of [p]-characters at the head of [s] (empty when
    the head is no [p]-character) and the maximal runs after it. *)
Fixpoint runs (p : N -> bool) (s : str) : str * list str :=
  match s with
  | [] => ([], [])
  | c :: s' =>
      let '(r, rs) := runs p s' in
      if p c then (c :: r, rs) else ([], cons_nonempty r rs)
  end.

(** The maximal runs of [p]-characters of [s], in order. *)
Definition split_runs (p : N -> bool) (s : str) : list str :=
  let '(r, rs) := runs p s in cons_nonempty r rs.

(** The tokens of the regular expression, characterised without the scan:
    the maximal runs of word characters that consist of ASCII letters
    only, that is the runs of ASCII letters with no word character (a
    letter or a digit of any script, or the underscore) next to them. *)
Definition letter_words {unicode : Unicode} (s : str) : list str :=
  List.filter (forallb is_alpha) (split_runs is_word_char s).

(** The tokenizer as the specification words it: maximal runs of ASCII
    alphabetic characters with no alphabetic character immediately before
    or after them, of the lower-cased text, without stop words and tokens
    shorter than 3 characters. *)
Definition spec_extract_words {unicode : Unicode} (text : str) : list str :=
  List.filter keep_word (split_runs is_alpha (lower text)).

(** The Unicode database on the first 256 code points: the letters and
    the numeric characters of Latin-1, and its capital letters. *)
Definition latin1_isalnum (c : N) : bool :=
  existsb (N.eqb c) [170; 178; 179; 181; 185; 186; 188; 189; 190]%N
  || ((192 <=? c)%N && (c <=? 255)%N && negb (c =? 215)%N && negb (c =? 247)%N).

Definition latin1_lower_char (c : N) : N :=
  if is_upper c || ((192 <=? c)%N && (c <=? 222)%N && negb (c =? 215)%N)
  then (c + 32)%N else c.

Definition latin1 : Unicode :=
  {| isalnum := latin1_isalnum; unicode_lower := map latin1_lower_char |}.

End UnicodeText.


(* ===================================================================== *)
(** * JSON values and the Python operations applied to them *)
(* ===================================================================== *)

Module Json.

#[local] Set Warnings "-register-all".

(** What [json.load] returns: [None], [bool], [int], [float], [str],
    [list] and [dict] (string keys, in the order of the text). *)
Inductive json : Type :=
| JNull
| JBool (b : bool)
| JInt (n : Z)
| JFloat (q : Q)
| JStr (s : string)
| JList (l : list json)
| JObj (kvs : list (string * json)).

(** The exceptions the modelled code can meet. *)
Inductive exn : Type :=
| AttributeError
| TypeError
| UnicodeDecodeError
| ValueError
| OverflowError.

(** Result of a Python expression that may raise. *)
Inductive result (A : Type) : Type :=
| Ok (a : A)
| Err (e : exn).
Arguments Ok {A} a.
Arguments Err {A} e.

(** Truth value of an object, as [if x:] and [not x] test it. *)
Definition truthy (v : json) : bool :=
  match v with
  | JNull => false
  | JBool b => b
  | JInt n => negb (n =? 0)%Z
  | JFloat q => negb (Qeq_bool q (inject_Z 0))
  | JStr s => negb (String.eqb s "")
  | JList l => match l with [] => false | _ => true end
  | JObj kvs => match kvs with [] => false | _ => true end
  end.

Fixpoint assoc {V : Type} (k : string) (kvs : list (string * V)) : option V :=
  match kvs with
  | [] => None
  | (k', v) :: kvs' => if String.eqb k k' then Some v else assoc k kvs'
  end.

(** [d.get(key)]: the value, [None] when the key is absent; only a [dict]
    has the method. *)
Definition py_get (d : json) (key : string) : result json :=
  match d with
  | JObj kvs => Ok (match assoc key kvs with Some v => v | None => JNull end)
  | _ => Err AttributeError
  end.

(** [len(x)] *)
Definition py_len (v : json) : result nat :=
  match v with
  | JStr s => Ok (String.length s)
  | JList l => Ok (List.length l)
  | JObj kvs => Ok (List.length kvs)
  | _ => Err TypeError
  end.

Definition is_number (v : json) : bool :=
  match v with
  | JBool _ | JInt _ | JFloat _ => true
  | _ => false
  end.

(** [sum(x.values())], whose value is only printed: it needs a [dict], and
    adding a value that is no number to the running sum raises. *)
Definition py_sum_values (v : json) : result unit :=
  match v with
  | JObj kvs =>
      if forallb (fun kv => is_number (snd kv)) kvs then Ok tt
      else Err TypeError
  | _ => Err AttributeError
  end.

Fixpoint chars (s : string) : list json :=
  match s with
  | EmptyString => []
  | String c s' => JStr (String c EmptyString) :: chars s'
  end.

(** The elements a [for] loop draws from an object: the items of a list,
    the characters of a string, the keys of a dict. *)
Definition py_iter (v : json) : result (list json) :=
  match v with
  | JList l => Ok l
  | JStr s => Ok (chars s)
  | JObj kvs => Ok (map (fun kv => JStr (fst kv)) kvs)
  | _ => Err TypeError
  end.

(** A word-frequency table: words with their counts, in insertion order. *)
Definition table : Type := list (string * Z).

(** The table as the [dict] of [int] it is in Python. *)
Definition table_json (t : table) : json :=
  JObj (map (fun kv => (fst kv, JInt (snd kv))) t).

(** Reading a table back from a [dict] whose values are all [int]. *)
Fixpoint table_of_pairs (kvs : list (string * json)) : option table :=
  match kvs with
  | [] => Some []
  | (k, JInt n) :: kvs' =>
      match table_of_pairs kvs' with
      | Some t => Some ((k, n) :: t)
      | None => None
      end
  | _ => None
  end.

Definition json_table (v : json) : option table :=
  match v with
  | JObj kvs => table_of_pairs kvs
  | _ => None
  end.

End Json.

(* ===================================================================== *)
(** * The analyzer: cache store and aggregation pipeline *)
(* ===================================================================== *)

Module Analyzer.
Import Json.

(** Functions of the Python library that are taken as given:
    [hashlib.md5(s.encode()).hexdigest()] and
    [datetime.isoformat] of a time in microseconds. *)
Class Library : Type := {
  md5_hexdigest : string -> string;
  isoformat : Z -> string
}.

(** What a cache file holds, by what [json.load] on the file opened with
    [encoding='utf-8'] makes of it: bytes that are no UTF-8 text make the
    read raise [UnicodeDecodeError], a text that is no JSON document (the
    empty text, a document cut short) makes the parser raise
    [JSONDecodeError], and a JSON text yields its value. *)
Inductive content : Type :=
| Undecodable
| Malformed
| Document (v : json).

(** A file of the cache directory: its modification time, in microseconds,
    and its content. *)
Record file : Type := { mtime : Z; data : content }.

(** Answer of the [list=categorymembers] query: the transport failed
    ([requests.RequestException]), the answer carries an [error] field, or
    it carries a batch of titles and, when there are more, the [cmcontinue]
    token. *)
Inductive members_response : Type :=
| MembersFailed
| MembersError
| MembersBatch (titles : list string) (cmcontinue : option string).

(** Answer of the [prop=extracts] query, for the answers that
    [get_page_content] returns on: the transport failed, the body is a JSON
    object whose [query.pages] is an object of page objects and the first
    page with an [extract] has the text [text], or it is such an object and
    no page has an [extract].  A body of another shape, on which
    [data.get] or [pages.items] raises, is none of the three. *)
Inductive content_response : Type :=
| ContentFailed
| ContentExtract (text : string)
| ContentMissing.

(** The state the analyzer runs in: the cache directory, the clock (in
    microseconds), the number of requests sent so far, the paths that can
    be opened for writing, and the remote encyclopedia, which answers a
    category and continuation token, and a title. *)
Record world : Type := {
  fs : gmap string file;
  now : Z;
  requests : nat;
  writable : string -> bool;
  categorymembers : string -> option string -> members_response;
  extracts : json -> content_response
}.

Definition set_fs (w : world) (m : gmap string file) : world :=
  {| fs := m; now := now w; requests := requests w; writable := writable w;
     categorymembers := categorymembers w; extracts := extracts w |}.

(** Time passes. *)
Definition advance (d : Z) (w : world) : world :=
  {| fs := fs w; now := now w + d; requests := requests w;
     writable := writable w; categorymembers := categorymembers w;
     extracts := extracts w |}.

(** [self.session.get(...)]: one more request. *)
Definition send_request (w : world) : world :=
  {| fs := fs w; now := now w; requests := S (requests w);
     writable := writable w; categorymembers := categorymembers w;
     extracts := extracts w |}.

(** [time.sleep(0.1)] *)
Definition sleep (w : world) : world := advance 100000 w.

(** ** Computations over the world *)

(** A call returns a value, raises, or is still looping when the fuel of
    the pagination loop is spent. *)
Inductive outcome (A : Type) : Type :=
| Return (a : A) (w : world)
| Raise (e : exn) (w : world)
| Timeout (w : world).
Arguments Return {A} a w.
Arguments Raise {A} e w.
Arguments Timeout {A} w.

Definition world_of {A : Type} (o : outcome A) : world :=
  match o with
  | Return _ w | Raise _ w | Timeout w => w
  end.

Definition returned {A : Type} (o : outcome A) : option A :=
  match o with
  | Return a _ => Some a
  | _ => None
  end.

Definition M (A : Type) : Type := world -> outcome A.

Definition ret {A : Type} (a : A) : M A := fun w => Return a w.

Definition bind {A B : Type} (m : M A) (k : A -> M B) : M B :=
  fun w =>
    match m w with
    | Return a w' => k a w'
    | Raise e w' => Raise e w'
    | Timeout w' => Timeout w'
    end.

(** A Python expression that may raise. *)
Definition lift {A : Type} (r : result A) : M A :=
  fun w =>
    match r with
    | Ok a => Return a w
    | Err e => Raise e w
    end.

(** An effect that cannot fail. *)
Definition effect (f : world -> world) : M unit := fun w => Return tt (f w).

(** [datetime.now()] *)
Definition datetime_now : M Z := fun w => Return (now w) w.

Notation "'let*' x ':=' m 'in' k" := (bind m (fun x => k))
  (at level 10, x pattern, m at level 100, k at level 200).

(** ** Cache store *)

(** [class WikipediaAnalyzer], the fields of [self] the cache reads. *)
Record WikipediaAnalyzer : Type := {
  cache_dir : string;
  cache_expiry_days : Z
}.

(** [WikipediaAnalyzer()] *)
Definition default_analyzer : WikipediaAnalyzer :=
  {| cache_dir := "cache"; cache_expiry_days := 7 |}.

(** The class [[a-zA-Z0-9_-]] of [re.sub(r'[^a-zA-Z0-9_-]', '_', category)]. *)
Definition is_safe_char (c : ascii) : bool :=
  Tokenizer.is_word_char c || (Tokenizer.code c =? 45)%nat.

Definition safe_char (c : ascii) : ascii :=
  if is_safe_char c then c else "_"%char.

Definition ends_with_slash (s : string) : bool :=
  match rev (list_ascii_of_string s) with
  | c :: _ => Ascii.eqb c "/"
  | [] => false
  end.

Definition is_absolute (s : string) : bool :=
  match s with
  | String c _ => Ascii.eqb c "/"
  | EmptyString => false
  end.

(** [os.path.join(a, b)] on POSIX. *)
Definition path_join (a b : string) : string :=
  if is_absolute b then b
  else if String.eqb a "" || ends_with_slash a then (a ++ b)%string
  else (a ++ "/" ++ b)%string.

(** ** What a call leaves as it was *)

(** From [w] to [w']: what can be written and the encyclopedia are the
    same, the clock and the number of requests have not gone back. *)
Definition extends (w w' : world) : Prop :=
  writable w' = writable w /\
  categorymembers w' = categorymembers w /\
  extracts w' = extracts w /\
  now w <= now w' /\
  (requests w <= requests w')%nat.

(** A computation that only ever takes such steps. *)
Definition steady {A : Type} (m : M A) : Prop :=
  forall w, extends w (world_of (m w)).

(** A computation that leaves the cache directory as it is. *)
Definition keeps_fs {A : Type} (m : M A) : Prop :=
  forall w, fs (world_of (m w)) = fs w.

Section WithLibrary.
Context {lib : Library}.

Definition _get_cache_filename (self : WikipediaAnalyzer)
    (category cache_type : string) : string :=
  let category_hash := substring 0 8 (md5_hexdigest category) in
  let safe_category :=
    string_of_list_ascii (map safe_char (list_ascii_of_string category)) in
  path_join (cache_dir self)
    (safe_category ++ "_" ++ category_hash ++ "_" ++ cache_type ++ ".json")%string.

(** [timedelta(days=1)] in microseconds. *)
Definition day : Z := 86400 * 1000000.

(** Check if cache file exists and is not expired.  The two dates are
    compared as instants: this is what [datetime] computes on a machine
    whose clock keeps one offset to UTC, as long as the dates are within
    the years 1 to 9999.  [LocalClock._is_cache_valid] is the check on
    wall-clock dates that can raise; the two agree under these conditions
    ([LocalClockFacts.is_cache_valid_agrees]). *)
Definition _is_cache_valid (self : WikipediaAnalyzer) (cache_file : string)
    (w : world) : bool :=
  match fs w !! cache_file with
  | None => false
  | Some f =>
      let file_time := mtime f in
      let expiry_time := now w - cache_expiry_days self * day in
      expiry_time <? file_time
  end.

(** Load data from cache file: [FileNotFoundError] and [JSONDecodeError]
    are caught, other exceptions are not. *)
Definition _load_cache (cache_file : string) : M json :=
  fun w =>
    match fs w !! cache_file with
    | None => Return (JObj []) w
    | Some f =>
        match data f with
        | Undecodable => Raise UnicodeDecodeError w
        | Malformed => Return (JObj []) w
        | Document v => Return v w
        end
    end.

(** The file [cache_file] now holds [c], written at the current time. *)
Definition write_file (cache_file : string) (c : content) (w : world)
    : world :=
  set_fs w (<[cache_file := {| mtime := now w; data := c |}]> (fs w)).

(** [open(cache_file, 'w', encoding='utf-8')]: the file is created or cut
    to length zero where the path can be written, else the call raises. *)
Definition open_w (cache_file : string) (w : world) : option world :=
  if writable w cache_file then Some (write_file cache_file Malformed w)
  else None.

(** [json.dump(data, f, indent=2, ensure_ascii=False)] into the open file,
    run to its end. *)
Definition json_dump (doc : json) (cache_file : string) (w : world)
    : world :=
  write_file cache_file (Document doc) w.

(** Save data to cache file; a failure is reported and swallowed. *)
Definition _save_cache (cache_file : string) (doc : json) : M unit :=
  fun w =>
    match open_w cache_file w with
    | Some w' => Return tt (json_dump doc cache_file w')
    | None => Return tt w
    end.

(** Where a save can be interrupted: before the file is opened, after it
    was opened and before anything was written, or while [json.dump]
    writes, when the file holds a proper prefix of the text, which may end
    inside a character of several bytes. *)
Inductive interruption : Type :=
| BeforeOpen
| AfterOpen
| InDump (inside_char : bool).

(** The world a save interrupted at [stop] leaves behind. *)
Definition interrupted_save (cache_file : string) (doc : json)
    (stop : interruption) (w : world) : world :=
  match stop with
  | BeforeOpen => w
  | AfterOpen =>
      match open_w cache_file w with
      | Some w' => w'
      | None => w
      end
  | InDump inside_char =>
      match open_w cache_file w with
      | Some w' =>
          write_file cache_file
            (if inside_char then Undecodable else Malformed) w'
      | None => w
      end
  end.

(** The discipline the specification asks of a save, by what it lets a
    reader see: the document is written to a temporary path and renamed
    into place, so that wherever the save is interrupted the cache file
    holds what it held before or the whole new document. *)
Definition save_is_atomic (cache_file : string) (doc : json)
    (stop : interruption) (w : world) : Prop :=
  let w' := interrupted_save cache_file doc stop w in
  fs w' !! cache_file = fs w !! cache_file \/
  fs w' !! cache_file = Some {| mtime := now w; data := Document doc |}.

(** ** Category members *)

(** The [cmcontinue] parameter is sent only [if continue_token:]. *)
Definition cmcontinue_param (continue_token : option string)
    : option string :=
  match continue_token with
  | Some t => if String.eqb t "" then None else Some t
  | None => None
  end.

(** The [while True:] loop of [get_category_members], with fuel. *)
Fixpoint fetch_pages (fuel : nat) (category : string) (pages : list string)
    (continue_token : option string) (w : world) : outcome (list string) :=
  match fuel with
  | O => Timeout w
  | S fuel' =>
      let w := send_request w in
      match categorymembers w category (cmcontinue_param continue_token) with
      | MembersFailed => Return pages w
      | MembersError => Return pages w
      | MembersBatch page_titles cmcontinue =>
          let pages := pages ++ page_titles in
          match cmcontinue with
          | None => Return pages w
          | Some t => fetch_pages fuel' category pages (Some t) (sleep w)
          end
      end
  end.

(** The members document: [cache_data]. *)
Definition members_data (category : string) (pages : list string)
    (fetched_at : Z) : json :=
  JObj [ ("category", JStr category);
         ("pages", JList (map JStr pages));
         ("fetched_at", JStr (isoformat fetched_at));
         ("total_pages", JInt (Z.of_nat (List.length pages))) ].

(** The check of the members cache: the cached pages when the cache is
    valid and [cached_data.get('pages')] is true, else nothing. *)
Definition cached_members (self : WikipediaAnalyzer) (category : string)
    : M (option json) :=
  let cache_file := _get_cache_filename self category "members" in
  fun w =>
    if _is_cache_valid self cache_file w then
      (let* cached_data := _load_cache cache_file in
       let* pages := lift (py_get cached_data "pages") in
       if truthy pages then
         let* _ := lift (py_len pages) in
         ret (Some pages)
       else ret None) w
    else Return None w.

(** The fetch of [get_category_members] and the save of its result. *)
Definition fetch_category_members (fuel : nat) (self : WikipediaAnalyzer)
    (category : string) : M json :=
  let cache_file := _get_cache_filename self category "members" in
  let* pages := fetch_pages fuel category [] None in
  let* fetched_at := datetime_now in
  let cache_data := members_data category pages fetched_at in
  let* _ := _save_cache cache_file cache_data in
  ret (JList (map JStr pages)).

(** Get all page titles in a Wikipedia category. *)
Definition get_category_members (fuel : nat) (self : WikipediaAnalyzer)
    (category : string) : M json :=
  let* cached := cached_members self category in
  match cached with
  | Some pages => ret pages
  | None => fetch_category_members fuel self category
  end.

(** ** Page content *)

(** Get the plain text content of a Wikipedia page. *)
Definition get_page_content (title : json) : M string :=
  fun w =>
    let w := send_request w in
    match extracts w title with
    | ContentExtract text => Return text w
    | ContentMissing => Return "" w
    | ContentFailed => Return "" w
    end.

(** The words the page [title] contributes in the world [w]. *)
Definition page_words (w : world) (title : json) : list string :=
  match extracts w title with
  | ContentExtract text => Tokenizer.extract_words text
  | _ => []
  end.

(** ** Aggregation *)

(** [Counter]: one more occurrence of [word]; a new word goes last. *)
Fixpoint count_word (word : string) (t : table) : table :=
  match t with
  | [] => [(word, 1)]
  | (k, n) :: t' =>
      if String.eqb word k then (k, n + 1) :: t'
      else (k, n) :: count_word word t'
  end.

(** [dict(Counter(all_words))] *)
Definition Counter (all_words : list string) : table :=
  fold_left (fun t word => count_word word t) all_words [].

(** [sum(word_freq_dict.values())] *)
Definition sum_values (t : table) : Z :=
  fold_right (fun kv acc => snd kv + acc) 0 t.

(** The analysis document: [analysis_data]. *)
Definition analysis_data (category : string) (word_freq_dict : table)
    (analyzed_at : Z) (processed_pages : nat) : json :=
  JObj [ ("category", JStr category);
         ("word_frequencies", table_json word_freq_dict);
         ("analyzed_at", JStr (isoformat analyzed_at));
         ("total_pages_processed", JInt (Z.of_nat processed_pages));
         ("total_unique_words", JInt (Z.of_nat (List.length word_freq_dict)));
         ("total_word_occurrences", JInt (sum_values word_freq_dict)) ].

(** The [for] loop over the page titles: the words collected and the
    number of pages with content. *)
Fixpoint process_pages (page_titles : list json) (all_words : list string)
    (processed_pages : nat) : M (list string * nat) :=
  match page_titles with
  | [] => ret (all_words, processed_pages)
  | title :: rest =>
      let* content := get_page_content title in
      let '(all_words, processed_pages) :=
        if negb (String.eqb content "") then
          (all_words ++ Tokenizer.extract_words content, S processed_pages)
        else (all_words, processed_pages) in
      let* _ := effect sleep in
      process_pages rest all_words processed_pages
  end.

(** The check of the analysis cache: the cached table when the cache is
    valid and [cached_analysis.get('word_frequencies')] is true, else
    nothing. The two sizes are computed for printing. *)
Definition cached_analysis (self : WikipediaAnalyzer) (category : string)
    : M (option json) :=
  let analysis_cache_file := _get_cache_filename self category "analysis" in
  fun w =>
    if _is_cache_valid self analysis_cache_file w then
      (let* cached_analysis := _load_cache analysis_cache_file in
       let* word_frequencies :=
         lift (py_get cached_analysis "word_frequencies") in
       if truthy word_frequencies then
         let* _ := lift (py_len word_frequencies) in
         let* _ := lift (py_sum_values word_frequencies) in
         ret (Some word_frequencies)
       else ret None) w
    else Return None w.

(** [analyze_category] past the cache check. *)
Definition analyze_uncached (fuel : nat) (self : WikipediaAnalyzer)
    (category : string) : M json :=
  let analysis_cache_file := _get_cache_filename self category "analysis" in
  let* page_titles := get_category_members fuel self category in
  if negb (truthy page_titles) then ret (JObj [])
  else
    let* _ := lift (py_len page_titles) in
    let* titles := lift (py_iter page_titles) in
    let* (all_words, processed_pages) := process_pages titles [] 0 in
    let word_freq_dict := Counter all_words in
    let* analyzed_at := datetime_now in
    let analysis :=
      analysis_data category word_freq_dict analyzed_at processed_pages in
    let* _ := _save_cache analysis_cache_file analysis in
    ret (table_json word_freq_dict).

(** Analyze all pages in a category and return word frequency. *)
Definition analyze_category (fuel : nat) (self : WikipediaAnalyzer)
    (category : string) : M json :=
  let* cached := cached_analysis self category in
  match cached with
  | Some word_frequencies => ret word_frequencies
  | None => analyze_uncached fuel self category
  end.

End WithLibrary.

End Analyzer.

(* ===================================================================== *)
(** * The cache check in local time *)
(* ===================================================================== *)

(** [_is_cache_valid] as [datetime] computes it.  [datetime.fromtimestamp]
    and [datetime.now] give naive dates in the local time of the machine,
    so the two dates compared are wall-clock readings, which a change of
    the offset to UTC (daylight saving) moves against each other; and a
    [datetime] holds the years 1 to 9999 only, so each operation of the
    check can raise.  The check of [Analyzer] above is this check on a
    machine whose clock keeps one offset to UTC, with all dates within
    range ([LocalClockFacts.is_cache_valid_agrees]). *)
Module LocalClock.
Import Json Analyzer.

(** The time zone of the machine: the offset of local time to UTC, in
    microseconds, at each instant (a POSIX time in microseconds). *)
Class TimeZone : Type := { utcoffset : Z -> Z }.

(** [datetime.min] and [datetime.max], in microseconds from the start of
    1970: 0001-01-01T00:00:00 and 9999-12-31T23:59:59.999999. *)
Definition datetime_min : Z := -62135596800000000.

Definition datetime_max : Z := 253402300799999999.

Definition representable (t : Z) : bool :=
  (datetime_min <=? t) && (t <=? datetime_max).

(** [timedelta(days=days)]: the magnitude is at most 999999999 days. *)
Definition timedelta (days : Z) : result Z :=
  if Z.abs days <=? 999999999 then Ok (days * day) else Err OverflowError.

(** [d - delta] on a date: the result must be a date again. *)
Definition datetime_sub (d delta : Z) : result Z :=
  if representable (d - delta) then Ok (d - delta) else Err OverflowError.

Section WithTimeZone.
Context {tz : TimeZone}.

(** The wall-clock reading at the instant [t]. *)
Definition local_time (t : Z) : Z := t + utcoffset t.

(** [datetime.fromtimestamp(t)]: the local date, when its year is between
    1 and 9999. *)
Definition fromtimestamp (t : Z) : result Z :=
  if representable (local_time t) then Ok (local_time t) else Err ValueError.

(** [datetime.now()] *)
Definition datetime_now : M Z := fun w => lift (fromtimestamp (now w)) w.

(** Check if cache file exists and is not expired. *)
Definition _is_cache_valid (self : WikipediaAnalyzer) (cache_file : string)
    : M bool :=
  fun w =>
    match fs w !! cache_file with
    | None => Return false w
    | Some f =>
        (let* file_time := lift (fromtimestamp (mtime f)) in
         let* current := datetime_now in
         let* delta := lift (timedelta (cache_expiry_days self)) in
         let* expiry_time := lift (datetime_sub current delta) in
         ret (expiry_time <? file_time)) w
    end.

(** The dates of the check of the file [f] at the clock [clock] are all
    within range. *)
Definition in_range (self : WikipediaAnalyzer) (f : file) (clock : Z)
    : Prop :=
  representable (local_time (mtime f)) = true /\
  representable (local_time clock) = true /\
  Z.abs (cache_expiry_days self) <= 999999999 /\
  representable (local_time clock - cache_expiry_days self * day) = true.

(** No file of the cache directory was modified, by the wall clock, after
    the current time, and these times are dates. *)
Definition past_local (w : world) : Prop :=
  forall cache_file f, fs w !! cache_file = Some f ->
    representable (local_time (mtime f)) = true /\
    representable (local_time (now w)) = true /\
    local_time (mtime f) <= local_time (now w).

(** The clock had the same offset to UTC when the cache file was last
    modified, and all dates of its check are within range. *)
Definition one_offset (self : WikipediaAnalyzer) (cache_file : string)
    (w : world) : Prop :=
  forall f, fs w !! cache_file = Some f ->
    utcoffset (mtime f) = utcoffset (now w) /\ in_range self f (now w).

Context {lib : Library}.

(** The check of the members cache. *)
Definition cached_members (self : WikipediaAnalyzer) (category : string)
    : M (option json) :=
  let cache_file := _get_cache_filename self category "members" in
  let* valid := _is_cache_valid self cache_file in
  if valid then
    let* cached_data := _load_cache cache_file in
    let* pages := lift (py_get cached_data "pages") in
    if truthy pages then
      let* _ := lift (py_len pages) in
      ret (Some pages)
    else ret None
  else ret None.

(** The fetch of [get_category_members] and the save of its result,
    stamped with the local date. *)
Definition fetch_category_members (fuel : nat) (self : WikipediaAnalyzer)
    (category : string) : M json :=
  let cache_file := _get_cache_filename self category "members" in
  let* pages := fetch_pages fuel category [] None in
  let* fetched_at := datetime_now in
  let cache_data := members_data category pages fetched_at in
  let* _ := _save_cache cache_file cache_data in
  ret (JList (map JStr pages)).

(** Get all page titles in a Wikipedia category. *)
Definition get_category_members (fuel : nat) (self : WikipediaAnalyzer)
    (category : string) : M json :=
  let* cached := cached_members self category in
  match cached with
  | Some pages => ret pages
  | None => fetch_category_members fuel self category
  end.

(** The check of the analysis cache. *)
Definition cached_analysis (self : WikipediaAnalyzer) (category : string)
    : M (option json) :=
  let analysis_cache_file := _get_cache_filename self category "analysis" in
  let* valid := _is_cache_valid self analysis_cache_file in
  if valid then
    let* cached_analysis := _load_cache analysis_cache_file in
    let* word_frequencies :=
      lift (py_get cached_analysis "word_frequencies") in
    if truthy word_frequencies then
      let* _ := lift (py_len word_frequencies) in
      let* _ := lift (py_sum_values word_frequencies) in
      ret (Some word_frequencies)
    else ret None
  else ret None.

(** [analyze_category] past the page titles. *)
Definition analyze_pages (self : WikipediaAnalyzer) (category : string)
    (page_titles : json) : M json :=
  let analysis_cache_file := _get_cache_filename self category "analysis" in
  if negb (truthy page_titles) then ret (JObj [])
  else
    let* _ := lift (py_len page_titles) in
    let* titles := lift (py_iter page_titles) in
    let* (all_words, processed_pages) := process_pages titles [] 0 in
    let word_freq_dict := Counter all_words in
    let* analyzed_at := datetime_now in
    let analysis :=
      analysis_data category word_freq_dict analyzed_at processed_pages in
    let* _ := _save_cache analysis_cache_file analysis in
    ret (table_json word_freq_dict).

(** [analyze_category] past the cache check. *)
Definition analyze_uncached (fuel : nat) (self : WikipediaAnalyzer)
    (category : string) : M json :=
  let* page_titles := get_category_members fuel self category in
  analyze_pages self category page_titles.

(** Analyze all pages in a category and return word frequency. *)
Definition analyze_category (fuel : nat) (self : WikipediaAnalyzer)
    (category : string) : M json :=
  let* cached := cached_analysis self category in
  match cached with
  | Some word_frequencies => ret word_frequencies
  | None => analyze_uncached fuel self category
  end.

End WithTimeZone.

(** A machine on UTC. *)
Definition utc : TimeZone := {| utcoffset := fun _ => 0 |}.


End LocalClock.


(* ===================================================================== *)
(** * Floating-point numbers *)
(* ===================================================================== *)

(** Python's [float] is the IEEE 754 binary64 format: a finite value is
    [mant * 2 ^ expo] with a mantissa of at most 53 bits, and every
    operation returns the representable value nearest to the exact
    result, a tie going to the even mantissa.  The operations below are the
    three the word cloud applies: [int / int], [int + float] and
    [int(float)].  They are used on quotients between 0 and 90, far from
    the largest finite value, so the overflow of [int / int] (an
    [OverflowError]) and the division by zero are not modelled. *)
Module Float.

Record float : Type := { mant : Z; expo : Z }.

(** The integer nearest to [a / b], for [0 < b]; halves go to the even
    neighbour. *)
Definition round_half_even (a b : Z) : Z :=
  let q := a / b in
  let r := a mod b in
  match 2 * r ?= b with
  | Lt => q
  | Gt => q + 1
  | Eq => if Z.even q then q else q + 1
  end.

(** [2 ^ d <= a / b] *)
Definition ge_pow2 (d a b : Z) : bool :=
  if 0 <=? d then b * 2 ^ d <=? a else b <=? a * 2 ^ (- d).

(** The exponent [e] with [2 ^ e <= a / b < 2 ^ (e + 1)], for positive
    [a] and [b]. *)
Definition floor_log2 (a b : Z) : Z :=
  let d := Z.log2 a - Z.log2 b in
  if ge_pow2 d a b then d else d - 1.

(** The exponent of the last mantissa bit of the float nearest to
    [a / b]: 52 places below the leading bit, and never below the
    exponent of the subnormal numbers. *)
Definition exponent (a b : Z) : Z := Z.max (floor_log2 a b) (-1022) - 52.

(** [a / b] in units of [2 ^ p], as a fraction of integers. *)
Definition scaled_num (a p : Z) : Z := if 0 <=? p then a else a * 2 ^ (- p).

Definition scaled_den (b p : Z) : Z := if 0 <=? p then b * 2 ^ p else b.

(** The float nearest to the fraction [a / b], for [0 < b]. *)
Definition round_fraction (a b : Z) : float :=
  if a =? 0 then {| mant := 0; expo := 0 |}
  else
    let p := exponent (Z.abs a) b in
    let n := round_half_even (scaled_num (Z.abs a) p) (scaled_den b p) in
    {| mant := Z.sgn a * n; expo := p |}.

(** [float(k)], the conversion [int + float] applies to its left operand. *)
Definition float_of_int (k : Z) : float := round_fraction k 1.

(** [a / b] on integers: the quotient, correctly rounded. *)
Definition int_true_div (a b : Z) : float :=
  if 0 <? b then round_fraction a b else round_fraction (- a) (- b).

(** The exact sum of two floats, as a fraction. *)
Definition sum_num (x y : float) : Z :=
  let m := Z.min (expo x) (expo y) in
  let n := mant x * 2 ^ (expo x - m) + mant y * 2 ^ (expo y - m) in
  if 0 <=? m then n * 2 ^ m else n.

Definition sum_den (x y : float) : Z :=
  let m := Z.min (expo x) (expo y) in
  if 0 <=? m then 1 else 2 ^ (- m).

(** [x + y] on floats: the sum, correctly rounded. *)
Definition float_add (x y : float) : float :=
  round_fraction (sum_num x y) (sum_den x y).

(** [int(x)]: truncation towards zero. *)
Definition py_int (x : float) : Z :=
  if 0 <=? expo x then mant x * 2 ^ expo x
  else Z.quot (mant x) (2 ^ (- expo x)).

(** [int(10 + a / b)] *)
Definition size_of (a b : Z) : Z :=
  py_int (float_add (float_of_int 10) (int_true_div a b)).

(** The rational number a float stands for. *)
Definition pow2 (e : Z) : Q := (2 ^ e)%Q.

Definition value (x : float) : Q := (inject_Z (mant x) * pow2 (expo x))%Q.

End Float.

(* ===================================================================== *)
(** * Word cloud route *)
(* ===================================================================== *)

Module WordCloud.
Import Json Float.

(** [class ColorPalette] and its subclasses, which only fix [colors]. *)
Record ColorPalette : Type := { colors : list string }.

Definition PastelPalette : ColorPalette :=
  {| colors := ["#ffe6e6"; "#ffd7be"; "#ffffb3"; "#c9e4ca"; "#b2bec3"; "#eaebef"] |}.

Definition BrightPalette : ColorPalette :=
  {| colors := ["#ff69b4"; "#ffb31a"; "#ffff00"; "#33cc33"; "#0099cc"; "#6600cc"] |}.

Definition DarkPalette : ColorPalette :=
  {| colors := ["#333333"; "#666666"; "#999999"; "#cccccc"; "#b3b3b3"; "#e6e6e6"] |}.

Definition NeutralPalette : ColorPalette :=
  {| colors := ["#f5f5f5"; "#e5e5e5"; "#d3d3d3"; "#bdbdbd"; "#9c9c9c"; "#808080"] |}.

Definition RGBPalette : ColorPalette :=
  {| colors := ["#ff0000"; "#00ff00"; "#0000ff"; "#ffff00"; "#ff00ff"; "#00ffff"] |}.

Definition get_all_color_palettes : list (string * ColorPalette) :=
  [ ("pastel", PastelPalette);
    ("bright", BrightPalette);
    ("dark", DarkPalette);
    ("neutral", NeutralPalette);
    ("rgb", RGBPalette) ].

(** [palettes[palette_name]] after the fallback to ['pastel']. *)
Definition selected_palette (palette_name : string) : ColorPalette :=
  match assoc palette_name get_all_color_palettes with
  | Some p => p
  | None => PastelPalette
  end.

(** [sorted(..., key=lambda x: x[1], reverse=True)]: a stable sort, so
    items of equal frequency keep their order. *)
Fixpoint insert_desc (x : string * Z) (l : list (string * Z))
    : list (string * Z) :=
  match l with
  | [] => [x]
  | y :: l' => if snd y <=? snd x then x :: l else y :: insert_desc x l'
  end.

Definition sorted_desc (items : list (string * Z)) : list (string * Z) :=
  fold_right insert_desc [] items.

(** Descending order of frequency. *)
Definition desc (x y : string * Z) : Prop := snd y <= snd x.

(** [10 + (90 * (freq - min_freq) / freq_range)]: the product is an
    integer, the division and the sum are floating-point operations. *)
Definition normalized_size (freq min_freq freq_range : Z) : float :=
  float_add (float_of_int 10)
    (int_true_div (90 * (freq - min_freq)) freq_range).

(** An entry of [word_cloud_data]. *)
Record cloud_word : Type := {
  text : string;
  size : Z;
  frequency : Z;
  color : string
}.

(** [selected_palette.colors[i % len(selected_palette.colors)]] *)
Definition color_at (palette : ColorPalette) (i : nat) : string :=
  nth (i mod List.length (colors palette)) (colors palette) "".

(** The loop over [enumerate(top_words)], from index [i] on. *)
Fixpoint cloud_entries (i : nat) (top_words : list (string * Z))
    (min_freq freq_range : Z) (palette : ColorPalette) : list cloud_word :=
  match top_words with
  | [] => []
  | (word, freq) :: rest =>
      {| text := word;
         size := py_int (normalized_size freq min_freq freq_range);
         frequency := freq;
         color := color_at palette i |}
      :: cloud_entries (S i) rest min_freq freq_range palette
  end.

(** The responses of the route: the 404 error, or the data. *)
Inductive response : Type :=
| NotFound
| WordCloudData (category : string) (words : list cloud_word)
    (total_words displayed_words : nat).

(** [top_words[0][1]] and [top_words[-1][1]] *)
Definition first_freq (top_words : list (string * Z)) : Z :=
  snd (hd ("", 0) top_words).

Definition last_freq (top_words : list (string * Z)) : Z :=
  snd (List.last top_words ("", 0)).

(** [sorted_words[:100]] *)
Definition top_words (word_freq : table) : list (string * Z) :=
  firstn 100 (sorted_desc word_freq).

(** [max_freq - min_freq if max_freq != min_freq else 1] *)
Definition freq_range (top_words : list (string * Z)) : Z :=
  let max_freq := first_freq top_words in
  let min_freq := last_freq top_words in
  if negb (max_freq =? min_freq) then max_freq - min_freq else 1.

(** The list [word_cloud_data] built from the table. *)
Definition word_cloud_data (word_freq : table) (palette_name : string)
    : list cloud_word :=
  let palette := selected_palette palette_name in
  let top_words := top_words word_freq in
  match top_words with
  | [] => []
  | _ =>
      cloud_entries 0 top_words (last_freq top_words) (freq_range top_words)
        palette
  end.

(** [get_word_cloud_data] from the table [analyze_category] returned for
    [category] on. *)
Definition get_word_cloud_data (category : string) (word_freq : table)
    (palette_name : string) : response :=
  match word_freq with
  | [] => NotFound
  | _ =>
      let word_cloud_data := word_cloud_data word_freq palette_name in
      WordCloudData category word_cloud_data
        (List.length word_freq) (List.length word_cloud_data)
  end.

(** The entries of a response; the error response has none. *)
Definition response_words (r : response) : list cloud_word :=
  match r with
  | NotFound => []
  | WordCloudData _ words _ _ => words
  end.

End WordCloud.

(* ===================================================================== *)
(** * Example worlds *)
(* ===================================================================== *)

Module Examples.
Import Json Analyzer.

(** A stand-in for the library functions: a constant digest and a constant
    time stamp. *)
Definition plain_library : Library :=
  {| md5_hexdigest := fun _ => "d41d8cd98f00b204e9800998ecf8427e";
     isoformat := fun _ => "2024-01-01T00:00:00" |}.

(** An empty cache directory, and an encyclopedia with no page at all. *)
Definition empty_world : world :=
  {| fs := ∅; now := 0; requests := 0;
     writable := fun _ => true;
     categorymembers := fun _ _ => MembersBatch [] None;
     extracts := fun _ => ContentMissing |}.

(** The category "Birds" has the two pages "Owl" and "Wren". *)
Definition birds_world : world :=
  {| fs := ∅; now := 0; requests := 0;
     writable := fun _ => true;
     categorymembers := fun category _ =>
       if String.eqb category "Birds" then MembersBatch ["Owl"; "Wren"] None
       else MembersBatch [] None;
     extracts := fun title =>
       match title with
       | JStr "Owl" => ContentExtract "Owls hunt mice. Owls hoot."
       | JStr "Wren" => ContentExtract "The wren sings; owls listen."
       | _ => ContentMissing
       end |}.

(** A cache directory with one file, last modified at [t]. *)
Definition one_file (cache_file : string) (t : Z) (c : content) (clock : Z)
    : world :=
  {| fs := {[ cache_file := {| mtime := t; data := c |} ]};
     now := clock; requests := 0;
     writable := fun _ => true;
     categorymembers := fun _ _ => MembersBatch [] None;
     extracts := fun _ => ContentMissing |}.

End Examples.

(* ===================================================================== *)
(** * Further notions about the analyzer *)
(* ===================================================================== *)

Module AnalyzerMore.
Import Json Analyzer.

(** The answers of the encyclopedia to one listing of [category]: asked
    with the continuation parameter [param] first, it hands out [titles]
    over [n] requests, until a batch comes without a token, the answer
    carries an error or the transport fails. *)
Inductive listing (w : world) (category : string)
  : option string -> list string -> nat -> Prop :=
| listing_failed param :
    categorymembers w category param = MembersFailed ->
    listing w category param [] 1
| listing_error param :
    categorymembers w category param = MembersError ->
    listing w category param [] 1
| listing_last param titles :
    categorymembers w category param = MembersBatch titles None ->
    listing w category param titles 1
| listing_more param titles t rest n :
    categorymembers w category param = MembersBatch titles (Some t) ->
    listing w category (cmcontinue_param (Some t)) rest n ->
    listing w category param (titles ++ rest) (S n).

(** The page [title] has text in the world [w]. *)
Definition has_content (w : world) (title : json) : bool :=
  match extracts w title with
  | ContentExtract text => negb (String.eqb text "")
  | _ => false
  end.

(** How a call ended, without the world it left. *)
Inductive verdict (A : Type) : Type :=
| Returned (a : A)
| Raised (e : exn)
| TimedOut.
Arguments Returned {A} a.
Arguments Raised {A} e.
Arguments TimedOut {A}.

Definition verdict_of {A : Type} (o : outcome A) : verdict A :=
  match o with
  | Return a _ => Returned a
  | Raise e _ => Raised e
  | Timeout _ => TimedOut
  end.

(** The world [w] with other paths open for writing. *)
Definition with_writable (wr : string -> bool) (w : world) : world :=
  {| fs := fs w; now := now w; requests := requests w; writable := wr;
     categorymembers := categorymembers w; extracts := extracts w |}.

(** The world [w] with another encyclopedia. *)
Definition with_remote (cm : string -> option string -> members_response)
    (ex : json -> content_response) (w : world) : world :=
  {| fs := fs w; now := now w; requests := requests w;
     writable := writable w; categorymembers := cm; extracts := ex |}.

(** No file of the cache directory was modified after the current time. *)
Definition past_fs (w : world) : Prop :=
  forall cache_file f, fs w !! cache_file = Some f -> mtime f <= now w.

(** The number of times [word] occurs in [words]. *)
Definition occurrences (word : string) (words : list string) : nat :=
  count_occ string_dec words word.

(** [re.sub(r'[^a-zA-Z0-9_-]', '_', category)], the slug in the name of
    a cache file. *)
Definition safe_category (category : string) : string :=
  string_of_list_ascii (map safe_char (list_ascii_of_string category)).

(** Two worlds with the same clock, request count and encyclopedia; the
    cache directory and the writable paths may differ. *)
Definition same_remote (w w' : world) : Prop :=
  now w' = now w /\
  requests w' = requests w /\
  categorymembers w' = categorymembers w /\
  extracts w' = extracts w.

(** A computation that ends the same way in two such worlds, and leaves
    two such worlds. *)
Definition respects {A : Type} (m : M A) : Prop :=
  forall w w', same_remote w w' ->
    verdict_of (m w') = verdict_of (m w) /\
    same_remote (world_of (m w)) (world_of (m w')).

(** A computation under which no file gets a modification time after the
    current time. *)
Definition keeps_past {A : Type} (m : M A) : Prop :=
  forall w, past_fs w -> past_fs (world_of (m w)).

End AnalyzerMore.

(* ===================================================================== *)
(** * The analysis route and the printed report *)
(* ===================================================================== *)

Module Report.
Import Json WordCloud.

(** [category.replace(' ', '_')], as both routes do first. *)
Definition underscore (c : ascii) : ascii :=
  if Ascii.eqb c " " then "_"%char else c.

Definition normalize_category (category : string) : string :=
  string_of_list_ascii (map underscore (list_ascii_of_string category)).

(** The [stats] of the [/api/analyze] route. *)
Record analysis_stats : Type := {
  total_unique_words : nat;
  total_occurrences : Z;
  max_frequency : Z;
  min_frequency : Z
}.

(** The responses of the route: the 404 error, or the data. *)
Inductive analysis_response : Type :=
| AnalysisNotFound
| AnalysisData (category : string) (words : list (string * Z))
    (stats : analysis_stats).

(** [sum(item['frequency'] for item in word_data)] *)
Definition sum_frequencies (word_data : list (string * Z)) : Z :=
  fold_right (fun item acc => snd item + acc) 0 word_data.

(** The route [analyze_category] of [app.py] from the table that
    [analyzer.analyze_category] returned for [category] on. *)
Definition analyze_route (category : string) (word_freq : table)
    : analysis_response :=
  match word_freq with
  | [] => AnalysisNotFound
  | _ =>
      let word_data := sorted_desc word_freq in
      let total_words := List.length word_data in
      let total_occurrences := sum_frequencies word_data in
      let max_frequency := first_freq word_data in
      let min_frequency := last_freq word_data in
      AnalysisData category word_data
        {| total_unique_words := total_words;
           total_occurrences := total_occurrences;
           max_frequency := max_frequency;
           min_frequency := min_frequency |}
  end.

(** [l[:n]] for an integer [n]: a negative [n] counts from the end. *)
Definition slice_to {A : Type} (n : Z) (l : list A) : list A :=
  if 0 <=? n then firstn (Z.to_nat n) l
  else firstn (Z.to_nat (Z.of_nat (List.length l) + n)) l.

(** [enumerate(items, start)] *)
Fixpoint enumerate {A : Type} (start : Z) (items : list A)
    : list (Z * A) :=
  match items with
  | [] => []
  | x :: rest => (start, x) :: enumerate (start + 1) rest
  end.

(** What [print_results] prints: the two totals, the number announced in
    the line "Top ... most frequent words" and the rows of rank, word and
    frequency. *)
Record report : Type := {
  unique_words : nat;
  word_occurrences : Z;
  announced : Z;
  rows : list (Z * (string * Z))
}.

(** [print_results]; [None] stands for the line "No words to analyze." *)
Definition print_results (word_freq : table) (top_n : Z) : option report :=
  match word_freq with
  | [] => None
  | _ =>
      let sorted_words := sorted_desc word_freq in
      Some {| unique_words := List.length word_freq;
              word_occurrences := sum_frequencies word_freq;
              announced := Z.min top_n (Z.of_nat (List.length sorted_words));
              rows := enumerate 1 (slice_to top_n sorted_words) |}
  end.

End Report.

(** Further example worlds. *)

Module ExamplesMore.
Import Json Analyzer Examples AnalyzerMore.

(** The category "Birds" listed in batches of one title: "Owl", then
    "Wren", then an error in place of the third batch. *)
Definition paged_world : world :=
  {| fs := ∅; now := 0; requests := 0;
     writable := fun _ => true;
     categorymembers := fun category param =>
       if String.eqb category "Birds" then
         match param with
         | None => MembersBatch ["Owl"] (Some "page2")
         | Some "page2" => MembersBatch ["Wren"] (Some "page3")
         | _ => MembersError
         end
       else MembersBatch [] None;
     extracts := extracts birds_world |}.

End ExamplesMore.

(* ===================================================================== *)
(** * Facts about the tokenizer *)
(* ===================================================================== *)

Module TokenizerFacts.
Import Tokenizer.

Lemma alpha_is_word c : is_alpha c = true -> is_word_char c = true.
Proof. unfold is_word_char. intros ->. reflexivity. Qed.

Lemma findall_skip k : forall s prev, (k < List.length s)%nat ->
  findall_from prev (S k) s = findall_from (nth_error s k) 0 (skipn (S k) s).
Proof.
  induction k as [|k IH]; intros [|c s] prev Hlen; simpl in *; try lia.
  - reflexivity.
  - apply IH. lia.
Qed.

Lemma take_alpha_app s :
  exists rest, s = take_alpha s ++ rest /\
    match rest with [] => True | d :: _ => is_alpha d = false end.
Proof.
  induction s as [|c s [rest [Hs Hr]]]; simpl.
  - exists []. split; auto.
  - destruct (is_alpha c) eqn:Hc.
    + exists rest. split; [simpl; congruence | exact Hr].
    + exists (c :: s). split; auto.
Qed.

Lemma take_alpha_all s : forallb is_alpha (take_alpha s) = true.
Proof.
  induction s as [|c s IH]; simpl; auto.
  destruct (is_alpha c) eqn:Hc; simpl; auto. rewrite Hc. auto.
Qed.

Lemma runs_app p a rest :
  forallb p a = true ->
  runs p (a ++ rest) = (a ++ fst (runs p rest), snd (runs p rest)).
Proof.
  induction a as [|c a IH]; simpl; intros H.
  - destruct (runs p rest); reflexivity.
  - apply andb_true_iff in H as [Hc Ha]. rewrite (IH Ha), Hc. reflexivity.
Qed.

(** Below [k] letters in a row no closing boundary is found. *)
Lemma backtrack_letters s k :
  (forall j, (j <= k)%nat -> exists c, nth_error s j = Some c /\ is_alpha c = true) ->
  backtrack s k = None.
Proof.
  induction k as [|k IH]; intros H; cbn [backtrack]; auto.
  destruct (H k) as [c [Hc Ha]]; [lia|].
  destruct (H (S k)) as [d [Hd Hb]]; [lia|].
  rewrite Hc, Hd. unfold word_boundary. simpl.
  rewrite (alpha_is_word _ Ha), (alpha_is_word _ Hb). simpl.
  apply IH. intros j Hj. apply H. lia.
Qed.

Lemma nth_error_letters a rest j :
  forallb is_alpha a = true -> (j < List.length a)%nat ->
  exists c, nth_error (a ++ rest) j = Some c /\ is_alpha c = true.
Proof.
  intros Ha Hj. rewrite forallb_forall in Ha.
  destruct (nth_error a j) eqn:E.
  - exists a0. split. rewrite nth_error_app1 by lia. auto. apply Ha. eapply nth_error_In; eauto.
  - apply nth_error_None in E. lia.
Qed.

Lemma backtrack_run a rest :
  forallb is_alpha a = true -> a <> [] ->
  backtrack (a ++ rest) (List.length a) =
    if is_word (head rest) then None else Some a.
Proof.
  intros Ha Hne. destruct a as [|c a _] using rev_ind; [congruence|]. clear Hne.
  pose proof Ha as Hall. rewrite forallb_app in Hall.
  apply andb_true_iff in Hall as [Hall Hc]. cbn in Hc. rewrite andb_true_r in Hc.
  rewrite length_app. cbn [List.length].
  replace (List.length a + 1)%nat with (S (List.length a)) by lia.
  cbn [backtrack].
  assert (E1 : nth_error ((a ++ [c]) ++ rest) (List.length a) = Some c).
  { rewrite <- app_assoc. rewrite nth_error_app2 by lia.
    rewrite Nat.sub_diag. reflexivity. }
  assert (E2 : nth_error ((a ++ [c]) ++ rest) (S (List.length a)) = head rest).
  { rewrite nth_error_app2 by (rewrite length_app; cbn; lia).
    rewrite length_app. cbn [List.length].
    replace (S (List.length a) - (List.length a + 1))%nat with 0%nat by lia.
    destruct rest; reflexivity. }
  rewrite E1, E2. unfold word_boundary. cbn [is_word].
  rewrite (alpha_is_word _ Hc). cbn [xorb].
  destruct (is_word (head rest)) eqn:Hw; cbn [negb].
  - apply backtrack_letters. intros j Hj.
    apply nth_error_letters; auto. rewrite length_app. cbn. lia.
  - f_equal. rewrite firstn_app. rewrite firstn_all2 by (rewrite length_app; cbn; lia).
    rewrite length_app. cbn [List.length].
    replace (S (List.length a) - (List.length a + 1))%nat with 0%nat by lia.
    cbn. apply app_nil_r.
Qed.

Lemma match_here_nonletter prev c s :
  is_alpha c = false -> match_here prev (c :: s) = None.
Proof.
  intros Hc. unfold match_here. cbn [take_alpha]. rewrite Hc.
  destruct (word_boundary _ _); reflexivity.
Qed.

Lemma runs_head_nonword p rest :
  match rest with [] => True | d :: _ => p d = false end ->
  fst (runs p rest) = [].
Proof.
  destruct rest as [|d rest]; cbn; auto. intros ->.
  destruct (runs p rest). reflexivity.
Qed.

Lemma findall_from_runs n : forall s, (List.length s <= n)%nat ->
  (forall prev, is_word prev = false ->
     findall_from prev 0 s = letter_words s) /\
  (forall prev, is_word prev = true ->
     findall_from prev 0 s =
     List.filter (forallb is_alpha) (snd (runs is_word_char s))).
Proof.
  induction n as [|n IH]; intros [|c s] Hlen; cbn [List.length] in Hlen;
    try lia; try (split; reflexivity).
  assert (Hs : (List.length s <= n)%nat) by lia.
  destruct (IH s Hs) as [IH1 IH2].
  unfold letter_words, split_runs in *. cbn [runs findall_from].
  destruct (runs is_word_char s) as [r rs] eqn:Hruns.
  cbn [snd] in IH2.
  destruct (is_word_char c) eqn:Hw.
  - split; intros prev Hprev.
    + (* a word starts at [c] *)
      destruct (is_alpha c) eqn:Ha.
      * destruct (take_alpha_app s) as [rest [Hsplit Hrest]].
        assert (Hm : match_here prev (c :: s) =
                     if is_word (head rest) then None
                     else Some (c :: take_alpha s)).
        { unfold match_here, word_boundary. cbn [head is_word take_alpha].
          rewrite Hprev, Hw, Ha. cbn [xorb negb].
          rewrite Hsplit at 1.
          change (c :: take_alpha s ++ rest) with ((c :: take_alpha s) ++ rest).
          apply backtrack_run; [|discriminate].
          cbn [forallb]. rewrite Ha. apply take_alpha_all. }
        rewrite Hm.
        assert (Hr : r = take_alpha s ++ fst (runs is_word_char rest) /\
                     rs = snd (runs is_word_char rest)).
        { rewrite Hsplit in Hruns. rewrite runs_app in Hruns.
          - inversion Hruns. auto.
          - apply forallb_forall. intros x Hx. apply alpha_is_word.
            revert x Hx. apply forallb_forall, take_alpha_all. }
        destruct Hr as [Hr Hrs].
        destruct (is_word (head rest)) eqn:Hwr.
        -- (* a digit or an underscore follows the letters *)
           rewrite (IH2 (Some c)) by exact Hw.
           cbn [cons_nonempty List.filter forallb]. rewrite Ha. cbn [andb].
           destruct rest as [|d rest]; [discriminate|]. cbn [head is_word] in Hwr.
           replace (forallb is_alpha r) with false; [reflexivity|].
           rewrite Hr, forallb_app. cbn [runs]. rewrite Hwr.
           destruct (runs is_word_char rest). cbn [fst forallb].
           rewrite Hrest. cbn. rewrite andb_false_r. reflexivity.
        -- (* the letters end at a non-word character or at the end *)
           assert (Hfst : fst (runs is_word_char rest) = []).
           { apply runs_head_nonword. destruct rest; auto. }
           rewrite Hfst, app_nil_r in Hr. subst r.
           cbn [cons_nonempty List.filter forallb]. rewrite Ha, take_alpha_all.
           cbn [andb]. f_equal.
           cbn [List.length].
           replace (S (List.length (take_alpha s)) - 1)%nat
             with (List.length (take_alpha s)) by lia.
           assert (Hlen' : List.length s = (List.length (take_alpha s) + List.length rest)%nat).
           { rewrite Hsplit at 1. apply length_app. }
           destruct (take_alpha s) as [|a0 al] eqn:Hta.
           ++ cbn [List.length]. cbn [app] in Hsplit. subst rest.
              rewrite (IH2 (Some c)) by exact Hw. reflexivity.
           ++ cbn [List.length]. rewrite findall_skip by (cbn [List.length] in Hlen'; lia).
              assert (Hdrop : skipn (S (List.length al)) s = rest).
              { rewrite Hsplit at 1.
                change (S (List.length al)) with (List.length (a0 :: al)).
                rewrite skipn_app, skipn_all, Nat.sub_diag. reflexivity. }
              rewrite Hdrop.
              destruct (IH rest) as [_ IHr]; [lia|].
              rewrite IHr; [rewrite Hrs; reflexivity|].
              destruct (nth_error_letters (a0 :: al) rest (List.length al))
                as [x [Hx Hax]].
              { rewrite <- Hta. apply take_alpha_all. }
              { cbn. lia. }
              rewrite Hsplit at 1. rewrite Hx. cbn. apply alpha_is_word, Hax.
      * rewrite match_here_nonletter by exact Ha.
        rewrite (IH2 (Some c)) by exact Hw.
        cbn [cons_nonempty List.filter forallb]. rewrite Ha. reflexivity.
    + (* inside a run of word characters *)
      unfold match_here, word_boundary. cbn [head is_word].
      rewrite Hprev, Hw. cbn [xorb snd].
      apply (IH2 (Some c)). exact Hw.
  - split; intros prev Hprev.
    + unfold match_here, word_boundary. cbn [head is_word].
      rewrite Hprev, Hw. cbn [xorb].
      rewrite (IH1 (Some c)) by exact Hw. reflexivity.
    + rewrite match_here_nonletter.
      * rewrite (IH1 (Some c)) by exact Hw. reflexivity.
      * destruct (is_alpha c) eqn:Ha; auto.
        rewrite (alpha_is_word _ Ha) in Hw. discriminate.
Qed.

Lemma findall_letter_words s : findall s = letter_words s.
Proof.
  unfold findall. apply (findall_from_runs (List.length s) s); auto.
Qed.

End TokenizerFacts.

(* ===================================================================== *)
(** * Facts about the floating-point operations *)
(* ===================================================================== *)

Module FloatFacts.
Import Float.

(** ** Powers of two in the rationals *)

Lemma pow2_pos e : (0 < pow2 e)%Q.
Proof. apply Qpower_0_lt. reflexivity. Qed.

Lemma pow2_add a b : (pow2 (a + b) == pow2 a * pow2 b)%Q.
Proof. unfold pow2. apply Qpower_plus. discriminate. Qed.

Lemma pow2_le a b : a <= b -> (pow2 a <= pow2 b)%Q.
Proof. intros H. unfold pow2. apply Qpower_le_compat_l; [exact H|]. discriminate. Qed.

Lemma pow2_lt_inv a b : (pow2 a < pow2 b)%Q -> a < b.
Proof.
  intros H. destruct (Z_lt_le_dec a b) as [|Hle]; [assumption|].
  apply pow2_le in Hle. apply Qlt_not_le in H. contradiction.
Qed.

Lemma pow2_Z e : 0 <= e -> (pow2 e == inject_Z (2 ^ e))%Q.
Proof. intros H. unfold pow2. rewrite Zpower_Qpower by exact H. reflexivity. Qed.

Lemma pow2_0 : (pow2 0 == 1)%Q.
Proof. reflexivity. Qed.

Lemma pow2_neg e : (pow2 e * pow2 (- e) == 1)%Q.
Proof. rewrite <- pow2_add. replace (e + - e) with 0 by lia. reflexivity. Qed.

(** ** Rounding to the nearest integer, ties to even *)

Lemma round_half_even_spec a b :
  0 < b ->
  let n := round_half_even a b in
  (2 * n - 1) * b <= 2 * a <= (2 * n + 1) * b /\
  (2 * a = (2 * n - 1) * b -> Z.even n = true) /\
  (2 * a = (2 * n + 1) * b -> Z.even n = true).
Proof.
  intros Hb. cbn zeta. unfold round_half_even.
  pose proof (Z.div_mod a b ltac:(lia)) as Hdm.
  pose proof (Z.mod_pos_bound a b Hb) as Hm.
  set (q := a / b) in *. set (r := a mod b) in *.
  destruct (Z.compare_spec (2 * r) b) as [He|Hl|Hg].
  - destruct (Z.even q) eqn:Hq.
    + split; [nia|]. split; intros H; [exfalso; nia|exact Hq].
    + assert (He1 : Z.even (q + 1) = true).
      { rewrite Z.even_add, Hq. reflexivity. }
      split; [nia|]. split; intros H; [exact He1|exfalso; nia].
  - split; [nia|]. split; intros H; exfalso; nia.
  - split; [nia|]. split; intros H; exfalso; nia.
Qed.

Lemma round_half_even_mono a b a' b' :
  0 < b -> 0 < b' -> a * b' <= a' * b ->
  round_half_even a b <= round_half_even a' b'.
Proof.
  intros Hb Hb' Hle.
  destruct (round_half_even_spec a b Hb) as ((H1 & H2) & Hu & Hd).
  destruct (round_half_even_spec a' b' Hb') as ((H1' & H2') & Hu' & Hd').
  set (n := round_half_even a b) in *. set (n' := round_half_even a' b') in *.
  destruct (Z_le_gt_dec n n') as [|Hgt]; [assumption|exfalso].
  assert (Hc : (2 * n - 1) * (b * b') <= (2 * n' + 1) * (b * b')) by nia.
  assert (Hn : n = n' + 1) by nia.
  assert (E1 : 2 * a = (2 * n - 1) * b) by nia.
  assert (E2 : 2 * a' = (2 * n' + 1) * b') by nia.
  apply Hu in E1. apply Hd' in E2.
  rewrite Hn, Z.even_add, E2 in E1. discriminate.
Qed.

Lemma round_half_even_ge a b k :
  0 < b -> k * b <= a -> k <= round_half_even a b.
Proof.
  intros Hb H. destruct (round_half_even_spec a b Hb) as ((_ & H2) & _). nia.
Qed.

Lemma round_half_even_le a b k :
  0 < b -> a <= k * b -> round_half_even a b <= k.
Proof.
  intros Hb H. destruct (round_half_even_spec a b Hb) as ((H1 & _) & _). nia.
Qed.

(** ** The binary exponent of a fraction *)

Lemma inject_Z_pos a : 0 < a -> (0 < inject_Z a)%Q.
Proof. intros H. change 0%Q with (inject_Z 0). rewrite <- Zlt_Qlt. exact H. Qed.

Lemma inject_Z_nonneg a : 0 <= a -> (0 <= inject_Z a)%Q.
Proof. intros H. change 0%Q with (inject_Z 0). rewrite <- Zle_Qle. exact H. Qed.

Lemma ge_pow2_spec d a b :
  ge_pow2 d a b = true <-> (pow2 d * inject_Z b <= inject_Z a)%Q.
Proof.
  unfold ge_pow2. destruct (Z.leb_spec 0 d) as [Hd|Hd].
  - rewrite Z.leb_le, pow2_Z by exact Hd.
    rewrite <- inject_Z_mult, <- Zle_Qle. split; lia.
  - rewrite Z.leb_le, Zle_Qle, inject_Z_mult.
    rewrite <- (pow2_Z (- d)) by lia.
    pose proof (pow2_pos d) as Hp. pose proof (pow2_neg d) as Hn.
    rewrite <- (Qmult_le_l _ _ (pow2 d) Hp).
    setoid_replace (pow2 d * (inject_Z a * pow2 (- d)))%Q
      with (inject_Z a * (pow2 d * pow2 (- d)))%Q using relation Qeq by ring.
    rewrite Hn, Qmult_1_r. reflexivity.
Qed.

Lemma log2_pow2 a :
  0 < a -> (pow2 (Z.log2 a) <= inject_Z a < pow2 (Z.log2 a + 1))%Q.
Proof.
  intros Ha. pose proof (Z.log2_spec a Ha) as [H1 H2].
  pose proof (Z.log2_nonneg a) as Hn.
  rewrite !pow2_Z by lia. rewrite <- Zle_Qle, <- Zlt_Qlt.
  replace (Z.log2 a + 1) with (Z.succ (Z.log2 a)) by lia. split; assumption.
Qed.

Lemma floor_log2_spec a b :
  0 < a -> 0 < b ->
  let e := floor_log2 a b in
  (pow2 e * inject_Z b <= inject_Z a < pow2 (e + 1) * inject_Z b)%Q.
Proof.
  intros Ha Hb. cbn zeta. unfold floor_log2.
  set (d := Z.log2 a - Z.log2 b).
  pose proof (log2_pow2 a Ha) as [A1 A2].
  pose proof (log2_pow2 b Hb) as [B1 B2].
  pose proof (inject_Z_pos b Hb) as Hbq.
  assert (Hup : (inject_Z a < pow2 (d + 1) * inject_Z b)%Q).
  { eapply Qlt_le_trans; [exact A2|].
    assert (E : (pow2 (Z.log2 a + 1) == pow2 (d + 1) * pow2 (Z.log2 b))%Q).
    { rewrite <- pow2_add. unfold d.
      replace (Z.log2 a - Z.log2 b + 1 + Z.log2 b) with (Z.log2 a + 1) by lia.
      reflexivity. }
    rewrite E. apply Qmult_le_l; [apply pow2_pos|exact B1]. }
  assert (Hlo : (pow2 (d - 1) * inject_Z b < inject_Z a)%Q).
  { eapply Qlt_le_trans; [|exact A1].
    assert (E : (pow2 (Z.log2 a) == pow2 (d - 1) * pow2 (Z.log2 b + 1))%Q).
    { rewrite <- pow2_add. unfold d.
      replace (Z.log2 a - Z.log2 b - 1 + (Z.log2 b + 1)) with (Z.log2 a) by lia.
      reflexivity. }
    rewrite E. apply Qmult_lt_l; [apply pow2_pos|exact B2]. }
  destruct (ge_pow2 d a b) eqn:Hg.
  - apply ge_pow2_spec in Hg. split; assumption.
  - replace (d - 1 + 1) with d by lia. split; [apply Qlt_le_weak, Hlo|].
    apply Qnot_le_lt. intros H. apply ge_pow2_spec in H. congruence.
Qed.

(** ** Rounding a positive fraction *)

Lemma round_fraction_pos a b :
  0 < a ->
  round_fraction a b =
    {| mant := round_half_even (scaled_num a (exponent a b))
                 (scaled_den b (exponent a b));
       expo := exponent a b |}.
Proof.
  intros Ha. unfold round_fraction.
  destruct (Z.eqb_spec a 0) as [|_]; [lia|].
  rewrite Z.abs_eq, Z.sgn_pos by lia.
  f_equal. destruct (round_half_even _ _); reflexivity.
Qed.

Lemma scaled_den_pos b p : 0 < b -> 0 < scaled_den b p.
Proof.
  intros Hb. unfold scaled_den. destruct (Z.leb_spec 0 p); [|exact Hb].
  apply Z.mul_pos_pos; [exact Hb|]. apply Z.pow_pos_nonneg; lia.
Qed.

Lemma scaled_num_nonneg a p : 0 <= a -> 0 <= scaled_num a p.
Proof.
  intros Ha. unfold scaled_num. destruct (Z.leb_spec 0 p); [exact Ha|].
  apply Z.mul_nonneg_nonneg; [exact Ha|]. apply Z.pow_nonneg; lia.
Qed.

(** [scaled_num a p / scaled_den b p] is [a / b] times [2 ^ (- p)]. *)
Lemma scaled_eq a b p :
  (inject_Z (scaled_num a p) * inject_Z b ==
   inject_Z a * inject_Z (scaled_den b p) * pow2 (- p))%Q.
Proof.
  unfold scaled_num, scaled_den. destruct (Z.leb_spec 0 p) as [Hp|Hp].
  - rewrite inject_Z_mult, <- pow2_Z by exact Hp.
    pose proof (pow2_neg p) as Hn.
    setoid_replace (inject_Z a * (inject_Z b * pow2 p) * pow2 (- p))%Q
      with (inject_Z a * inject_Z b * (pow2 p * pow2 (- p)))%Q using relation Qeq by ring.
    rewrite Hn. ring.
  - rewrite inject_Z_mult, <- pow2_Z by lia. ring.
Qed.

Lemma scaled_mono a b a' b' p :
  0 < b -> 0 < b' -> a * b' <= a' * b ->
  scaled_num a p * scaled_den b' p <= scaled_num a' p * scaled_den b p.
Proof.
  intros Hb Hb' H. unfold scaled_num, scaled_den.
  destruct (Z.leb_spec 0 p) as [Hp|Hp].
  - assert (0 < 2 ^ p) by (apply Z.pow_pos_nonneg; lia). nia.
  - assert (0 < 2 ^ (- p)) by (apply Z.pow_pos_nonneg; lia). nia.
Qed.

Lemma Qmult_le_cancel_r x y z : (0 < z -> x * z <= y * z -> x <= y)%Q.
Proof. intros Hz H. apply (Qmult_le_r _ _ z Hz). exact H. Qed.

Lemma Qmult_lt_cancel_r x y z : (0 < z -> x * z < y * z -> x < y)%Q.
Proof. intros Hz H. apply (Qmult_lt_r _ _ z Hz). exact H. Qed.

Lemma scaled_ge a b p k :
  0 < b ->
  (pow2 k * inject_Z b <= inject_Z a)%Q ->
  (pow2 (k - p) * inject_Z (scaled_den b p) <= inject_Z (scaled_num a p))%Q.
Proof.
  intros Hb H. pose proof (inject_Z_pos b Hb) as Hbq.
  pose proof (inject_Z_pos _ (scaled_den_pos b p Hb)) as HB.
  pose proof (pow2_pos (- p)) as Hp.
  apply (Qmult_le_cancel_r _ _ (inject_Z b) Hbq).
  rewrite scaled_eq.
  replace (k - p) with (k + - p) by lia. rewrite pow2_add.
  setoid_replace (pow2 k * pow2 (- p) * inject_Z (scaled_den b p) * inject_Z b)%Q
    with ((pow2 k * inject_Z b) * (inject_Z (scaled_den b p) * pow2 (- p)))%Q using relation Qeq by ring.
  setoid_replace (inject_Z a * inject_Z (scaled_den b p) * pow2 (- p))%Q
    with (inject_Z a * (inject_Z (scaled_den b p) * pow2 (- p)))%Q using relation Qeq by ring.
  apply Qmult_le_r; [|exact H].
  apply Qmult_lt_0_compat; assumption.
Qed.

Lemma scaled_le a b p k :
  0 < b ->
  (inject_Z a <= pow2 k * inject_Z b)%Q ->
  (inject_Z (scaled_num a p) <= pow2 (k - p) * inject_Z (scaled_den b p))%Q.
Proof.
  intros Hb H. pose proof (inject_Z_pos b Hb) as Hbq.
  pose proof (inject_Z_pos _ (scaled_den_pos b p Hb)) as HB.
  pose proof (pow2_pos (- p)) as Hp.
  apply (Qmult_le_cancel_r _ _ (inject_Z b) Hbq).
  rewrite scaled_eq.
  replace (k - p) with (k + - p) by lia. rewrite pow2_add.
  setoid_replace (pow2 k * pow2 (- p) * inject_Z (scaled_den b p) * inject_Z b)%Q
    with ((pow2 k * inject_Z b) * (inject_Z (scaled_den b p) * pow2 (- p)))%Q using relation Qeq by ring.
  setoid_replace (inject_Z a * inject_Z (scaled_den b p) * pow2 (- p))%Q
    with (inject_Z a * (inject_Z (scaled_den b p) * pow2 (- p)))%Q using relation Qeq by ring.
  apply Qmult_le_r; [|exact H].
  apply Qmult_lt_0_compat; assumption.
Qed.

Lemma value_le_mant x y :
  expo x = expo y -> mant x <= mant y -> (value x <= value y)%Q.
Proof.
  intros He Hm. unfold value. rewrite He.
  apply Qmult_le_r; [apply pow2_pos|]. rewrite <- Zle_Qle. exact Hm.
Qed.

Lemma round_fraction_lower a b :
  0 < a -> 0 < b -> -1022 <= floor_log2 a b ->
  (pow2 (floor_log2 a b) <= value (round_fraction a b))%Q.
Proof.
  intros Ha Hb He. rewrite round_fraction_pos by exact Ha.
  pose proof (floor_log2_spec a b Ha Hb) as [Hlo _]. cbn zeta in Hlo.
  set (e := floor_log2 a b) in *.
  assert (Hp : exponent a b = e - 52) by (unfold exponent; fold e; lia).
  rewrite Hp. set (p := e - 52) in *.
  pose proof (scaled_den_pos b p Hb) as HB.
  apply (scaled_ge a b p e Hb) in Hlo.
  replace (e - p) with 52 in Hlo by (unfold p; lia).
  rewrite pow2_Z, <- inject_Z_mult, <- Zle_Qle in Hlo by lia.
  pose proof (round_half_even_ge _ _ _ HB Hlo) as Hn.
  unfold value. cbn [mant expo].
  assert (E : (pow2 e == inject_Z (2 ^ 52) * pow2 p)%Q).
  { rewrite <- (pow2_Z 52), <- pow2_add by lia.
    replace (52 + p) with e by (unfold p; lia). reflexivity. }
  rewrite E. apply Qmult_le_r; [apply pow2_pos|].
  rewrite <- Zle_Qle. exact Hn.
Qed.

Lemma round_fraction_upper a b :
  0 < a -> 0 < b ->
  (value (round_fraction a b) <= pow2 (Z.max (floor_log2 a b) (-1022) + 1))%Q.
Proof.
  intros Ha Hb. rewrite round_fraction_pos by exact Ha.
  pose proof (floor_log2_spec a b Ha Hb) as [_ Hhi]. cbn zeta in Hhi.
  unfold exponent.
  set (e := floor_log2 a b) in *. set (m := Z.max e (-1022)).
  set (p := m - 52).
  pose proof (scaled_den_pos b p Hb) as HB.
  assert (Hle : (inject_Z a <= pow2 (m + 1) * inject_Z b)%Q).
  { apply Qlt_le_weak. eapply Qlt_le_trans; [exact Hhi|].
    apply Qmult_le_r; [apply inject_Z_pos, Hb|]. apply pow2_le. unfold m. lia. }
  apply (scaled_le a b p (m + 1) Hb) in Hle.
  replace (m + 1 - p) with 53 in Hle by (unfold p; lia).
  rewrite pow2_Z, <- inject_Z_mult, <- Zle_Qle in Hle by lia.
  pose proof (round_half_even_le _ _ _ HB Hle) as Hn.
  unfold value. cbn [mant expo].
  assert (E : (pow2 (m + 1) == inject_Z (2 ^ 53) * pow2 p)%Q).
  { rewrite <- (pow2_Z 53), <- pow2_add by lia.
    replace (53 + p) with (m + 1) by (unfold p; lia). reflexivity. }
  rewrite E. apply Qmult_le_r; [apply pow2_pos|].
  rewrite <- Zle_Qle. exact Hn.
Qed.

Lemma round_fraction_nonneg a b :
  0 <= a -> 0 < b -> 0 <= mant (round_fraction a b).
Proof.
  intros Ha Hb. destruct (Z.eq_dec a 0) as [->|Hne]; [cbn; lia|].
  rewrite round_fraction_pos by lia. cbn [mant].
  apply round_half_even_ge; [apply scaled_den_pos, Hb|].
  cbn. apply scaled_num_nonneg. lia.
Qed.

Lemma value_nonneg x : 0 <= mant x -> (0 <= value x)%Q.
Proof.
  intros H. unfold value. apply Qmult_le_0_compat.
  - apply inject_Z_nonneg, H.
  - apply Qlt_le_weak, pow2_pos.
Qed.

Lemma floor_log2_mono a b a' b' :
  0 < a -> 0 < b -> 0 < a' -> 0 < b' -> a * b' <= a' * b ->
  floor_log2 a b <= floor_log2 a' b'.
Proof.
  intros Ha Hb Ha' Hb' H.
  pose proof (floor_log2_spec a b Ha Hb) as [Hlo _].
  pose proof (floor_log2_spec a' b' Ha' Hb') as [_ Hhi]. cbn zeta in *.
  set (e := floor_log2 a b) in *. set (e' := floor_log2 a' b') in *.
  pose proof (inject_Z_pos b Hb) as Hbq.
  pose proof (inject_Z_pos b' Hb') as Hbq'.
  rewrite Zle_Qle, !inject_Z_mult in H.
  assert (Hlt : (pow2 e * (inject_Z b * inject_Z b')
                 < pow2 (e' + 1) * (inject_Z b * inject_Z b'))%Q).
  { apply Qle_lt_trans with (inject_Z a * inject_Z b')%Q.
    - setoid_replace (pow2 e * (inject_Z b * inject_Z b'))%Q
        with ((pow2 e * inject_Z b) * inject_Z b')%Q using relation Qeq by ring.
      apply Qmult_le_r; assumption.
    - eapply Qle_lt_trans; [exact H|].
      setoid_replace (pow2 (e' + 1) * (inject_Z b * inject_Z b'))%Q
        with ((pow2 (e' + 1) * inject_Z b') * inject_Z b)%Q using relation Qeq by ring.
      apply Qmult_lt_r; assumption. }
  apply Qmult_lt_cancel_r in Hlt; [|apply Qmult_lt_0_compat; assumption].
  apply pow2_lt_inv in Hlt. lia.
Qed.

(** Rounding is monotone. *)
Lemma round_fraction_mono a b a' b' :
  0 <= a -> 0 < b -> 0 <= a' -> 0 < b' -> a * b' <= a' * b ->
  (value (round_fraction a b) <= value (round_fraction a' b'))%Q.
Proof.
  intros Ha Hb Ha' Hb' H.
  destruct (Z.eq_dec a 0) as [->|Hne].
  { change (value (round_fraction 0 b)) with (0 * pow2 0)%Q.
    rewrite Qmult_0_l. apply value_nonneg, round_fraction_nonneg; assumption. }
  assert (Hap : 0 < a) by lia.
  assert (Hap' : 0 < a') by nia.
  pose proof (floor_log2_mono a b a' b' Hap Hb Hap' Hb' H) as He.
  destruct (Z.eq_dec (exponent a b) (exponent a' b')) as [Hp|Hp].
  - rewrite (round_fraction_pos a b), (round_fraction_pos a' b') by assumption.
    apply value_le_mant; [exact Hp|]. cbn [mant]. rewrite <- Hp.
    apply round_half_even_mono; try apply scaled_den_pos; try assumption.
    apply scaled_mono; assumption.
  - unfold exponent in Hp.
    eapply Qle_trans; [apply round_fraction_upper; assumption|].
    eapply Qle_trans; [|apply round_fraction_lower; try assumption; lia].
    apply pow2_le. lia.
Qed.

(** ** Addition *)

Lemma sum_den_pos x y : 0 < sum_den x y.
Proof.
  unfold sum_den. destruct (Z.leb_spec 0 (Z.min (expo x) (expo y))); [lia|].
  apply Z.pow_pos_nonneg; lia.
Qed.

Lemma sum_num_nonneg x y : 0 <= mant x -> 0 <= mant y -> 0 <= sum_num x y.
Proof.
  intros Hx Hy. unfold sum_num.
  set (m := Z.min (expo x) (expo y)).
  assert (0 <= 2 ^ (expo x - m)) by (apply Z.pow_nonneg; lia).
  assert (0 <= 2 ^ (expo y - m)) by (apply Z.pow_nonneg; lia).
  destruct (Z.leb_spec 0 m); [|nia].
  assert (0 <= 2 ^ m) by (apply Z.pow_nonneg; lia). nia.
Qed.

Lemma shifted_value n e m :
  m <= e -> (inject_Z (n * 2 ^ (e - m)) == inject_Z n * pow2 e * pow2 (- m))%Q.
Proof.
  intros H. rewrite inject_Z_mult, <- pow2_Z by lia.
  replace (e - m) with (e + - m) by lia. rewrite pow2_add. ring.
Qed.

(** The fraction rounded by [float_add] is the exact sum. *)
Lemma sum_eq x y :
  (inject_Z (sum_num x y) == (value x + value y) * inject_Z (sum_den x y))%Q.
Proof.
  unfold sum_num, sum_den, value.
  set (m := Z.min (expo x) (expo y)).
  assert (Hn : (inject_Z (mant x * 2 ^ (expo x - m) + mant y * 2 ^ (expo y - m))
                == (inject_Z (mant x) * pow2 (expo x)
                    + inject_Z (mant y) * pow2 (expo y)) * pow2 (- m))%Q).
  { rewrite inject_Z_plus, !shifted_value by (unfold m; lia). ring. }
  destruct (Z.leb_spec 0 m) as [Hm|Hm].
  - rewrite inject_Z_mult, Hn, <- pow2_Z by exact Hm.
    pose proof (pow2_neg m) as E.
    set (s := (inject_Z (mant x) * pow2 (expo x)
               + inject_Z (mant y) * pow2 (expo y))%Q).
    setoid_replace (s * pow2 (- m) * pow2 m)%Q
      with (s * (pow2 m * pow2 (- m)))%Q using relation Qeq by ring.
    rewrite E. change (inject_Z 1) with 1%Q. ring.
  - rewrite Hn, <- pow2_Z by lia. reflexivity.
Qed.

Lemma float_add_mono x y y' :
  0 <= mant x -> 0 <= mant y -> 0 <= mant y' ->
  (value y <= value y')%Q ->
  (value (float_add x y) <= value (float_add x y'))%Q.
Proof.
  intros Hx Hy Hy' H. unfold float_add.
  pose proof (sum_den_pos x y) as Hd. pose proof (sum_den_pos x y') as Hd'.
  apply round_fraction_mono; try assumption; try apply sum_num_nonneg;
    try assumption.
  rewrite Zle_Qle, !inject_Z_mult, !sum_eq.
  pose proof (inject_Z_pos _ Hd) as Hq. pose proof (inject_Z_pos _ Hd') as Hq'.
  setoid_replace ((value x + value y) * inject_Z (sum_den x y)
                  * inject_Z (sum_den x y'))%Q
    with ((value x + value y) * (inject_Z (sum_den x y)
                                 * inject_Z (sum_den x y')))%Q using relation Qeq by ring.
  setoid_replace ((value x + value y') * inject_Z (sum_den x y')
                  * inject_Z (sum_den x y))%Q
    with ((value x + value y') * (inject_Z (sum_den x y)
                                  * inject_Z (sum_den x y')))%Q using relation Qeq by ring.
  apply Qmult_le_r; [apply Qmult_lt_0_compat; assumption|].
  apply Qplus_le_r. exact H.
Qed.

Lemma float_add_nonneg x y :
  0 <= mant x -> 0 <= mant y -> 0 <= mant (float_add x y).
Proof.
  intros Hx Hy. apply round_fraction_nonneg;
    [apply sum_num_nonneg; assumption|apply sum_den_pos].
Qed.

(** ** Truncation *)

Lemma py_int_spec x :
  0 <= mant x ->
  (inject_Z (py_int x) <= value x < inject_Z (py_int x + 1))%Q.
Proof.
  intros Hm. unfold py_int, value.
  destruct (Z.leb_spec 0 (expo x)) as [He|He].
  - rewrite pow2_Z by exact He. rewrite <- inject_Z_mult, <- Zle_Qle, <- Zlt_Qlt.
    lia.
  - set (d := 2 ^ (- expo x)).
    assert (Hd : 0 < d) by (apply Z.pow_pos_nonneg; lia).
    rewrite Z.quot_div_nonneg by lia.
    pose proof (Z.div_mod (mant x) d ltac:(lia)) as Hdm.
    pose proof (Z.mod_pos_bound (mant x) d Hd) as Hb.
    set (q := mant x / d) in *.
    pose proof (inject_Z_pos d Hd) as Hq.
    assert (E : (inject_Z (mant x)
                 == inject_Z (mant x) * pow2 (expo x) * inject_Z d)%Q).
    { unfold d. rewrite <- pow2_Z by lia. pose proof (pow2_neg (expo x)) as En.
      setoid_replace (inject_Z (mant x) * pow2 (expo x) * pow2 (- expo x))%Q
        with (inject_Z (mant x) * (pow2 (expo x) * pow2 (- expo x)))%Q using relation Qeq by ring.
      rewrite En. ring. }
    split.
    + apply (Qmult_le_cancel_r _ _ (inject_Z d) Hq).
      rewrite <- E, <- inject_Z_mult, <- Zle_Qle. nia.
    + apply (Qmult_lt_cancel_r _ _ (inject_Z d) Hq).
      rewrite <- E, <- inject_Z_mult, <- Zlt_Qlt. nia.
Qed.

Lemma py_int_mono x y :
  0 <= mant x -> 0 <= mant y -> (value x <= value y)%Q ->
  py_int x <= py_int y.
Proof.
  intros Hx Hy H.
  pose proof (py_int_spec x Hx) as [H1 _].
  pose proof (py_int_spec y Hy) as [_ H2].
  assert (Hlt : (inject_Z (py_int x) < inject_Z (py_int y + 1))%Q).
  { eapply Qle_lt_trans; [exact H1|]. eapply Qle_lt_trans; [exact H|exact H2]. }
  rewrite <- Zlt_Qlt in Hlt. lia.
Qed.

(** ** The display size *)

Lemma int_true_div_pos a b : 0 < b -> int_true_div a b = round_fraction a b.
Proof.
  intros Hb. unfold int_true_div. destruct (Z.ltb_spec 0 b); [reflexivity|lia].
Qed.

Lemma size_of_mono a b a' b' :
  0 <= a -> 0 < b -> 0 <= a' -> 0 < b' -> a * b' <= a' * b ->
  size_of a b <= size_of a' b'.
Proof.
  intros Ha Hb Ha' Hb' H. unfold size_of.
  rewrite !int_true_div_pos by assumption.
  assert (H10 : 0 <= mant (float_of_int 10)) by (vm_compute; discriminate).
  apply py_int_mono.
  - apply float_add_nonneg; [exact H10|apply round_fraction_nonneg; assumption].
  - apply float_add_nonneg; [exact H10|apply round_fraction_nonneg; assumption].
  - apply float_add_mono; try (apply round_fraction_nonneg; assumption);
      [exact H10|].
    apply round_fraction_mono; assumption.
Qed.

Lemma forallb_range (P : Z -> bool) (n : nat) :
  forallb P (map Z.of_nat (seq 0 n)) = true ->
  forall k, 0 <= k < Z.of_nat n -> P k = true.
Proof.
  intros H k Hk. rewrite forallb_forall in H. apply H.
  apply in_map_iff. exists (Z.to_nat k). split; [lia|].
  apply in_seq. lia.
Qed.

(** The sizes of the whole numbers from 0 to 90, and of the numbers just
    below them, computed. *)
Lemma size_of_whole k : 0 <= k <= 90 -> size_of k 1 = 10 + k.
Proof.
  intros Hk.
  apply Z.eqb_eq.
  apply (forallb_range (fun k => size_of k 1 =? 10 + k) 91); [|lia].
  vm_compute. reflexivity.
Qed.

Lemma size_of_below k :
  0 <= k <= 89 -> size_of ((k + 1) * 2 ^ 46 - 1) (2 ^ 46) = 10 + k.
Proof.
  intros Hk.
  apply Z.eqb_eq.
  apply (forallb_range
           (fun k => size_of ((k + 1) * 2 ^ 46 - 1) (2 ^ 46) =? 10 + k) 90);
    [|lia].
  vm_compute. reflexivity.
Qed.

Lemma size_of_floor a b :
  0 < b -> 0 <= a <= 90 * b -> 10 + a / b <= size_of a b.
Proof.
  intros Hb Ha.
  assert (Hq : 0 <= a / b <= 90).
  { split; [apply Z.div_pos; lia|apply Z.div_le_upper_bound; lia]. }
  rewrite <- (size_of_whole (a / b)) by exact Hq.
  pose proof (Z.mul_div_le a b Hb).
  apply size_of_mono; first [lia|nia].
Qed.

Lemma size_of_ceil a b :
  0 < b -> 0 <= a <= 90 * b ->
  size_of a b <= 10 + a / b + (if a mod b =? 0 then 0 else 1).
Proof.
  intros Hb Ha.
  assert (Hq : 0 <= a / b <= 90).
  { split; [apply Z.div_pos; lia|apply Z.div_le_upper_bound; lia]. }
  pose proof (Z.div_mod a b ltac:(lia)) as Hdm.
  pose proof (Z.mod_pos_bound a b Hb) as Hm.
  destruct (Z.eqb_spec (a mod b) 0) as [E|E].
  - rewrite Z.add_0_r, <- (size_of_whole (a / b)) by exact Hq.
    apply size_of_mono; lia.
  - assert (Hq' : 0 <= a / b + 1 <= 90) by nia.
    replace (10 + a / b + 1) with (10 + (a / b + 1)) by lia.
    rewrite <- (size_of_whole (a / b + 1)) by exact Hq'.
    apply size_of_mono; first [lia|nia].
Qed.

Lemma size_of_exact a b :
  0 < b -> 0 <= a <= 90 * b -> (a mod b = 0 \/ b <= 2 ^ 46) ->
  size_of a b = 10 + a / b.
Proof.
  intros Hb Ha Hc.
  pose proof (size_of_floor a b Hb Ha) as Hlo.
  pose proof (size_of_ceil a b Hb Ha) as Hhi.
  destruct (Z.eqb_spec (a mod b) 0) as [E|E]; [lia|].
  destruct Hc as [Hc|Hc]; [contradiction|].
  assert (Hq : 0 <= a / b <= 90).
  { split; [apply Z.div_pos; lia|apply Z.div_le_upper_bound; lia]. }
  pose proof (Z.div_mod a b ltac:(lia)) as Hdm.
  pose proof (Z.mod_pos_bound a b Hb) as Hm.
  assert (Hq' : 0 <= a / b <= 89) by nia.
  apply Z.le_antisymm; [|exact Hlo].
  rewrite <- (size_of_below (a / b)) by exact Hq'.
  assert (0 < 2 ^ 46) by lia.
  apply size_of_mono; first [lia|nia].
Qed.

End FloatFacts.

(* ===================================================================== *)
(** * Facts about the word cloud *)
(* ===================================================================== *)

Module WordCloudFacts.
Import Json Float FloatFacts WordCloud.

Lemma insert_desc_perm x l : Permutation (insert_desc x l) (x :: l).
Proof.
  induction l as [|y l IH]; cbn; auto.
  destruct (snd y <=? snd x); auto.
  rewrite IH. apply perm_swap.
Qed.

Lemma sorted_desc_perm l : Permutation (sorted_desc l) l.
Proof.
  induction l as [|x l IH]; cbn; auto.
  rewrite insert_desc_perm. auto.
Qed.

Lemma insert_desc_sorted x l :
  StronglySorted desc l -> StronglySorted desc (insert_desc x l).
Proof.
  induction 1 as [|y l Hs IH Hy]; cbn.
  - repeat constructor.
  - destruct (Z.leb_spec (snd y) (snd x)) as [Hle|Hlt].
    + constructor; [constructor; auto|].
      constructor; [exact Hle|].
      eapply List.Forall_impl; [|exact Hy]. unfold desc. intros z Hz. cbn in *. lia.
    + constructor; auto.
      rewrite insert_desc_perm. constructor; auto. unfold desc. lia.
Qed.

Lemma sorted_desc_sorted l : StronglySorted desc (sorted_desc l).
Proof.
  induction l as [|x l IH]; cbn; [constructor|].
  apply insert_desc_sorted, IH.
Qed.

Lemma in_firstn {A} n : forall (l : list A) x, In x (firstn n l) -> In x l.
Proof.
  induction n as [|n IH]; intros [|y l] x; cbn; auto; try tauto.
  intros [->|H]; auto.
Qed.

Lemma firstn_sorted n : forall l,
  StronglySorted desc l -> StronglySorted desc (firstn n l).
Proof.
  induction n as [|n IH]; intros l Hs; cbn; [constructor|].
  destruct Hs as [|x l Hs Hx]; cbn; constructor; auto.
  apply List.Forall_forall. intros y Hy. rewrite List.Forall_forall in Hx.
  apply Hx. eapply in_firstn; eauto.
Qed.

Lemma top_words_sorted wf : StronglySorted desc (top_words wf).
Proof. apply firstn_sorted, sorted_desc_sorted. Qed.

(** In a descending list the first frequency is the largest and the last
    one the smallest. *)
Lemma sorted_first_last l :
  StronglySorted desc l ->
  forall x, In x l -> last_freq l <= snd x <= first_freq l.
Proof.
  unfold first_freq, last_freq.
  induction 1 as [|y l Hs IH Hy]; intros x Hx; [destruct Hx|].
  rewrite List.Forall_forall in Hy. cbn [hd].
  destruct l as [|z l].
  - destruct Hx as [->|[]]. cbn. lia.
  - change (List.last (y :: z :: l) ("", 0)) with (List.last (z :: l) ("", 0)).
    destruct Hx as [->|Hx].
    + split; [|lia].
      assert (Hin : In (List.last (z :: l) ("", 0)) (z :: l)).
      { clear. revert z. induction l as [|a l IH]; intros z; [left; reflexivity|].
        right. apply (IH a). }
      apply Hy in Hin. exact Hin.
    + split; [apply (IH x Hx)|]. apply Hy in Hx. exact Hx.
Qed.

Lemma size_normalized f m r :
  py_int (normalized_size f m r) = size_of (90 * (f - m)) r.
Proof. reflexivity. Qed.

(** The size is the exact quotient cut to an integer when the division
    leaves no remainder, and whenever the divisor is at most [2 ^ 46]. *)
Lemma py_int_normalized f m r :
  0 < r -> m <= f -> f - m <= r ->
  (90 * (f - m)) mod r = 0 \/ r <= 2 ^ 46 ->
  py_int (normalized_size f m r) = 10 + 90 * (f - m) / r.
Proof.
  intros Hr Hf Hd Hc. rewrite size_normalized.
  apply size_of_exact; [exact Hr|lia|exact Hc].
Qed.

Lemma freq_range_pos l :
  StronglySorted desc l -> 0 < freq_range l.
Proof.
  intros Hs. unfold freq_range.
  destruct (Z.eqb_spec (first_freq l) (last_freq l)) as [|Hne]; cbn; [lia|].
  destruct l as [|x l]; [exfalso; apply Hne; reflexivity|].
  pose proof (sorted_first_last _ Hs x (or_introl eq_refl)) as Hx.
  assert (Hlast : In (List.last (x :: l) ("", 0)) (x :: l)).
  { clear. revert x. induction l as [|a l IH]; intros x; [left; reflexivity|].
    right. apply (IH a). }
  pose proof (sorted_first_last _ Hs _ Hlast) as Hl.
  unfold last_freq in *. lia.
Qed.

Lemma freq_range_eq l :
  freq_range l =
  if first_freq l =? last_freq l then 1 else first_freq l - last_freq l.
Proof. unfold freq_range. destruct (_ =? _); reflexivity. Qed.

Lemma freq_range_bound l f :
  last_freq l <= f <= first_freq l -> f - last_freq l <= freq_range l.
Proof.
  intros Hf. rewrite freq_range_eq.
  destruct (Z.eqb_spec (first_freq l) (last_freq l)); lia.
Qed.

(** The size of an entry of frequency [f] between the last and the first
    frequency of the displayed words. *)
Lemma size_bounds l f :
  StronglySorted desc l ->
  last_freq l <= f <= first_freq l ->
  10 <= py_int (normalized_size f (last_freq l) (freq_range l)) <= 100.
Proof.
  intros Hs Hf. pose proof (freq_range_pos l Hs) as Hr.
  pose proof (freq_range_bound l f Hf) as Hd.
  rewrite size_normalized.
  change 10 with (10 + 0) at 1. change 100 with (10 + 90).
  rewrite <- (size_of_whole 0), <- (size_of_whole 90) by lia.
  split; apply size_of_mono; lia.
Qed.

Lemma cloud_entries_spec top m r p : forall i k e,
  nth_error (cloud_entries i top m r p) k = Some e ->
  exists w f, nth_error top k = Some (w, f) /\
    text e = w /\ frequency e = f /\
    size e = py_int (normalized_size f m r) /\
    color e = color_at p (i + k).
Proof.
  induction top as [|[w f] top IH]; intros i k e; cbn.
  - destruct k; discriminate.
  - destruct k as [|k]; cbn.
    + intros [= <-]. exists w, f. cbn. rewrite Nat.add_0_r. auto.
    + intros H. apply IH in H as (w' & f' & H1 & H2 & H3 & H4 & H5).
      exists w', f'. repeat split; auto. rewrite H5. f_equal. lia.
Qed.

Lemma cloud_entries_length top m r p : forall i,
  List.length (cloud_entries i top m r p) = List.length top.
Proof.
  induction top as [|[w f] top IH]; intros i; cbn; auto.
Qed.

Lemma last_in {A} (x : A) l d : In (List.last (x :: l) d) (x :: l).
Proof.
  revert x. induction l as [|a l IH]; intros x; [left; reflexivity|].
  right. apply (IH a).
Qed.

Lemma nth_error_map_entry top m r p : forall i,
  map (fun e => (text e, frequency e)) (cloud_entries i top m r p) = top.
Proof.
  induction top as [|[w f] top IH]; intros i; cbn; [reflexivity|].
  rewrite IH. reflexivity.
Qed.

Lemma word_cloud_data_entries word_freq palette_name :
  word_cloud_data word_freq palette_name =
  cloud_entries 0 (top_words word_freq) (last_freq (top_words word_freq))
    (freq_range (top_words word_freq)) (selected_palette palette_name).
Proof.
  unfold word_cloud_data. destruct (top_words word_freq); reflexivity.
Qed.

Lemma response_words_data category word_freq palette_name :
  response_words (get_word_cloud_data category word_freq palette_name) =
  word_cloud_data word_freq palette_name.
Proof.
  unfold get_word_cloud_data. destruct word_freq; reflexivity.
Qed.

Lemma entry_in_top top m r p i e :
  In e (cloud_entries i top m r p) ->
  exists w f, In (w, f) top /\ frequency e = f /\
    size e = py_int (normalized_size f m r).
Proof.
  intros Hin. apply In_nth_error in Hin as [k Hk].
  apply cloud_entries_spec in Hk as (w & f & H1 & H2 & H3 & H4 & _).
  exists w, f. repeat split; auto. eapply nth_error_In; eauto.
Qed.

(** C10. In every word-cloud response each entry's size is an integer
    between 10 and 100 inclusive; when all displayed words share one
    frequency (the maximum equals the minimum) the divisor is 1 and every
    entry's size is exactly 10. *)
Theorem word_cloud_size_range category word_freq palette_name :
  let words :=
    response_words (get_word_cloud_data category word_freq palette_name) in
  let top := top_words word_freq in
  Forall (fun e => 10 <= size e <= 100) words /\
  (first_freq top = last_freq top ->
   freq_range top = 1 /\ Forall (fun e => size e = 10) words).
Proof.
  cbn zeta. rewrite response_words_data, word_cloud_data_entries.
  pose proof (top_words_sorted word_freq) as Hs.
  split.
  - apply List.Forall_forall. intros e He.
    apply entry_in_top in He as (w & f & Hin & Hf & ->).
    apply size_bounds; auto.
    apply (sorted_first_last _ Hs _ Hin).
  - intros Heq.
    assert (Hr : freq_range (top_words word_freq) = 1).
    { unfold freq_range. rewrite Heq, Z.eqb_refl. reflexivity. }
    split; [exact Hr|].
    apply List.Forall_forall. intros e He.
    apply entry_in_top in He as (w & f & Hin & Hf & ->).
    pose proof (sorted_first_last _ Hs _ Hin) as Hb. cbn [snd] in Hb.
    rewrite Hr, size_normalized.
    replace (f - last_freq (top_words word_freq)) with 0 by lia.
    reflexivity.
Qed.

(** A table whose two words share the frequency 5: both sizes are 10. *)
Lemma word_cloud_size_range_witness :
  let word_freq := [("alpha", 5); ("beta", 5)] in
  first_freq (top_words word_freq) = last_freq (top_words word_freq) /\
  freq_range (top_words word_freq) = 1 /\
  Forall (fun e => size e = 10)
    (response_words (get_word_cloud_data "Greek" word_freq "rgb")).
Proof.
  cbn zeta. split; [reflexivity|].
  apply (proj2 (word_cloud_size_range "Greek"
                  [("alpha", 5); ("beta", 5)] "rgb")).
  reflexivity.
Defined.

Lemma selected_palette_colors palette_name :
  colors (selected_palette palette_name) =
  if String.eqb palette_name "bright" then
    ["#ff69b4"; "#ffb31a"; "#ffff00"; "#33cc33"; "#0099cc"; "#6600cc"]
  else if String.eqb palette_name "dark" then
    ["#333333"; "#666666"; "#999999"; "#cccccc"; "#b3b3b3"; "#e6e6e6"]
  else if String.eqb palette_name "neutral" then
    ["#f5f5f5"; "#e5e5e5"; "#d3d3d3"; "#bdbdbd"; "#9c9c9c"; "#808080"]
  else if String.eqb palette_name "rgb" then
    ["#ff0000"; "#00ff00"; "#0000ff"; "#ffff00"; "#ff00ff"; "#00ffff"]
  else
    ["#ffe6e6"; "#ffd7be"; "#ffffb3"; "#c9e4ca"; "#b2bec3"; "#eaebef"].
Proof.
  unfold selected_palette, get_all_color_palettes. cbn [assoc].
  destruct (String.eqb_spec palette_name "pastel") as [->|_]; [reflexivity|].
  repeat (destruct (String.eqb palette_name _); [reflexivity|]).
  reflexivity.
Qed.

(** C8. For a non-empty table and any palette name the route answers with
    the first 100 entries at most of the table sorted by descending
    frequency.  An entry's size is [int(10 + 90 * (freq - min_freq) /
    freq_range)] computed in floating point: the linear image of its
    frequency, the least displayed frequency going to 10 and the greatest
    to 100, cut to an integer.  The size grows with the frequency; it is
    the exact quotient cut to an integer when the frequency range is at
    most [2 ^ 46], and in general it lies between the exact quotient
    rounded down and rounded up.  The entry's color is the one at its rank
    modulo 6 in the list of six colors of the palette named, the pastel
    list for a name that is no palette. *)
Theorem word_cloud_top_100 category word_freq palette_name :
  (0 < List.length word_freq)%nat ->
  let top := top_words word_freq in
  let min_freq := last_freq top in
  let max_freq := first_freq top in
  let range := if max_freq =? min_freq then 1 else max_freq - min_freq in
  let palette_colors :=
    if String.eqb palette_name "bright" then
      ["#ff69b4"; "#ffb31a"; "#ffff00"; "#33cc33"; "#0099cc"; "#6600cc"]
    else if String.eqb palette_name "dark" then
      ["#333333"; "#666666"; "#999999"; "#cccccc"; "#b3b3b3"; "#e6e6e6"]
    else if String.eqb palette_name "neutral" then
      ["#f5f5f5"; "#e5e5e5"; "#d3d3d3"; "#bdbdbd"; "#9c9c9c"; "#808080"]
    else if String.eqb palette_name "rgb" then
      ["#ff0000"; "#00ff00"; "#0000ff"; "#ffff00"; "#ff00ff"; "#00ffff"]
    else
      ["#ffe6e6"; "#ffd7be"; "#ffffb3"; "#c9e4ca"; "#b2bec3"; "#eaebef"] in
  exists words,
    get_word_cloud_data category word_freq palette_name =
      WordCloudData category words (List.length word_freq) (List.length words) /\
    List.length words = Nat.min 100 (List.length word_freq) /\
    map (fun e => (text e, frequency e)) words = firstn 100 (sorted_desc word_freq) /\
    Permutation (sorted_desc word_freq) word_freq /\
    StronglySorted desc (sorted_desc word_freq) /\
    (forall e, In e words -> min_freq <= frequency e <= max_freq) /\
    (forall i e, nth_error words i = Some e ->
       let x := 90 * (frequency e - min_freq) in
       size e = py_int (float_add (float_of_int 10) (int_true_div x range)) /\
       0 < range /\ 0 <= x <= 90 * range /\
       10 + x / range <= size e
         <= 10 + x / range + (if x mod range =? 0 then 0 else 1) /\
       (range <= 2 ^ 46 -> size e = 10 + x / range) /\
       color e = nth (i mod 6) palette_colors "") /\
    (forall e, In e words -> frequency e = min_freq -> size e = 10) /\
    (forall e, In e words -> frequency e = max_freq -> max_freq <> min_freq ->
       size e = 100) /\
    (forall e1 e2, In e1 words -> In e2 words ->
       frequency e1 <= frequency e2 -> size e1 <= size e2).
Proof.
  intros Hne. cbn zeta.
  pose proof (top_words_sorted word_freq) as Hs.
  pose proof (freq_range_pos _ Hs) as Hr.
  rewrite <- (freq_range_eq (top_words word_freq)).
  exists (word_cloud_data word_freq palette_name).
  assert (Hbounds : forall e, In e (word_cloud_data word_freq palette_name) ->
            last_freq (top_words word_freq) <= frequency e
              <= first_freq (top_words word_freq) /\
            size e = size_of (90 * (frequency e - last_freq (top_words word_freq)))
                       (freq_range (top_words word_freq))).
  { intros e He. rewrite word_cloud_data_entries in He.
    apply entry_in_top in He as (w & f & Hin & Hf & ->).
    pose proof (sorted_first_last _ Hs _ Hin) as Hb. cbn [snd] in Hb.
    rewrite Hf. split; [exact Hb|]. apply size_normalized. }
  assert (Hx : forall e, In e (word_cloud_data word_freq palette_name) ->
            0 <= 90 * (frequency e - last_freq (top_words word_freq))
              <= 90 * freq_range (top_words word_freq)).
  { intros e He. destruct (Hbounds e He) as [Hb _].
    pose proof (freq_range_bound _ _ Hb). lia. }
  split; [|split; [|split; [|split; [|split; [|split; [|split; [|split; [|split]]]]]]]].
  - unfold get_word_cloud_data.
    destruct word_freq; [cbn in Hne; lia|reflexivity].
  - rewrite word_cloud_data_entries, cloud_entries_length.
    unfold top_words. rewrite length_firstn.
    rewrite (Permutation_length (sorted_desc_perm word_freq)). reflexivity.
  - rewrite word_cloud_data_entries. apply nth_error_map_entry.
  - apply sorted_desc_perm.
  - apply sorted_desc_sorted.
  - intros e He. apply (Hbounds e He).
  - intros i e Hi.
    assert (He : In e (word_cloud_data word_freq palette_name))
      by (eapply nth_error_In; eauto).
    destruct (Hbounds e He) as [Hb Hsize]. specialize (Hx e He).
    split; [exact Hsize|]. split; [exact Hr|]. split; [exact Hx|].
    split; [|split].
    + rewrite Hsize. split; [apply size_of_floor|apply size_of_ceil]; assumption.
    + intros H46. rewrite Hsize. apply size_of_exact; auto.
    + rewrite word_cloud_data_entries in Hi.
      apply cloud_entries_spec in Hi as (w & f & _ & _ & _ & _ & ->).
      unfold color_at. rewrite selected_palette_colors. cbn [Nat.add].
      repeat (destruct (String.eqb palette_name _); [reflexivity|]).
      reflexivity.
  - intros e He Hf. destruct (Hbounds e He) as [_ ->].
    rewrite Hf, Z.sub_diag. rewrite size_of_exact; [reflexivity|exact Hr|lia|].
    left. apply Z.mod_0_l. lia.
  - intros e He Hf Hne'. destruct (Hbounds e He) as [_ ->].
    assert (E : freq_range (top_words word_freq) =
                first_freq (top_words word_freq)
                - last_freq (top_words word_freq)).
    { rewrite freq_range_eq.
      destruct (Z.eqb_spec (first_freq (top_words word_freq))
                  (last_freq (top_words word_freq)));
        [contradiction|reflexivity]. }
    rewrite Hf, E in *.
    rewrite size_of_exact; [|lia|lia|left; apply Z.mod_mul; lia].
    rewrite Z.div_mul by lia. reflexivity.
  - intros e1 e2 H1 H2 Hle.
    destruct (Hbounds e1 H1) as [Hb1 ->]. destruct (Hbounds e2 H2) as [_ ->].
    apply size_of_mono; try lia. nia.
Qed.

(** The table of the round-trip example, in the default palette. *)
Lemma word_cloud_top_100_witness :
  exists words,
    get_word_cloud_data "Greek" [("beta", 3); ("alpha", 5)] "pastel" =
      WordCloudData "Greek" words 2 (List.length words) /\
    map (fun e => (text e, size e, color e)) words =
      [("alpha", 100, "#ffe6e6"); ("beta", 10, "#ffd7be")].
Proof.
  destruct (word_cloud_top_100 "Greek" [("beta", 3); ("alpha", 5)] "pastel")
    as (words & Hw & _); [cbn; lia|].
  exists words. split; [exact Hw|].
  injection Hw as <-. vm_compute. reflexivity.
Defined.

(** With frequencies past [2 ^ 46] the rounding of the division shows: the
    exact image of the middle frequency is just below 51 and is cut to 50,
    the quotient computed in floating point is 41 and the size 51. *)
Lemma word_cloud_size_rounded :
  let m := 90 * 10 ^ 15 + 11 in
  let f := (41 * m - 1) / 90 in
  let word_freq := [("alpha", m + 1); ("beta", f + 1); ("gamma", 1)] in
  map size (response_words (get_word_cloud_data "Greek" word_freq "pastel")) =
    [100; 51; 10] /\
  10 + 90 * f / m = 50.
Proof. vm_compute. split; reflexivity. Qed.

End WordCloudFacts.

(* ===================================================================== *)
(** * Facts about the cache store *)
(* ===================================================================== *)

Module CacheFacts.
Import Json Analyzer Examples.

(** ** Validity *)

Lemma is_cache_valid_iff self cache_file w :
  _is_cache_valid self cache_file w = true <->
  exists f, fs w !! cache_file = Some f /\
            now w - mtime f < cache_expiry_days self * day.
Proof.
  unfold _is_cache_valid. destruct (fs w !! cache_file) as [f|].
  - rewrite Z.ltb_lt. split.
    + intros H. exists f. split; [reflexivity | lia].
    + intros (f' & [= <-] & H). lia.
  - split; [discriminate | intros (f & H & _); discriminate].
Qed.

(** ** Load and save *)

Lemma load_cache_missing cache_file w :
  fs w !! cache_file = None -> _load_cache cache_file w = Return (JObj []) w.
Proof. unfold _load_cache. intros ->. reflexivity. Qed.

Lemma load_cache_malformed cache_file w t :
  fs w !! cache_file = Some {| mtime := t; data := Malformed |} ->
  _load_cache cache_file w = Return (JObj []) w.
Proof. unfold _load_cache. intros ->. reflexivity. Qed.

Lemma load_cache_document cache_file w t v :
  fs w !! cache_file = Some {| mtime := t; data := Document v |} ->
  _load_cache cache_file w = Return v w.
Proof. unfold _load_cache. intros ->. reflexivity. Qed.

(** C5 fails on a cache file whose bytes are no UTF-8 text: the read
    raises [UnicodeDecodeError], which [_load_cache] does not catch. *)
Theorem load_cache_undecodable_raises :
  let w := one_file "cache/a.json" 0 Undecodable 1000000 in
  _load_cache "cache/a.json" w = Raise UnicodeDecodeError w.
Proof. reflexivity. Qed.

Lemma save_cache_writable cache_file doc w :
  writable w cache_file = true ->
  _save_cache cache_file doc w =
  Return tt (write_file cache_file (Document doc) w).
Proof.
  intros Hw. unfold _save_cache, open_w, json_dump. rewrite Hw.
  f_equal. unfold write_file, set_fs. cbn. f_equal.
  apply insert_insert_eq.
Qed.

Lemma save_cache_unwritable cache_file doc w :
  writable w cache_file = false ->
  _save_cache cache_file doc w = Return tt w.
Proof.
  intros Hw. unfold _save_cache, open_w. rewrite Hw. reflexivity.
Qed.

Lemma write_file_lookup cache_file c w :
  fs (write_file cache_file c w) !! cache_file =
  Some {| mtime := now w; data := c |}.
Proof. unfold write_file. cbn. apply lookup_insert_eq. Qed.

Lemma write_file_lookup_ne cache_file other c w :
  other <> cache_file ->
  fs (write_file cache_file c w) !! other = fs w !! other.
Proof. intros H. unfold write_file. cbn. apply lookup_insert_ne. congruence. Qed.

(** C6, as amended. A cache save opens the cache file itself for writing,
    which cuts it to length zero, and writes the JSON text in place: the
    file then holds the document, and no other path is written. A save
    interrupted after the open leaves no other path touched and the cache
    file empty or holding a proper prefix of the text, its former content
    lost; what is left is no document, and an empty text or one cut
    between two characters is loaded as a miss. *)
Theorem save_cache_in_place cache_file doc w :
  writable w cache_file = true ->
  (exists w',
     _save_cache cache_file doc w = Return tt w' /\
     fs w' = <[cache_file := {| mtime := now w; data := Document doc |}]> (fs w)) /\
  (forall stop, stop <> BeforeOpen ->
     let w' := interrupted_save cache_file doc stop w in
     (forall other, other <> cache_file -> fs w' !! other = fs w !! other) /\
     (exists c,
        fs w' !! cache_file = Some {| mtime := now w; data := c |} /\
        (forall v, c <> Document v)) /\
     (stop = AfterOpen \/ stop = InDump false ->
      _load_cache cache_file w' = Return (JObj []) w')).
Proof.
  intros Hw. split.
  - eexists. split; [apply save_cache_writable, Hw|]. reflexivity.
  - intros stop Hstop. cbn zeta.
    unfold interrupted_save, open_w. rewrite Hw.
    destruct stop as [| |inside_char]; [congruence| |].
    + split; [|split].
      * intros other Hne. apply write_file_lookup_ne, Hne.
      * exists Malformed. split; [apply write_file_lookup|discriminate].
      * intros _. eapply load_cache_malformed, write_file_lookup.
    + split; [|split].
      * intros other Hne. rewrite !write_file_lookup_ne by exact Hne. reflexivity.
      * exists (if inside_char then Undecodable else Malformed).
        split; [rewrite write_file_lookup; reflexivity
               |destruct inside_char; discriminate].
      * intros [H|H]; [discriminate|]. injection H as ->.
        eapply load_cache_malformed, write_file_lookup.
Qed.

(** A save over an older document, stopped right after the open. *)
Lemma save_cache_in_place_witness :
  let w := one_file "cache/a.json" 0 (Document (JObj [("pages", JList [])]))
             1000000 in
  writable w "cache/a.json" = true /\
  _load_cache "cache/a.json"
    (interrupted_save "cache/a.json" (JObj []) AfterOpen w) =
  Return (JObj [])
    (interrupted_save "cache/a.json" (JObj []) AfterOpen w).
Proof.
  cbn zeta. split; [reflexivity|].
  apply (proj2 (save_cache_in_place "cache/a.json" (JObj [])
                  (one_file "cache/a.json" 0
                     (Document (JObj [("pages", JList [])])) 1000000)
                  eq_refl) AfterOpen).
  - discriminate.
  - left. reflexivity.
Defined.

(** C6, as stated, fails: the save is not atomic. Stopped right after the
    open it leaves the cache file empty, neither the former document nor
    the new one. *)
Lemma save_cache_not_atomic :
  let old := JObj [("pages", JList [JStr "Owl"])] in
  let w := one_file "cache/a.json" 0 (Document old) 1000000 in
  fs (interrupted_save "cache/a.json" (JObj []) AfterOpen w) !! "cache/a.json"
    = Some {| mtime := 1000000; data := Malformed |} /\
  ~ save_is_atomic "cache/a.json" (JObj []) AfterOpen w.
Proof.
  cbn zeta. split; [vm_compute; reflexivity|].
  unfold save_is_atomic. vm_compute. intros [H|H]; discriminate H.
Qed.

Lemma table_of_pairs_table_json (t : table) :
  json_table (table_json t) = Some t.
Proof.
  unfold json_table, table_json.
  induction t as [|[k n] t IH]; cbn; [reflexivity|].
  rewrite IH. reflexivity.
Qed.

Section WithLibrary.
Context {lib : Library}.

(** C7. Saving an analysis document that holds a word-frequency table and
    loading the document again gives the same mapping: the same keys with
    the same integer counts. *)
Theorem save_load_word_frequencies cache_file category (t : table)
    analyzed_at processed_pages w :
  writable w cache_file = true ->
  exists w' doc word_frequencies,
    _save_cache cache_file
      (analysis_data category t analyzed_at processed_pages) w = Return tt w' /\
    _load_cache cache_file w' = Return doc w' /\
    py_get doc "word_frequencies" = Ok word_frequencies /\
    word_frequencies = table_json t /\
    json_table word_frequencies = Some t.
Proof.
  intros Hw.
  exists (write_file cache_file
            (Document (analysis_data category t analyzed_at processed_pages)) w),
    (analysis_data category t analyzed_at processed_pages), (table_json t).
  split; [apply save_cache_writable, Hw|].
  split; [eapply load_cache_document, write_file_lookup|].
  split; [reflexivity|].
  split; [reflexivity|apply table_of_pairs_table_json].
Qed.

End WithLibrary.

(** The table of the example: alpha 5 times, beta 3 times. *)
Lemma save_load_word_frequencies_witness :
  exists w' doc,
    _save_cache "cache/Greek_d41d8cd9_analysis.json"
      (analysis_data (lib := plain_library) "Greek"
         [("alpha", 5); ("beta", 3)] 0 1) empty_world = Return tt w' /\
    _load_cache "cache/Greek_d41d8cd9_analysis.json" w' = Return doc w' /\
    py_get doc "word_frequencies" =
      Ok (JObj [("alpha", JInt 5); ("beta", JInt 3)]).
Proof.
  destruct (save_load_word_frequencies (lib := plain_library)
              "cache/Greek_d41d8cd9_analysis.json" "Greek"
              [("alpha", 5); ("beta", 3)] 0 1 empty_world eq_refl)
    as (w' & doc & wf & Hs & Hl & Hg & -> & _).
  exists w', doc. auto.
Defined.

End CacheFacts.

(* ===================================================================== *)
(** * Facts about the pipeline *)
(* ===================================================================== *)

Module PipelineFacts.
Import Json Analyzer Examples CacheFacts.

(** ** File names *)

Lemma append_inj_l (p x y : string) : (p ++ x = p ++ y)%string -> x = y.
Proof.
  induction p as [|c p IH]; cbn; [auto|]. intros [= H]. auto.
Qed.

Lemma is_absolute_append (p x y : string) :
  is_absolute (p ++ "_" ++ x) = is_absolute (p ++ "_" ++ y).
Proof. destruct p; reflexivity. Qed.

Lemma path_join_inj a b1 b2 :
  is_absolute b1 = is_absolute b2 ->
  path_join a b1 = path_join a b2 -> b1 = b2.
Proof.
  unfold path_join. intros <-.
  destruct (is_absolute b1); [auto|].
  destruct (String.eqb a "" || ends_with_slash a).
  - apply append_inj_l.
  - intros H. apply append_inj_l in H. injection H. auto.
Qed.

Section WithLibrary.
Context {lib : Library}.

Lemma cache_filename_kinds self category :
  _get_cache_filename self category "analysis" <>
  _get_cache_filename self category "members".
Proof.
  unfold _get_cache_filename. intros H.
  apply path_join_inj in H; [|apply is_absolute_append].
  do 4 apply append_inj_l in H. discriminate H.
Qed.


(** ** What a call leaves as it was *)

Lemma extends_refl w : extends w w.
Proof. unfold extends. repeat split; lia. Qed.

Lemma extends_trans w1 w2 w3 : extends w1 w2 -> extends w2 w3 -> extends w1 w3.
Proof.
  unfold extends. intros (A1 & B1 & C1 & D1 & E1) (A2 & B2 & C2 & D2 & E2).
  repeat split; try congruence; lia.
Qed.

Lemma steady_ret {A} (a : A) : steady (ret a).
Proof. intros w. apply extends_refl. Qed.

Lemma steady_lift {A} (r : result A) : steady (lift r).
Proof. intros w. destruct r; apply extends_refl. Qed.

Lemma steady_bind {A B} (m : M A) (k : A -> M B) :
  steady m -> (forall a, steady (k a)) -> steady (bind m k).
Proof.
  intros Hm Hk w. unfold bind. specialize (Hm w).
  destruct (m w) as [a w'|e w'|w']; cbn in *; auto.
  eapply extends_trans; [exact Hm|apply Hk].
Qed.

Lemma keeps_fs_ret {A} (a : A) : keeps_fs (ret a).
Proof. intros w. reflexivity. Qed.

Lemma keeps_fs_lift {A} (r : result A) : keeps_fs (lift r).
Proof. intros w. destruct r; reflexivity. Qed.

Lemma keeps_fs_bind {A B} (m : M A) (k : A -> M B) :
  keeps_fs m -> (forall a, keeps_fs (k a)) -> keeps_fs (bind m k).
Proof.
  intros Hm Hk w. unfold bind. specialize (Hm w).
  destruct (m w) as [a w'|e w'|w']; cbn in *; auto.
  rewrite Hk. exact Hm.
Qed.

Lemma extends_send_request w : extends w (send_request w).
Proof. unfold extends. cbn. repeat split; lia. Qed.

Lemma extends_sleep w : extends w (sleep w).
Proof. unfold extends. cbn. repeat split; lia. Qed.

Lemma steady_sleep : steady (effect sleep).
Proof. intros w. apply extends_sleep. Qed.

Lemma keeps_fs_sleep : keeps_fs (effect sleep).
Proof. intros w. reflexivity. Qed.

Lemma steady_load cache_file : steady (_load_cache cache_file).
Proof.
  intros w. unfold _load_cache.
  destruct (fs w !! cache_file) as [f|]; [destruct (data f)|]; apply extends_refl.
Qed.

Lemma keeps_fs_load cache_file : keeps_fs (_load_cache cache_file).
Proof.
  intros w. unfold _load_cache.
  destruct (fs w !! cache_file) as [f|]; [destruct (data f)|]; reflexivity.
Qed.

Lemma steady_save cache_file doc : steady (_save_cache cache_file doc).
Proof.
  intros w. unfold _save_cache, open_w.
  destruct (writable w cache_file); cbn; unfold extends; cbn; repeat split; lia.
Qed.

Lemma save_cache_other cache_file doc other w :
  other <> cache_file ->
  fs (world_of (_save_cache cache_file doc w)) !! other = fs w !! other.
Proof.
  intros Hne. destruct (writable w cache_file) eqn:Hw.
  - rewrite save_cache_writable by exact Hw. cbn [world_of].
    apply write_file_lookup_ne, Hne.
  - rewrite save_cache_unwritable by exact Hw. reflexivity.
Qed.

Lemma steady_get_page_content title : steady (get_page_content title).
Proof.
  intros w. unfold get_page_content.
  destruct (extracts (send_request w) title); apply extends_send_request.
Qed.

Lemma keeps_fs_get_page_content title : keeps_fs (get_page_content title).
Proof.
  intros w. unfold get_page_content.
  destruct (extracts (send_request w) title); reflexivity.
Qed.

Lemma steady_fetch_pages fuel category : forall pages token,
  steady (fetch_pages fuel category pages token).
Proof.
  induction fuel as [|fuel IH]; intros pages token w; cbn.
  - apply extends_refl.
  - destruct (categorymembers _ _ _) as [| |titles [t|]]; cbn;
      try apply extends_send_request.
    eapply extends_trans; [apply extends_send_request|].
    eapply extends_trans; [apply extends_sleep|]. apply IH.
Qed.

Lemma keeps_fs_fetch_pages fuel category : forall pages token,
  keeps_fs (fetch_pages fuel category pages token).
Proof.
  induction fuel as [|fuel IH]; intros pages token w; cbn; [reflexivity|].
  destruct (categorymembers _ _ _) as [| |titles [t|]]; cbn; try reflexivity.
  rewrite IH. reflexivity.
Qed.

(** A fetch with fuel left sends a request at once. *)
Lemma fetch_pages_requests fuel category pages token w :
  (0 < fuel)%nat ->
  (requests w < requests (world_of (fetch_pages fuel category pages token w)))%nat.
Proof.
  destruct fuel as [|fuel]; [lia|]. intros _. cbn.
  destruct (categorymembers _ _ _) as [| |titles [t|]]; cbn; try lia.
  pose proof (steady_fetch_pages fuel category (pages ++ titles) (Some t)
                (sleep (send_request w))) as (_ & _ & _ & _ & H).
  cbn in H. lia.
Qed.

(** The fetch never raises. *)
Lemma fetch_pages_no_raise fuel category : forall pages token w e w',
  fetch_pages fuel category pages token w <> Raise e w'.
Proof.
  induction fuel as [|fuel IH]; intros pages token w e w'; cbn; [discriminate|].
  destruct (categorymembers _ _ _) as [| |titles [t|]]; try discriminate.
  apply IH.
Qed.


(** ** The loop over the pages *)

Lemma extract_words_empty : Tokenizer.extract_words "" = [].
Proof. reflexivity. Qed.

Lemma process_pages_words titles : forall all_words processed w,
  exists processed' w',
    process_pages titles all_words processed w =
      Return (all_words ++ flat_map (page_words w) titles, processed') w' /\
    extends w w' /\ fs w' = fs w.
Proof.
  induction titles as [|title titles IH]; intros all_words processed w.
  - exists processed, w. cbn. rewrite app_nil_r.
    split; [reflexivity|]. split; [apply extends_refl|reflexivity].
  - cbn [process_pages flat_map]. unfold bind at 1.
    unfold get_page_content, page_words at 1. cbn [extracts send_request].
    set (w1 := send_request w).
    assert (Hext : forall t, page_words (sleep w1) t = page_words w t)
      by reflexivity.
    destruct (extracts w title) as [|text|].
    + destruct (IH all_words processed (sleep w1)) as (p' & w' & Hp & He & Hf).
      exists p', w'. cbn. unfold bind, effect. rewrite Hp.
      split; [reflexivity|]. split; [|exact Hf].
      eapply extends_trans; [apply extends_send_request|].
      eapply extends_trans; [apply extends_sleep|exact He].
    + destruct (String.eqb_spec text "") as [->|Hne]; cbn [negb].
      * destruct (IH all_words processed (sleep w1)) as (p' & w' & Hp & He & Hf).
        exists p', w'. unfold bind, effect. rewrite Hp.
        split; [reflexivity|]. split; [|exact Hf].
        eapply extends_trans; [apply extends_send_request|].
        eapply extends_trans; [apply extends_sleep|exact He].
      * destruct (IH (all_words ++ Tokenizer.extract_words text) (S processed)
                    (sleep w1)) as (p' & w' & Hp & He & Hf).
        exists p', w'. unfold bind, effect. rewrite Hp.
        split; [rewrite <- app_assoc; reflexivity|]. split; [|exact Hf].
        eapply extends_trans; [apply extends_send_request|].
        eapply extends_trans; [apply extends_sleep|exact He].
    + destruct (IH all_words processed (sleep w1)) as (p' & w' & Hp & He & Hf).
      exists p', w'. cbn. unfold bind, effect. rewrite Hp.
      split; [reflexivity|]. split; [|exact Hf].
      eapply extends_trans; [apply extends_send_request|].
      eapply extends_trans; [apply extends_sleep|exact He].
Qed.

(** ** Counting *)

Lemma sum_values_count_word word t :
  sum_values (count_word word t) = sum_values t + 1.
Proof.
  unfold sum_values.
  induction t as [|[k n] t IH]; cbn; [reflexivity|].
  destruct (String.eqb word k); cbn; [lia|]. rewrite IH. lia.
Qed.

Lemma count_word_positive word t :
  Forall (fun kv => 1 <= snd kv) t ->
  Forall (fun kv => 1 <= snd kv) (count_word word t).
Proof.
  induction 1 as [|[k n] t Hk Ht IH]; cbn.
  - repeat constructor. cbn. lia.
  - destruct (String.eqb word k); constructor; cbn in *; auto; lia.
Qed.

Lemma count_word_keys word t :
  map fst (count_word word t) =
  if existsb (String.eqb word) (map fst t) then map fst t
  else map fst t ++ [word].
Proof.
  induction t as [|[k n] t IH]; cbn; [reflexivity|].
  destruct (String.eqb word k); cbn; [reflexivity|].
  rewrite IH. destruct (existsb _ _); reflexivity.
Qed.

Lemma count_word_nodup word t :
  List.NoDup (map fst t) -> List.NoDup (map fst (count_word word t)).
Proof.
  intros Hnd. rewrite count_word_keys.
  destruct (existsb (String.eqb word) (map fst t)) eqn:He; [exact Hnd|].
  apply NoDup_ListNoDup. apply NoDup_app. split; [apply NoDup_ListNoDup, Hnd|].
  split; [|apply NoDup_singleton].
  intros x Hx Hx'. apply list_elem_of_singleton in Hx'. subst x.
  apply list_elem_of_In in Hx.
  assert (existsb (String.eqb word) (map fst t) = true); [|congruence].
  apply existsb_exists. exists word. split; [exact Hx|apply String.eqb_refl].
Qed.

Lemma Counter_facts all_words :
  Forall (fun kv => 1 <= snd kv) (Counter all_words) /\
  List.NoDup (map fst (Counter all_words)) /\
  sum_values (Counter all_words) = Z.of_nat (List.length all_words).
Proof.
  unfold Counter.
  assert (H : forall t,
    Forall (fun kv => 1 <= snd kv) t -> List.NoDup (map fst t) ->
    let t' := fold_left (fun t word => count_word word t) all_words t in
    Forall (fun kv => 1 <= snd kv) t' /\ List.NoDup (map fst t') /\
    sum_values t' = sum_values t + Z.of_nat (List.length all_words)).
  { induction all_words as [|word ws IH]; intros t Hp Hn;
      cbn [fold_left List.length]; cbn zeta.
    - repeat split; auto. cbn. lia.
    - destruct (IH (count_word word t)) as (A & B & C).
      + apply count_word_positive, Hp.
      + apply count_word_nodup, Hn.
      + repeat split; auto. cbn zeta in C.
        rewrite C, sum_values_count_word, Nat2Z.inj_succ. lia. }
  destruct (H []) as (A & B & C); [constructor|constructor|].
  repeat split; auto.
Qed.


(** ** The two cache checks *)


Lemma bind_return {A B} (m : M A) (k : A -> M B) w b w' :
  bind m k w = Return b w' ->
  exists a w1, m w = Return a w1 /\ k a w1 = Return b w'.
Proof.
  unfold bind. destruct (m w) as [a w1|e w1|w1]; try discriminate.
  intros H. exists a, w1. auto.
Qed.

Lemma lift_return {A} (r : result A) w a w' :
  lift r w = Return a w' -> r = Ok a /\ w' = w.
Proof. destruct r; cbn; intros [= <- <-]; auto. Qed.

Lemma ret_return {A} (a b : A) w w' :
  ret a w = Return b w' -> b = a /\ w' = w.
Proof. cbn. intros [= <- <-]. auto. Qed.

Lemma load_cache_return cache_file w d w' :
  _load_cache cache_file w = Return d w' -> w' = w.
Proof.
  unfold _load_cache.
  destruct (fs w !! cache_file) as [f|]; [destruct (data f)|];
    intros [= _ <-]; reflexivity.
Qed.


(** The check of a cache file for the value under [key]: what
    [cached_members] and [cached_analysis] have in common. *)
Lemma cached_analysis_inv self category w r w' :
  cached_analysis self category w = Return r w' ->
  w' = w /\
  ((_is_cache_valid self (_get_cache_filename self category "analysis") w
      = false /\ r = None) \/
   (_is_cache_valid self (_get_cache_filename self category "analysis") w
      = true /\
    exists doc v,
      _load_cache (_get_cache_filename self category "analysis") w
        = Return doc w /\
      py_get doc "word_frequencies" = Ok v /\
      ((truthy v = false /\ r = None) \/
       (truthy v = true /\ py_sum_values v = Ok tt /\ r = Some v)))).
Proof.
  unfold cached_analysis.
  destruct (_is_cache_valid _ _ w); [|intros [= <- <-]; auto].
  intros H. apply bind_return in H as (doc & w1 & Hload & H).
  pose proof (load_cache_return _ _ _ _ Hload). subst w1.
  apply bind_return in H as (v & w1 & Hget & H).
  apply lift_return in Hget as [Hget ->].
  destruct (truthy v) eqn:Hv.
  - apply bind_return in H as (n & w1 & Hlen & H).
    apply lift_return in Hlen as [Hlen ->].
    apply bind_return in H as ([] & w1 & Hsum & H).
    apply lift_return in Hsum as [Hsum ->].
    apply ret_return in H as [-> ->].
    split; [reflexivity|]. right. split; [reflexivity|].
    exists doc, v. auto 6.
  - apply ret_return in H as [-> ->].
    split; [reflexivity|]. right. split; [reflexivity|].
    exists doc, v. auto 6.
Qed.

Lemma cached_members_inv self category w r w' :
  cached_members self category w = Return r w' ->
  w' = w /\
  ((_is_cache_valid self (_get_cache_filename self category "members") w
      = false /\ r = None) \/
   (_is_cache_valid self (_get_cache_filename self category "members") w
      = true /\
    exists doc v,
      _load_cache (_get_cache_filename self category "members") w
        = Return doc w /\
      py_get doc "pages" = Ok v /\
      ((truthy v = false /\ r = None) \/
       (truthy v = true /\ (exists n, py_len v = Ok n) /\ r = Some v)))).
Proof.
  unfold cached_members.
  destruct (_is_cache_valid _ _ w); [|intros [= <- <-]; auto].
  intros H. apply bind_return in H as (doc & w1 & Hload & H).
  pose proof (load_cache_return _ _ _ _ Hload). subst w1.
  apply bind_return in H as (v & w1 & Hget & H).
  apply lift_return in Hget as [Hget ->].
  destruct (truthy v) eqn:Hv.
  - apply bind_return in H as (n & w1 & Hlen & H).
    apply lift_return in Hlen as [Hlen ->].
    apply ret_return in H as [-> ->].
    split; [reflexivity|]. right. split; [reflexivity|].
    exists doc, v. eauto 7.
  - apply ret_return in H as [-> ->].
    split; [reflexivity|]. right. split; [reflexivity|].
    exists doc, v. auto 6.
Qed.

Lemma cached_analysis_return self category w r w' :
  cached_analysis self category w = Return r w' -> w' = w.
Proof. intros H. apply cached_analysis_inv in H as [H _]. exact H. Qed.

Lemma cached_members_return self category w r w' :
  cached_members self category w = Return r w' -> w' = w.
Proof. intros H. apply cached_members_inv in H as [H _]. exact H. Qed.

(** What the analysis cache serves is true, hence no empty table. *)
Lemma cached_analysis_hit self category w word_frequencies w' :
  cached_analysis self category w = Return (Some word_frequencies) w' ->
  truthy word_frequencies = true.
Proof.
  intros H. apply cached_analysis_inv in H as (_ & [[_ H]|(_ & doc & v & _ & _ & H)]).
  - discriminate.
  - destruct H as [[_ H]|(Hv & _ & H)]; [discriminate|congruence].
Qed.





Lemma table_json_numbers (t : table) :
  py_sum_values (table_json t) = Ok tt.
Proof.
  unfold py_sum_values, table_json.
  replace (forallb _ _) with true; [reflexivity|].
  symmetry. apply forallb_forall. intros [k v] Hin.
  apply in_map_iff in Hin as ([k' n] & [= <- <-] & _). reflexivity.
Qed.

(** A valid analysis document with a table that is not empty is served. *)
Lemma cached_analysis_document self category w t (tbl : table)
    analyzed_at processed_pages :
  fs w !! _get_cache_filename self category "analysis" =
    Some {| mtime := t;
            data := Document (analysis_data category tbl analyzed_at
                                processed_pages) |} ->
  now w - t < cache_expiry_days self * day ->
  truthy (table_json tbl) = true ->
  cached_analysis self category w = Return (Some (table_json tbl)) w.
Proof.
  intros Hfs Hage Htrue. unfold cached_analysis.
  assert (Hv : _is_cache_valid self
                 (_get_cache_filename self category "analysis") w = true).
  { apply is_cache_valid_iff. eexists. split; [exact Hfs|exact Hage]. }
  rewrite Hv. unfold bind, _load_cache. rewrite Hfs. cbn [data].
  change (py_get (analysis_data category tbl analyzed_at processed_pages)
            "word_frequencies") with (Ok (table_json tbl)).
  cbn [lift]. rewrite Htrue. rewrite table_json_numbers. reflexivity.
Qed.


(** ** The members of a category *)

Lemma save_cache_return cache_file doc w u w' :
  _save_cache cache_file doc w = Return u w' ->
  w' = world_of (_save_cache cache_file doc w).
Proof. intros ->. reflexivity. Qed.

Lemma get_category_members_inv fuel self category w pages w1 :
  get_category_members fuel self category w = Return pages w1 ->
  (cached_members self category w = Return (Some pages) w /\ w1 = w) \/
  (cached_members self category w = Return None w /\
   exists titles w0,
     fetch_pages fuel category [] None w = Return titles w0 /\
     pages = JList (map JStr titles) /\
     _save_cache (_get_cache_filename self category "members")
       (members_data category titles (now w0)) w0 = Return tt w1).
Proof.
  unfold get_category_members. intros H.
  apply bind_return in H as (r & w0 & Hc & H).
  pose proof (cached_members_return _ _ _ _ _ Hc). subst w0.
  destruct r as [cached|].
  - apply ret_return in H as [-> ->]. left. auto.
  - right. split; [exact Hc|].
    unfold fetch_category_members in H.
    apply bind_return in H as (titles & w0 & Hf & H).
    apply bind_return in H as (t & w0' & Hd & H).
    injection Hd as <- <-. cbn zeta in H.
    apply bind_return in H as ([] & w2 & Hs & H).
    apply ret_return in H as [-> ->].
    exists titles, w0. auto.
Qed.

(** [get_category_members] writes the members file only, and changes
    neither what can be written nor the encyclopedia. *)
Lemma get_category_members_effect fuel self category w pages w1 :
  get_category_members fuel self category w = Return pages w1 ->
  extends w w1 /\
  forall other, other <> _get_cache_filename self category "members" ->
    fs w1 !! other = fs w !! other.
Proof.
  intros H. apply get_category_members_inv in H
    as [[_ ->]|(_ & titles & w0 & Hf & _ & Hs)].
  - split; [apply extends_refl|reflexivity].
  - pose proof (steady_fetch_pages fuel category [] None w) as He.
    pose proof (keeps_fs_fetch_pages fuel category [] None w) as Hk.
    rewrite Hf in He, Hk. cbn [world_of] in He, Hk.
    pose proof (steady_save (_get_cache_filename self category "members")
                  (members_data category titles (now w0)) w0) as He2.
    rewrite Hs in He2. cbn [world_of] in He2.
    split; [eapply extends_trans; eauto|].
    intros other Hne.
    rewrite (save_cache_return _ _ _ _ _ Hs).
    rewrite save_cache_other by exact Hne. rewrite Hk. reflexivity.
Qed.

(** ** The analysis past the cache check *)

Lemma analyze_uncached_inv fuel self category w T w' :
  analyze_uncached fuel self category w = Return T w' ->
  exists page_titles w1,
    get_category_members fuel self category w = Return page_titles w1 /\
    ((truthy page_titles = false /\ T = JObj [] /\ w' = w1) \/
     (truthy page_titles = true /\
      exists titles processed_pages w2,
        py_iter page_titles = Ok titles /\
        process_pages titles [] 0 w1 =
          Return (flat_map (page_words w) titles, processed_pages) w2 /\
        extends w1 w2 /\ fs w2 = fs w1 /\
        T = table_json (Counter (flat_map (page_words w) titles)) /\
        _save_cache (_get_cache_filename self category "analysis")
          (analysis_data category (Counter (flat_map (page_words w) titles))
             (now w2) processed_pages) w2 = Return tt w')).
Proof.
  unfold analyze_uncached. intros H.
  apply bind_return in H as (page_titles & w1 & Hm & H).
  exists page_titles, w1. split; [exact Hm|].
  destruct (truthy page_titles) eqn:Ht; cbn [negb] in H.
  - right. split; [reflexivity|].
    apply bind_return in H as (n & w1' & Hlen & H).
    apply lift_return in Hlen as [_ ->].
    apply bind_return in H as (titles & w1' & Hit & H).
    apply lift_return in Hit as [Hit ->].
    apply bind_return in H as ([all_words processed_pages] & w2 & Hp & H).
    destruct (process_pages_words titles [] 0%nat w1)
      as (p' & w2' & Hp' & He & Hf).
    rewrite Hp in Hp'. cbn [app] in Hp'. injection Hp' as -> <- <-.
    assert (Hpw : flat_map (page_words w1) titles =
                  flat_map (page_words w) titles).
    { destruct (get_category_members_effect _ _ _ _ _ _ Hm)
        as ((_ & _ & Hx & _) & _).
      unfold page_words. rewrite Hx. reflexivity. }
    rewrite Hpw in *.
    apply bind_return in H as (t & w2' & Hd & H). injection Hd as <- <-.
    cbn zeta in H.
    apply bind_return in H as ([] & w3 & Hs & H).
    apply ret_return in H as [-> ->].
    exists titles, processed_pages, w2. auto 8.
  - left. apply ret_return in H as [-> ->]. auto.
Qed.

Lemma analyze_category_miss fuel self category w :
  cached_analysis self category w = Return None w ->
  analyze_category fuel self category w =
  analyze_uncached fuel self category w.
Proof. intros H. unfold analyze_category, bind at 1. rewrite H. reflexivity. Qed.

Lemma analyze_category_hit fuel self category w word_frequencies :
  cached_analysis self category w = Return (Some word_frequencies) w ->
  analyze_category fuel self category w = Return word_frequencies w.
Proof. intros H. unfold analyze_category, bind at 1. rewrite H. reflexivity. Qed.


(** ** Every call only adds to the clock and to the requests *)

Lemma steady_datetime_now : steady datetime_now.
Proof. intros w. apply extends_refl. Qed.

Lemma steady_process_pages titles all_words processed :
  steady (process_pages titles all_words processed).
Proof.
  intros w.
  destruct (process_pages_words titles all_words processed w)
    as (p' & w' & -> & He & _). exact He.
Qed.

Lemma steady_cached_members self category :
  steady (cached_members self category).
Proof.
  intros w. unfold cached_members.
  destruct (_is_cache_valid _ _ w); [|apply extends_refl].
  apply steady_bind; [apply steady_load|]. intros doc.
  apply steady_bind; [apply steady_lift|]. intros v.
  destruct (truthy v); [|apply steady_ret].
  apply steady_bind; [apply steady_lift|]. intros _. apply steady_ret.
Qed.

Lemma steady_fetch_rest self category pages :
  steady (let* fetched_at := datetime_now in
          let cache_data := members_data category pages fetched_at in
          let* _ := _save_cache (_get_cache_filename self category "members")
                      cache_data in
          ret (JList (map JStr pages))).
Proof.
  apply steady_bind; [apply steady_datetime_now|]. intros t. cbn zeta.
  apply steady_bind; [apply steady_save|]. intros _. apply steady_ret.
Qed.

Lemma steady_fetch_category_members fuel self category :
  steady (fetch_category_members fuel self category).
Proof.
  unfold fetch_category_members.
  apply steady_bind; [apply steady_fetch_pages|]. intros pages.
  apply steady_fetch_rest.
Qed.

Lemma steady_get_category_members fuel self category :
  steady (get_category_members fuel self category).
Proof.
  unfold get_category_members.
  apply steady_bind; [apply steady_cached_members|]. intros [pages|].
  - apply steady_ret.
  - apply steady_fetch_category_members.
Qed.


Lemma bind_extends {A B} (m : M A) (k : A -> M B) w :
  (forall a, steady (k a)) ->
  extends (world_of (m w)) (world_of (bind m k w)).
Proof.
  intros Hk. unfold bind.
  destruct (m w) as [a w'|e w'|w']; cbn; try apply extends_refl. apply Hk.
Qed.



(** ** The claims about [analyze_category] *)

(** C9. In a run of [analyze_category] that the analysis cache does not
    serve, the table returned is the count of the words collected from the
    pages of the category: every count is at least 1, no word is listed
    twice, and the counts add up to the number of words collected. The
    document the run writes to the analysis cache, which it does when
    there are pages and the file can be written, holds that table, the
    number of its keys as [total_unique_words] and the sum of its counts
    as [total_word_occurrences]; otherwise the file is left as it was. *)
Theorem analyze_category_counts fuel self category w T w' :
  cached_analysis self category w = Return None w ->
  analyze_category fuel self category w = Return T w' ->
  let analysis_cache_file := _get_cache_filename self category "analysis" in
  exists page_titles w1 titles,
    get_category_members fuel self category w = Return page_titles w1 /\
    (if truthy page_titles then py_iter page_titles = Ok titles
     else titles = []) /\
    let all_words := flat_map (page_words w) titles in
    let word_freq := Counter all_words in
    T = table_json word_freq /\
    Forall (fun kv => 1 <= snd kv) word_freq /\
    List.NoDup (map fst word_freq) /\
    sum_values word_freq = Z.of_nat (List.length all_words) /\
    if truthy page_titles && writable w analysis_cache_file
    then exists t doc,
      fs w' !! analysis_cache_file = Some {| mtime := t; data := Document doc |} /\
      py_get doc "word_frequencies" = Ok T /\
      py_get doc "total_unique_words" =
        Ok (JInt (Z.of_nat (List.length word_freq))) /\
      py_get doc "total_word_occurrences" = Ok (JInt (sum_values word_freq))
    else fs w' !! analysis_cache_file = fs w !! analysis_cache_file.
Proof.
  intros Hmiss Hrun. cbn zeta.
  rewrite (analyze_category_miss _ _ _ _ Hmiss) in Hrun.
  apply analyze_uncached_inv in Hrun
    as (page_titles & w1 & Hm & [(Ht & -> & ->)|(Ht & Hrest)]).
  - exists page_titles, w1, []. rewrite Ht. cbn [flat_map andb].
    split; [exact Hm|]. split; [reflexivity|].
    split; [reflexivity|].
    destruct (Counter_facts []) as (A & B & C).
    split; [exact A|]. split; [exact B|]. split; [exact C|].
    apply (get_category_members_effect _ _ _ _ _ _ Hm).
    apply cache_filename_kinds.
  - destruct Hrest as (titles & processed & w2 & Hit & Hp & He & Hf & -> & Hs).
    exists page_titles, w1, titles. rewrite Ht. cbn [andb].
    split; [exact Hm|]. split; [exact Hit|].
    split; [reflexivity|].
    destruct (Counter_facts (flat_map (page_words w) titles)) as (A & B & C).
    split; [exact A|]. split; [exact B|]. split; [exact C|].
    destruct (get_category_members_effect _ _ _ _ _ _ Hm) as (He1 & Hfs1).
    assert (Hw : writable w2 (_get_cache_filename self category "analysis") =
                 writable w (_get_cache_filename self category "analysis")).
    { destruct He1 as (Hw1 & _). destruct He as (Hw2 & _).
      rewrite Hw2, Hw1. reflexivity. }
    destruct (writable w (_get_cache_filename self category "analysis")) eqn:Hwr.
    + rewrite save_cache_writable in Hs by exact Hw. injection Hs as <-.
      eexists _, _. split; [apply write_file_lookup|].
      repeat split; reflexivity.
    + rewrite save_cache_unwritable in Hs by exact Hw. injection Hs as <-.
      rewrite Hf. apply Hfs1, cache_filename_kinds.
Qed.


End WithLibrary.

Lemma returned_world {A} (o : outcome A) a :
  returned o = Some a -> o = Return a (world_of o).
Proof. destruct o; cbn; intros [= <-]; reflexivity. Qed.

Ltac run_of o H :=
  let r := eval vm_compute in (returned o) in
  assert (H : returned o = r) by (vm_compute; reflexivity);
  apply returned_world in H.

(** The category "Birds": two pages, nine words, seven of them distinct. *)
Lemma analyze_category_counts_witness :
  exists t doc,
    fs (world_of (analyze_category (lib := plain_library) 5 default_analyzer
                    "Birds" birds_world))
      !! "cache/Birds_d41d8cd9_analysis.json"
      = Some {| mtime := t; data := Document doc |} /\
    py_get doc "total_unique_words" = Ok (JInt 7) /\
    py_get doc "total_word_occurrences" = Ok (JInt 9).
Proof.
  run_of (analyze_category (lib := plain_library) 5 default_analyzer
            "Birds" birds_world) Hrun.
  destruct (analyze_category_counts (lib := plain_library) 5 default_analyzer
              "Birds" birds_world _ _ eq_refl Hrun)
    as (page_titles & w1 & titles & Hm & Hit & _ & _ & _ & _ & Hdoc).
  vm_compute in Hm. injection Hm as <- <-.
  cbn in Hit. injection Hit as <-.
  cbn [truthy andb birds_world writable] in Hdoc.
  destruct Hdoc as (t & doc & Hfs & _ & Hu & Ho).
  exists t, doc. split; [exact Hfs|]. split; [exact Hu|exact Ho].
Defined.


End PipelineFacts.

(* ===================================================================== *)
(** * More about the tokenizer *)
(* ===================================================================== *)

Module TokenizerMore.
Import Tokenizer TokenizerFacts.

Lemma extract_words_eq text :
  extract_words text =
  List.filter keep_word
    (map string_of_list_ascii
       (letter_words (lower (list_ascii_of_string text)))).
Proof.
  unfold extract_words. destruct (String.eqb_spec text "") as [->|_].
  - reflexivity.
  - rewrite findall_letter_words. reflexivity.
Qed.

Lemma cons_nonempty_in r rs x :
  In x (cons_nonempty r rs) -> x = r \/ In x rs.
Proof. destruct r; cbn; [auto|]. intros [<-|H]; auto. Qed.

(** A run is made of characters of the text. *)
Lemma runs_chars p s :
  (forall c, In c (fst (runs p s)) -> In c s) /\
  (forall r, In r (snd (runs p s)) -> forall c, In c r -> In c s).
Proof.
  induction s as [|x s [IH1 IH2]]; cbn [runs].
  - split; [intros c []|intros r []].
  - destruct (runs p s) as [r0 rs]. cbn [fst snd] in *.
    destruct (p x); cbn [fst snd]; split.
    + intros c [->|Hc]; [left; reflexivity|right; auto].
    + intros r Hr c Hc. right. eauto.
    + intros c [].
    + intros r Hr c Hc. right.
      apply cons_nonempty_in in Hr as [->|Hr]; eauto.
Qed.

Lemma split_runs_chars p s r c :
  In r (split_runs p s) -> In c r -> In c s.
Proof.
  unfold split_runs. pose proof (runs_chars p s) as [H1 H2].
  destruct (runs p s) as [r0 rs]. cbn [fst snd] in *.
  intros Hr Hc. apply cons_nonempty_in in Hr as [->|Hr]; eauto.
Qed.

Lemma lower_char_letter c :
  is_alpha (lower_char c) = true -> is_lower (lower_char c) = true.
Proof.
  destruct c as [[] [] [] [] [] [] [] []]; vm_compute; congruence.
Qed.

Lemma lower_char_word c :
  is_word_char (lower_char c) = is_word_char c.
Proof.
  destruct c as [[] [] [] [] [] [] [] []]; reflexivity.
Qed.

Lemma lower_char_idem c : lower_char (lower_char c) = lower_char c.
Proof.
  destruct c as [[] [] [] [] [] [] [] []]; reflexivity.
Qed.

(** Every token is a word of at least three lower-case ASCII letters
    that is no stop word. *)
Theorem extract_words_tokens text word :
  In word (extract_words text) ->
  forallb is_lower (list_ascii_of_string word) = true /\
  (3 <= String.length word)%nat /\
  in_stop_words word = false.
Proof.
  rewrite extract_words_eq. intros H.
  apply filter_In in H as [H Hkeep].
  unfold keep_word in Hkeep. apply andb_true_iff in Hkeep as [Hstop Hlen].
  apply negb_true_iff in Hstop. apply Nat.leb_le in Hlen.
  split; [|split; assumption].
  apply in_map_iff in H as (r & <- & Hr).
  rewrite list_ascii_of_string_of_list_ascii.
  unfold letter_words in Hr. apply filter_In in Hr as [Hr Hall].
  apply forallb_forall. intros c Hc.
  rewrite forallb_forall in Hall. pose proof (Hall c Hc) as Ha.
  apply (split_runs_chars _ _ _ _ Hr) in Hc.
  unfold lower in Hc. apply in_map_iff in Hc as (c0 & <- & _).
  apply lower_char_letter, Ha.
Qed.

Lemma extract_words_tokens_witness :
  In "owls" (extract_words "Owls hunt mice.") /\
  (3 <= String.length "owls")%nat /\
  in_stop_words "owls" = false.
Proof.
  assert (H : In "owls" (extract_words "Owls hunt mice."))
    by (vm_compute; auto).
  split; [exact H|].
  apply (proj2 (extract_words_tokens "Owls hunt mice." "owls" H)).
Defined.

(** The tokenizer does not see the case of letters: two texts with the
    same lower-case form have the same tokens. *)
Theorem extract_words_case_insensitive text1 text2 :
  lower (list_ascii_of_string text1) = lower (list_ascii_of_string text2) ->
  extract_words text1 = extract_words text2.
Proof.
  intros H. rewrite !extract_words_eq, H. reflexivity.
Qed.

Lemma extract_words_case_insensitive_witness :
  extract_words "The OWL Hoots" = extract_words "the owl hoots".
Proof.
  apply extract_words_case_insensitive. reflexivity.
Defined.

End TokenizerMore.

(* ===================================================================== *)
(** * Facts about the tokenizer on Unicode text *)
(* ===================================================================== *)

Module UnicodeTextFacts.
Import UnicodeText.

Section WithUnicode.
Context {unicode : Unicode}.


Lemma alpha_is_ascii c : is_alpha c = true -> is_ascii c = true.
Proof.
  unfold is_alpha, is_upper, is_lower, is_ascii. intros H.
  apply N.ltb_lt.
  apply orb_true_iff in H as [H|H]; apply andb_true_iff in H as [_ H];
    apply N.leb_le in H; lia.
Qed.

Lemma alpha_is_word_cp c : is_alpha c = true -> is_word_char c = true.
Proof.
  intros H. unfold is_word_char. rewrite (alpha_is_ascii _ H), H. reflexivity.
Qed.

Lemma findall_skip_cp k : forall s prev, (k < List.length s)%nat ->
  findall_from prev (S k) s = findall_from (nth_error s k) 0 (skipn (S k) s).
Proof.
  induction k as [|k IH]; intros [|c s] prev Hlen; simpl in *; try lia.
  - reflexivity.
  - apply IH. lia.
Qed.

Lemma take_alpha_app_cp s :
  exists rest, s = take_alpha s ++ rest /\
    match rest with [] => True | d :: _ => is_alpha d = false end.
Proof.
  induction s as [|c s [rest [Hs Hr]]]; simpl.
  - exists []. split; auto.
  - destruct (is_alpha c) eqn:Hc.
    + exists rest. split; [simpl; congruence | exact Hr].
    + exists (c :: s). split; auto.
Qed.

Lemma take_alpha_all_cp s : forallb is_alpha (take_alpha s) = true.
Proof.
  induction s as [|c s IH]; simpl; auto.
  destruct (is_alpha c) eqn:Hc; simpl; auto. rewrite Hc. auto.
Qed.

Lemma runs_app_cp p a rest :
  forallb p a = true ->
  runs p (a ++ rest) = (a ++ fst (runs p rest), snd (runs p rest)).
Proof.
  induction a as [|c a IH]; simpl; intros H.
  - destruct (runs p rest); reflexivity.
  - apply andb_true_iff in H as [Hc Ha]. rewrite (IH Ha), Hc. reflexivity.
Qed.

(** Below [k] letters in a row no closing boundary is found. *)
Lemma backtrack_letters_cp s k :
  (forall j, (j <= k)%nat -> exists c, nth_error s j = Some c /\ is_alpha c = true) ->
  backtrack s k = None.
Proof.
  induction k as [|k IH]; intros H; cbn [backtrack]; auto.
  destruct (H k) as [c [Hc Ha]]; [lia|].
  destruct (H (S k)) as [d [Hd Hb]]; [lia|].
  rewrite Hc, Hd. unfold word_boundary. simpl.
  rewrite (alpha_is_word_cp _ Ha), (alpha_is_word_cp _ Hb). simpl.
  apply IH. intros j Hj. apply H. lia.
Qed.

Lemma nth_error_letters_cp a rest j :
  forallb is_alpha a = true -> (j < List.length a)%nat ->
  exists c, nth_error (a ++ rest) j = Some c /\ is_alpha c = true.
Proof.
  intros Ha Hj. rewrite forallb_forall in Ha.
  destruct (nth_error a j) as [x|] eqn:E.
  - exists x. split. rewrite nth_error_app1 by lia. auto. apply Ha. eapply nth_error_In; eauto.
  - apply nth_error_None in E. lia.
Qed.

Lemma backtrack_run_cp a rest :
  forallb is_alpha a = true -> a <> [] ->
  backtrack (a ++ rest) (List.length a) =
    if is_word (head rest) then None else Some a.
Proof.
  intros Ha Hne. destruct a as [|c a _] using rev_ind; [congruence|]. clear Hne.
  pose proof Ha as Hall. rewrite forallb_app in Hall.
  apply andb_true_iff in Hall as [Hall Hc]. cbn in Hc. rewrite andb_true_r in Hc.
  rewrite length_app. cbn [List.length].
  replace (List.length a + 1)%nat with (S (List.length a)) by lia.
  cbn [backtrack].
  assert (E1 : nth_error ((a ++ [c]) ++ rest) (List.length a) = Some c).
  { rewrite <- app_assoc. rewrite nth_error_app2 by lia.
    rewrite Nat.sub_diag. reflexivity. }
  assert (E2 : nth_error ((a ++ [c]) ++ rest) (S (List.length a)) = head rest).
  { rewrite nth_error_app2 by (rewrite length_app; cbn; lia).
    rewrite length_app. cbn [List.length].
    replace (S (List.length a) - (List.length a + 1))%nat with 0%nat by lia.
    destruct rest; reflexivity. }
  rewrite E1, E2. unfold word_boundary. cbn [is_word].
  rewrite (alpha_is_word_cp _ Hc). cbn [xorb].
  destruct (is_word (head rest)) eqn:Hw; cbn [negb].
  - apply backtrack_letters_cp. intros j Hj.
    apply nth_error_letters_cp; auto. rewrite length_app. cbn. lia.
  - f_equal. rewrite firstn_app. rewrite firstn_all2 by (rewrite length_app; cbn; lia).
    rewrite length_app. cbn [List.length].
    replace (S (List.length a) - (List.length a + 1))%nat with 0%nat by lia.
    cbn. apply app_nil_r.
Qed.

Lemma match_here_nonletter_cp prev c s :
  is_alpha c = false -> match_here prev (c :: s) = None.
Proof.
  intros Hc. unfold match_here. cbn [take_alpha]. rewrite Hc.
  destruct (word_boundary _ _); reflexivity.
Qed.

Lemma runs_head_nonword_cp p rest :
  match rest with [] => True | d :: _ => p d = false end ->
  fst (runs p rest) = [].
Proof.
  destruct rest as [|d rest]; cbn; auto. intros ->.
  destruct (runs p rest). reflexivity.
Qed.

Lemma findall_from_runs_cp n : forall s, (List.length s <= n)%nat ->
  (forall prev, is_word prev = false ->
     findall_from prev 0 s = letter_words s) /\
  (forall prev, is_word prev = true ->
     findall_from prev 0 s =
     List.filter (forallb is_alpha) (snd (runs is_word_char s))).
Proof.
  induction n as [|n IH]; intros [|c s] Hlen; cbn [List.length] in Hlen;
    try lia; try (split; reflexivity).
  assert (Hs : (List.length s <= n)%nat) by lia.
  destruct (IH s Hs) as [IH1 IH2].
  unfold letter_words, split_runs in *. cbn [runs findall_from].
  destruct (runs is_word_char s) as [r rs] eqn:Hruns.
  cbn [snd] in IH2.
  destruct (is_word_char c) eqn:Hw.
  - split; intros prev Hprev.
    + (* a word starts at [c] *)
      destruct (is_alpha c) eqn:Ha.
      * destruct (take_alpha_app_cp s) as [rest [Hsplit Hrest]].
        assert (Hm : match_here prev (c :: s) =
                     if is_word (head rest) then None
                     else Some (c :: take_alpha s)).
        { unfold match_here, word_boundary. cbn [head is_word take_alpha].
          rewrite Hprev, Hw, Ha. cbn [xorb negb].
          rewrite Hsplit at 1.
          change (c :: take_alpha s ++ rest) with ((c :: take_alpha s) ++ rest).
          apply backtrack_run_cp; [|discriminate].
          cbn [forallb]. rewrite Ha. apply take_alpha_all_cp. }
        rewrite Hm.
        assert (Hr : r = take_alpha s ++ fst (runs is_word_char rest) /\
                     rs = snd (runs is_word_char rest)).
        { rewrite Hsplit in Hruns. rewrite runs_app_cp in Hruns.
          - inversion Hruns. auto.
          - apply forallb_forall. intros x Hx. apply alpha_is_word_cp.
            revert x Hx. apply forallb_forall, take_alpha_all_cp. }
        destruct Hr as [Hr Hrs].
        destruct (is_word (head rest)) eqn:Hwr.
        -- (* a digit or an underscore follows the letters *)
           rewrite (IH2 (Some c)) by exact Hw.
           cbn [cons_nonempty List.filter forallb]. rewrite Ha. cbn [andb].
           destruct rest as [|d rest]; [discriminate|]. cbn [head is_word] in Hwr.
           replace (forallb is_alpha r) with false; [reflexivity|].
           rewrite Hr, forallb_app. cbn [runs]. rewrite Hwr.
           destruct (runs is_word_char rest). cbn [fst forallb].
           rewrite Hrest. cbn. rewrite andb_false_r. reflexivity.
        -- (* the letters end at a non-word character or at the end *)
           assert (Hfst : fst (runs is_word_char rest) = []).
           { apply runs_head_nonword_cp. destruct rest; auto. }
           rewrite Hfst, app_nil_r in Hr. subst r.
           cbn [cons_nonempty List.filter forallb]. rewrite Ha, take_alpha_all_cp.
           cbn [andb]. f_equal.
           cbn [List.length].
           replace (S (List.length (take_alpha s)) - 1)%nat
             with (List.length (take_alpha s)) by lia.
           assert (Hlen' : List.length s = (List.length (take_alpha s) + List.length rest)%nat).
           { rewrite Hsplit at 1. apply length_app. }
           destruct (take_alpha s) as [|a0 al] eqn:Hta.
           ++ cbn [List.length]. cbn [app] in Hsplit. subst rest.
              rewrite (IH2 (Some c)) by exact Hw. reflexivity.
           ++ cbn [List.length]. rewrite findall_skip_cp by (cbn [List.length] in Hlen'; lia).
              assert (Hdrop : skipn (S (List.length al)) s = rest).
              { rewrite Hsplit at 1.
                change (S (List.length al)) with (List.length (a0 :: al)).
                rewrite skipn_app, skipn_all, Nat.sub_diag. reflexivity. }
              rewrite Hdrop.
              destruct (IH rest) as [_ IHr]; [lia|].
              rewrite IHr; [rewrite Hrs; reflexivity|].
              destruct (nth_error_letters_cp (a0 :: al) rest (List.length al))
                as [x [Hx Hax]].
              { rewrite <- Hta. apply take_alpha_all_cp. }
              { cbn. lia. }
              rewrite Hsplit at 1. rewrite Hx. cbn. apply alpha_is_word_cp, Hax.
      * rewrite match_here_nonletter_cp by exact Ha.
        rewrite (IH2 (Some c)) by exact Hw.
        cbn [cons_nonempty List.filter forallb]. rewrite Ha. reflexivity.
    + (* inside a run of word characters *)
      unfold match_here, word_boundary. cbn [head is_word].
      rewrite Hprev, Hw. cbn [xorb snd].
      apply (IH2 (Some c)). exact Hw.
  - split; intros prev Hprev.
    + unfold match_here, word_boundary. cbn [head is_word].
      rewrite Hprev, Hw. cbn [xorb].
      rewrite (IH1 (Some c)) by exact Hw. reflexivity.
    + rewrite match_here_nonletter_cp.
      * rewrite (IH1 (Some c)) by exact Hw. reflexivity.
      * destruct (is_alpha c) eqn:Ha; auto.
        rewrite (alpha_is_word_cp _ Ha) in Hw. discriminate.
Qed.

Lemma findall_letter_words_cp s : findall s = letter_words s.
Proof.
  unfold findall. apply (findall_from_runs_cp (List.length s) s); auto.
Qed.

Lemma extract_words_eq_cp text :
  extract_words text = List.filter keep_word (letter_words (lower text)).
Proof.
  unfold extract_words. rewrite findall_letter_words_cp.
  destruct text; reflexivity.
Qed.

(** C3, as amended. [extract_words] lower-cases the text and returns, in
    input order, exactly the maximal runs of ASCII letters that have no
    word character (a letter or a digit of any script, or the underscore)
    immediately before or after them, without the stop words and the
    tokens shorter than 3 characters. On ["The Quick-Fox jumps!! over THE
    lazy dog123"] the tokens "quick", "fox" and "jumps" are kept and "dog"
    is not. *)
Theorem extract_words_letter_words :
  (forall text : str,
     extract_words text = List.filter keep_word (letter_words (lower text))) /\
  extract_words (codes "The Quick-Fox jumps!! over THE lazy dog123") =
    map codes ["quick"; "fox"; "jumps"; "over"; "lazy"].
Proof.
  split; [apply extract_words_eq_cp|vm_compute; reflexivity].
Qed.

(** ** Texts joined by a separator *)

Lemma cons_nonempty_app_cp r rs rs' :
  cons_nonempty r (rs ++ rs') = cons_nonempty r rs ++ rs'.
Proof. destruct r; reflexivity. Qed.

Lemma runs_separator_cp p a sep b :
  p sep = false ->
  runs p (a ++ sep :: b) =
  (fst (runs p a), snd (runs p a) ++ split_runs p b).
Proof.
  intros Hsep. induction a as [|x a IH]; cbn [app runs].
  - rewrite Hsep. unfold split_runs. destruct (runs p b). reflexivity.
  - rewrite IH. destruct (runs p a) as [r rs]. cbn [fst snd].
    destruct (p x); cbn [fst snd]; [reflexivity|].
    rewrite cons_nonempty_app_cp. reflexivity.
Qed.

Lemma split_runs_separator_cp p a sep b :
  p sep = false ->
  split_runs p (a ++ sep :: b) = split_runs p a ++ split_runs p b.
Proof.
  intros Hsep. unfold split_runs at 1 2.
  rewrite runs_separator_cp by exact Hsep.
  destruct (runs p a) as [r rs]. cbn [fst snd]. apply cons_nonempty_app_cp.
Qed.

(** A property of the 256 characters of one byte holds of the code points
    below 256. *)
Lemma byte_cases (P : N -> Prop) :
  (forall a : ascii, P (N_of_ascii a)) -> forall c, (c < 256)%N -> P c.
Proof. intros H c Hc. rewrite <- (N_ascii_embedding c Hc). apply H. Qed.

Lemma lower_char_word_cp c :
  is_ascii c = true -> is_word_char (lower_char c) = is_word_char c.
Proof.
  intros Hc. apply N.ltb_lt in Hc.
  apply (byte_cases (fun c => is_word_char (lower_char c) = is_word_char c));
    [|lia].
  intros [[] [] [] [] [] [] [] []]; vm_compute; reflexivity.
Qed.

Lemma lower_ascii text :
  forallb is_ascii text = true -> lower text = map lower_char text.
Proof. unfold lower. intros ->. reflexivity. Qed.

(** Tokens never span an ASCII character that is no letter, digit or
    underscore: the tokens of two ASCII texts joined by such a character
    are the tokens of the first followed by those of the second. *)
Theorem extract_words_separator text1 sep text2 :
  forallb is_ascii text1 = true ->
  forallb is_ascii text2 = true ->
  is_ascii sep = true ->
  is_word_char sep = false ->
  extract_words (text1 ++ sep :: text2) =
  extract_words text1 ++ extract_words text2.
Proof.
  intros H1 H2 Ha Hsep. rewrite !extract_words_eq_cp.
  rewrite !lower_ascii; try assumption.
  2:{ rewrite forallb_app. cbn [forallb]. rewrite H1, Ha, H2. reflexivity. }
  rewrite map_app. cbn [map].
  unfold letter_words. rewrite split_runs_separator_cp.
  - rewrite List.filter_app, List.filter_app. reflexivity.
  - rewrite lower_char_word_cp by exact Ha. exact Hsep.
Qed.

(** ** The tokenizer on ASCII text *)

Lemma is_alpha_byte a : is_alpha (N_of_ascii a) = Tokenizer.is_alpha a.
Proof. destruct a as [[] [] [] [] [] [] [] []]; reflexivity. Qed.

Lemma is_word_char_byte a :
  is_ascii (N_of_ascii a) = true ->
  is_word_char (N_of_ascii a) = Tokenizer.is_word_char a.
Proof.
  destruct a as [[] [] [] [] [] [] [] []]; intros H;
    first [discriminate H|reflexivity].
Qed.

Lemma lower_char_byte a :
  is_ascii (N_of_ascii a) = true ->
  lower_char (N_of_ascii a) = N_of_ascii (Tokenizer.lower_char a) /\
  is_ascii (N_of_ascii (Tokenizer.lower_char a)) = true.
Proof.
  destruct a as [[] [] [] [] [] [] [] []]; intros H;
    first [discriminate H|split; reflexivity].
Qed.

Lemma lower_bytes s :
  forallb is_ascii (map N_of_ascii s) = true ->
  lower (map N_of_ascii s) = map N_of_ascii (Tokenizer.lower s) /\
  forallb is_ascii (map N_of_ascii (Tokenizer.lower s)) = true.
Proof.
  intros H. rewrite (lower_ascii _ H). unfold Tokenizer.lower.
  induction s as [|a s IH]; [split; reflexivity|].
  cbn [map forallb] in *. apply andb_true_iff in H as [Ha Hs].
  destruct (IH Hs) as [IH1 IH2]. destruct (lower_char_byte a Ha) as [E1 E2].
  rewrite IH1, E1, E2, IH2. split; reflexivity.
Qed.

Lemma cons_nonempty_bytes r rs :
  cons_nonempty (map N_of_ascii r) (map (map N_of_ascii) rs) =
  map (map N_of_ascii) (Tokenizer.cons_nonempty r rs).
Proof. destruct r; reflexivity. Qed.

Lemma runs_bytes s :
  forallb is_ascii (map N_of_ascii s) = true ->
  runs is_word_char (map N_of_ascii s) =
  (map N_of_ascii (fst (Tokenizer.runs Tokenizer.is_word_char s)),
   map (map N_of_ascii) (snd (Tokenizer.runs Tokenizer.is_word_char s))).
Proof.
  induction s as [|a s IH]; [reflexivity|]. cbn [map forallb runs Tokenizer.runs].
  intros H. apply andb_true_iff in H as [Ha Hs]. rewrite (IH Hs).
  rewrite (is_word_char_byte a Ha).
  destruct (Tokenizer.runs Tokenizer.is_word_char s) as [r rs]. cbn [fst snd].
  destruct (Tokenizer.is_word_char a); cbn [fst snd map]; [reflexivity|].
  rewrite cons_nonempty_bytes. reflexivity.
Qed.

Lemma forallb_alpha_bytes r :
  forallb is_alpha (map N_of_ascii r) = forallb Tokenizer.is_alpha r.
Proof.
  induction r as [|a r IH]; [reflexivity|]. cbn [map forallb].
  rewrite is_alpha_byte, IH. reflexivity.
Qed.

Lemma filter_alpha_bytes l :
  List.filter (forallb is_alpha) (map (map N_of_ascii) l) =
  map (map N_of_ascii) (List.filter (forallb Tokenizer.is_alpha) l).
Proof.
  induction l as [|r l IH]; [reflexivity|]. cbn [map List.filter].
  rewrite forallb_alpha_bytes, IH.
  destruct (forallb Tokenizer.is_alpha r); reflexivity.
Qed.

Lemma letter_words_bytes s :
  forallb is_ascii (map N_of_ascii s) = true ->
  letter_words (map N_of_ascii s) =
  map (map N_of_ascii) (Tokenizer.letter_words s).
Proof.
  intros H. unfold letter_words, Tokenizer.letter_words, split_runs,
    Tokenizer.split_runs.
  rewrite (runs_bytes s H).
  destruct (Tokenizer.runs Tokenizer.is_word_char s) as [r rs]. cbn [fst snd].
  rewrite cons_nonempty_bytes. apply filter_alpha_bytes.
Qed.

Lemma byte_eqb a b : (N_of_ascii a =? N_of_ascii b)%N = Ascii.eqb a b.
Proof.
  destruct (Ascii.eqb_spec a b) as [->|Hne]; [apply N.eqb_refl|].
  apply N.eqb_neq. intros H. apply Hne.
  rewrite <- (ascii_N_embedding a), <- (ascii_N_embedding b), H. reflexivity.
Qed.

Lemma str_eqb_bytes r : forall w,
  str_eqb (map N_of_ascii r) (codes w) =
  String.eqb (string_of_list_ascii r) w.
Proof.
  unfold codes. induction r as [|a r IH]; intros [|b w]; try reflexivity.
  cbn [map list_ascii_of_string string_of_list_ascii str_eqb String.eqb].
  rewrite byte_eqb, IH. destruct (Ascii.eqb a b); reflexivity.
Qed.

Lemma keep_word_bytes r :
  keep_word (map N_of_ascii r) = Tokenizer.keep_word (string_of_list_ascii r).
Proof.
  unfold keep_word, Tokenizer.keep_word, in_stop_words,
    Tokenizer.in_stop_words.
  f_equal.
  - f_equal. induction Tokenizer.STOP_WORDS as [|w l IH]; [reflexivity|].
    cbn [existsb]. rewrite str_eqb_bytes, IH. reflexivity.
  - rewrite length_map. f_equal.
    induction r as [|a r IH]; [reflexivity|]. cbn. rewrite IH. reflexivity.
Qed.

Lemma filter_keep_bytes l :
  List.filter keep_word (map (map N_of_ascii) l) =
  map codes (List.filter Tokenizer.keep_word (map string_of_list_ascii l)).
Proof.
  induction l as [|r l IH]; [reflexivity|]. cbn [map List.filter].
  rewrite keep_word_bytes, IH.
  destruct (Tokenizer.keep_word (string_of_list_ascii r)); [|reflexivity].
  cbn [map]. unfold codes at 2.
  rewrite list_ascii_of_string_of_list_ascii. reflexivity.
Qed.

(** On a text of ASCII characters the tokenizer is the ASCII tokenizer. *)
Lemma extract_words_ascii (text : string) :
  forallb is_ascii (codes text) = true ->
  extract_words (codes text) = map codes (Tokenizer.extract_words text).
Proof.
  intros H. rewrite extract_words_eq_cp, TokenizerMore.extract_words_eq.
  unfold codes at 1.
  destruct (lower_bytes _ H) as [-> Hl].
  rewrite (letter_words_bytes _ Hl). apply filter_keep_bytes.
Qed.

End WithUnicode.

(** C3, as stated, fails: the run "dog" of "dog123" has no alphabetic
    character next to it, yet [extract_words] does not return it. *)
Lemma extract_words_not_alpha_runs :
  extract_words (unicode := latin1) (codes "dog123") = [] /\
  spec_extract_words (unicode := latin1) (codes "dog123") = [codes "dog"] /\
  ~ (forall (unicode : Unicode) (text : str),
       extract_words text = spec_extract_words text).
Proof.
  split; [vm_compute; reflexivity|].
  split; [vm_compute; reflexivity|].
  intros H. specialize (H latin1 (codes "dog123")). vm_compute in H.
  discriminate H.
Qed.

Lemma extract_words_separator_witness :
  extract_words (unicode := latin1)
    (codes "Owls hunt" ++ 10%N :: codes "Wrens sing") =
  map codes ["owls"; "hunt"; "wrens"; "sing"].
Proof.
  rewrite (extract_words_separator (unicode := latin1) (codes "Owls hunt")
             10%N (codes "Wrens sing") eq_refl eq_refl eq_refl eq_refl).
  reflexivity.
Defined.

(** A letter beyond ASCII is a word character: of "Caf\u00e9 bar" only
    "bar" is a token, the letters "caf" are followed by one. *)
Lemma extract_words_cafe :
  extract_words (unicode := latin1) (codes "Caf" ++ [233%N] ++ codes " bar") =
    [codes "bar"].
Proof. vm_compute. reflexivity. Qed.

End UnicodeTextFacts.


(* ===================================================================== *)
(** * More about the pipeline *)
(* ===================================================================== *)

Module PipelineMore.
Import Json Analyzer Examples CacheFacts PipelineFacts AnalyzerMore ExamplesMore.

(** ** Names of cache files *)

Lemma safe_char_safe c : is_safe_char (safe_char c) = true.
Proof. destruct c as [[] [] [] [] [] [] [] []]; reflexivity. Qed.

Lemma safe_char_no_slash c : Ascii.eqb (safe_char c) "/" = false.
Proof. destruct c as [[] [] [] [] [] [] [] []]; reflexivity. Qed.

Lemma string_length_of_list l :
  String.length (string_of_list_ascii l) = List.length l.
Proof. induction l as [|c l IH]; cbn; [reflexivity|]. rewrite IH. reflexivity. Qed.

Lemma string_length_list s :
  List.length (list_ascii_of_string s) = String.length s.
Proof. induction s as [|c s IH]; cbn; [reflexivity|]. rewrite IH. reflexivity. Qed.

(** The slug is safe for a file name: it has the length of the category,
    all its characters are letters, digits, underscores or hyphens, and a
    category made of such characters is its own slug. *)
Theorem safe_category_spec category :
  String.length (safe_category category) = String.length category /\
  forallb is_safe_char (list_ascii_of_string (safe_category category)) = true /\
  (forallb is_safe_char (list_ascii_of_string category) = true ->
   safe_category category = category).
Proof.
  unfold safe_category. split; [|split].
  - rewrite string_length_of_list, length_map. apply string_length_list.
  - rewrite list_ascii_of_string_of_list_ascii.
    apply forallb_forall. intros c Hc.
    apply in_map_iff in Hc as (c0 & <- & _). apply safe_char_safe.
  - intros H. rewrite <- (string_of_list_ascii_of_string category) at 2.
    f_equal. induction (list_ascii_of_string category) as [|c l IH];
      [reflexivity|].
    cbn in H. apply andb_true_iff in H as [Hc Hl].
    cbn [map]. rewrite (IH Hl). unfold safe_char. rewrite Hc. reflexivity.
Qed.

Lemma safe_category_spec_witness :
  safe_category "Machine_learning" = "Machine_learning" /\
  safe_category "../AC/DC (band)" = "___AC_DC__band_".
Proof.
  split; [|reflexivity].
  apply (proj2 (proj2 (safe_category_spec "Machine_learning"))). reflexivity.
Defined.

Lemma string_app_length (a b : string) :
  String.length (a ++ b)%string = (String.length a + String.length b)%nat.
Proof. induction a as [|c a IH]; simpl; [reflexivity|]. rewrite IH. reflexivity. Qed.

Lemma string_app_inj (a b x y : string) :
  String.length a = String.length b ->
  (a ++ x = b ++ y)%string -> a = b /\ x = y.
Proof.
  revert b. induction a as [|c a IH]; intros [|d b]; simpl; try discriminate.
  - auto.
  - intros [= Hlen] [= -> H]. destruct (IH b Hlen H) as [-> ->]. auto.
Qed.

Lemma substring_length n : forall s,
  (n <= String.length s)%nat -> String.length (substring 0 n s) = n.
Proof.
  induction n as [|n IH]; intros [|c s]; cbn; try lia; auto.
  intros H. rewrite IH by lia. reflexivity.
Qed.

Lemma safe_category_relative category (x : string) :
  is_absolute (safe_category category ++ "_" ++ x) = false.
Proof.
  unfold safe_category. destruct (list_ascii_of_string category) as [|c l];
    [reflexivity|]. cbn. apply safe_char_no_slash.
Qed.

Section WithLibrary.
Context {lib : Library}.

(** Two categories get the same cache file of a kind exactly when their
    slugs agree and the first eight digits of their digests agree: where
    slugging maps two categories to one slug, only the digest keeps their
    files apart. *)
Theorem cache_filename_collision self category1 category2 cache_type :
  (8 <= String.length (md5_hexdigest category1))%nat ->
  (8 <= String.length (md5_hexdigest category2))%nat ->
  _get_cache_filename self category1 cache_type =
    _get_cache_filename self category2 cache_type <->
  safe_category category1 = safe_category category2 /\
  substring 0 8 (md5_hexdigest category1) =
    substring 0 8 (md5_hexdigest category2).
Proof.
  intros H1 H2. unfold _get_cache_filename.
  fold (safe_category category1). fold (safe_category category2).
  split.
  - intros H. apply path_join_inj in H.
    2:{ rewrite !safe_category_relative. reflexivity. }
    pose proof (f_equal String.length H) as Hlen.
    rewrite !string_app_length in Hlen.
    rewrite !substring_length in Hlen by assumption.
    apply string_app_inj in H as [Hs H]; [|lia].
    split; [exact Hs|].
    apply (string_app_inj "_" "_") in H as [_ H]; [|reflexivity].
    apply (string_app_inj (substring 0 8 (md5_hexdigest category1))
             (substring 0 8 (md5_hexdigest category2))) in H as [Hh _];
      [exact Hh|].
    rewrite !substring_length by assumption. reflexivity.
  - intros [-> ->]. reflexivity.
Qed.

(** ** Pagination *)

Lemma fetch_pages_listing_gen w category param titles n :
  listing w category param titles n ->
  forall fuel pages continue_token w0,
    cmcontinue_param continue_token = param ->
    categorymembers w0 = categorymembers w ->
    (n <= fuel)%nat ->
    exists w',
      fetch_pages fuel category pages continue_token w0 =
        Return (pages ++ titles) w' /\
      requests w' = (requests w0 + n)%nat /\
      now w' = now w0 + 100000 * (Z.of_nat n - 1) /\
      fs w' = fs w0.
Proof.
  induction 1 as [param Hr|param Hr|param titles Hr|param titles t rest n Hr Hl IH];
    intros fuel pages token w0 Hp Hcm Hfuel;
    (destruct fuel as [|fuel]; [lia|]); cbn [fetch_pages];
    cbn [send_request categorymembers]; rewrite Hp, Hcm, Hr.
  - eexists. split; [rewrite app_nil_r; reflexivity|]. cbn. repeat split; lia.
  - eexists. split; [rewrite app_nil_r; reflexivity|]. cbn. repeat split; lia.
  - eexists. split; [reflexivity|]. cbn. repeat split; lia.
  - destruct (IH fuel (pages ++ titles) (Some t)
                (sleep (send_request w0)) eq_refl Hcm ltac:(lia))
      as (w' & Hf & Hreq & Hnow & Hfs).
    exists w'. split; [rewrite Hf, app_assoc; reflexivity|].
    cbn in Hreq, Hnow, Hfs. repeat split; try lia. exact Hfs.
Qed.

(** The loop of [get_category_members] returns the titles of all batches
    in the order received, also when the listing ends on an error; it
    sends one request per batch, sleeps 0.1 s between two batches and does
    not touch the cache directory. *)
Theorem fetch_pages_listing fuel category w titles n :
  listing w category None titles n ->
  (n <= fuel)%nat ->
  exists w',
    fetch_pages fuel category [] None w = Return titles w' /\
    requests w' = (requests w + n)%nat /\
    now w' = now w + 100000 * (Z.of_nat n - 1) /\
    fs w' = fs w.
Proof.
  intros Hl Hfuel.
  apply (fetch_pages_listing_gen _ _ _ _ _ Hl fuel [] None w eq_refl eq_refl Hfuel).
Qed.


(** ** The members cache *)




Lemma is_cache_valid_same self cache_file w w' :
  fs w' = fs w -> now w' = now w ->
  _is_cache_valid self cache_file w' = _is_cache_valid self cache_file w.
Proof. unfold _is_cache_valid. intros -> ->. reflexivity. Qed.

(** ** The loop over the pages *)

Lemma process_pages_gen titles : forall all_words processed w,
  exists w',
    process_pages titles all_words processed w =
      Return (all_words ++ flat_map (page_words w) titles,
              (processed + List.length (List.filter (has_content w) titles))%nat)
        w' /\
    requests w' = (requests w + List.length titles)%nat /\
    now w' = now w + 100000 * Z.of_nat (List.length titles) /\
    fs w' = fs w.
Proof.
  induction titles as [|title titles IH]; intros all_words processed w.
  - exists w. cbn. rewrite app_nil_r, Nat.add_0_r.
    repeat split; lia.
  - cbn [process_pages flat_map List.filter List.length]. unfold bind at 1.
    unfold get_page_content, page_words at 1, has_content at 1.
    cbn [extracts send_request].
    assert (Hpw : forall t, page_words (sleep (send_request w)) t =
                            page_words w t) by reflexivity.
    assert (Hhc : forall t, has_content (sleep (send_request w)) t =
                            has_content w t) by reflexivity.
    assert (Hfm : flat_map (page_words (sleep (send_request w))) titles =
                  flat_map (page_words w) titles) by reflexivity.
    assert (Hfl : List.filter (has_content (sleep (send_request w))) titles =
                  List.filter (has_content w) titles) by reflexivity.
    destruct (extracts w title) as [|text|].
    + destruct (IH all_words processed (sleep (send_request w)))
        as (w' & Hp & Hreq & Hnow & Hfs).
      exists w'. cbn [String.eqb negb]. unfold bind, effect. rewrite Hp.
      rewrite Hfm, Hfl. cbn in Hreq, Hnow, Hfs.
      split; [reflexivity|]. repeat split; try lia. exact Hfs.
    + destruct (String.eqb_spec text "") as [->|Hne]; cbn [negb].
      * destruct (IH all_words processed (sleep (send_request w)))
          as (w' & Hp & Hreq & Hnow & Hfs).
        exists w'. unfold bind, effect. rewrite Hp.
        rewrite Hfm, Hfl. cbn in Hreq, Hnow, Hfs.
        split; [reflexivity|]. repeat split; try lia. exact Hfs.
      * destruct (IH (all_words ++ Tokenizer.extract_words text) (S processed)
                    (sleep (send_request w)))
          as (w' & Hp & Hreq & Hnow & Hfs).
        exists w'. unfold bind, effect. rewrite Hp.
        rewrite Hfm, Hfl. cbn in Hreq, Hnow, Hfs.
        split; [rewrite <- app_assoc; cbn [List.length]; do 2 f_equal; lia|].
        repeat split; try lia. exact Hfs.
    + destruct (IH all_words processed (sleep (send_request w)))
        as (w' & Hp & Hreq & Hnow & Hfs).
      exists w'. cbn [String.eqb negb]. unfold bind, effect. rewrite Hp.
      rewrite Hfm, Hfl. cbn in Hreq, Hnow, Hfs.
      split; [reflexivity|]. repeat split; try lia. exact Hfs.
Qed.

(** When every answer to a page query is a transport failure or a body
    of the shape the API documents, with an extract or without, the loop
    over the page titles returns: it sends exactly one request per title
    and sleeps 0.1 s after each, collects the words of the pages in the
    order of the titles, counts the pages that have text, and leaves the
    cache directory alone. *)
Theorem process_pages_spec titles w :
  exists w',
    process_pages titles [] 0 w =
      Return (flat_map (page_words w) titles,
              List.length (List.filter (has_content w) titles)) w' /\
    (List.length (List.filter (has_content w) titles)
       <= List.length titles)%nat /\
    requests w' = (requests w + List.length titles)%nat /\
    now w' = now w + 100000 * Z.of_nat (List.length titles) /\
    fs w' = fs w.
Proof.
  destruct (process_pages_gen titles [] 0%nat w) as (w' & Hp & Hreq & Hnow & Hfs).
  exists w'. split; [exact Hp|]. split; [apply List.filter_length_le|auto].
Qed.


(** ** Counting *)

Lemma assoc_count_word word k t :
  assoc k (count_word word t) =
  if String.eqb k word
  then Some (match assoc k t with Some n => n + 1 | None => 1 end)
  else assoc k t.
Proof.
  induction t as [|[k' n] t IH]; cbn [count_word assoc].
  - destruct (String.eqb k word); reflexivity.
  - destruct (String.eqb_spec word k') as [->|Hne]; cbn [assoc].
    + destruct (String.eqb_spec k k') as [->|Hk]; reflexivity.
    + destruct (String.eqb_spec k k') as [->|Hk].
      * destruct (String.eqb_spec k' word) as [->|_]; [congruence|reflexivity].
      * exact IH.
Qed.

Lemma assoc_fold_count word words : forall t,
  assoc word (fold_left (fun t w => count_word w t) words t) =
  match assoc word t, occurrences word words with
  | None, O => None
  | None, n => Some (Z.of_nat n)
  | Some m, n => Some (m + Z.of_nat n)
  end.
Proof.
  unfold occurrences.
  induction words as [|w words IH]; intros t; cbn [fold_left count_occ].
  - destruct (assoc word t); [f_equal; lia|reflexivity].
  - rewrite IH, assoc_count_word.
    destruct (string_dec w word) as [->|Hne].
    + rewrite String.eqb_refl.
      destruct (assoc word t); f_equal; lia.
    + destruct (String.eqb_spec word w) as [->|_]; [congruence|].
      reflexivity.
Qed.

(** The count of a word in [Counter(all_words)] is the number of times it
    occurs in [all_words]; a word that does not occur is no key. *)
Lemma Counter_occurrences all_words word :
  assoc word (Counter all_words) =
  if (occurrences word all_words =? 0)%nat then None
  else Some (Z.of_nat (occurrences word all_words)).
Proof.
  unfold Counter. rewrite assoc_fold_count. cbn [assoc].
  destruct (occurrences word all_words); reflexivity.
Qed.


Lemma py_get_table_json (t : table) word :
  py_get (table_json t) word =
  Ok (match assoc word t with Some n => JInt n | None => JNull end).
Proof.
  unfold py_get, table_json. f_equal.
  induction t as [|[k n] t IH]; cbn; [reflexivity|].
  destruct (String.eqb word k); [reflexivity|exact IH].
Qed.

(** In a run that the analysis cache does not serve, the table returned
    maps every word to the number of times it occurs among the words
    collected from the pages of the category, and has no entry for a word
    that does not occur. *)
Theorem analyze_category_frequencies fuel self category w T w' :
  cached_analysis self category w = Return None w ->
  analyze_category fuel self category w = Return T w' ->
  exists page_titles w1 titles,
    get_category_members fuel self category w = Return page_titles w1 /\
    (if truthy page_titles then py_iter page_titles = Ok titles
     else titles = []) /\
    forall word,
      let n := occurrences word (flat_map (page_words w) titles) in
      py_get T word = Ok (if (n =? 0)%nat then JNull else JInt (Z.of_nat n)).
Proof.
  intros Hmiss Hrun.
  rewrite (analyze_category_miss _ _ _ _ Hmiss) in Hrun.
  apply analyze_uncached_inv in Hrun
    as (page_titles & w1 & Hm & [(Ht & -> & ->)|(Ht & Hrest)]).
  - exists page_titles, w1, []. rewrite Ht.
    split; [exact Hm|]. split; [reflexivity|]. intros word. reflexivity.
  - destruct Hrest as (titles & processed & w2 & Hit & _ & _ & _ & -> & _).
    exists page_titles, w1, titles. rewrite Ht.
    split; [exact Hm|]. split; [exact Hit|]. intros word. cbn zeta.
    rewrite py_get_table_json, Counter_occurrences.
    destruct (_ =? _)%nat; reflexivity.
Qed.

(** ** Cache documents of the wrong shape *)


(** ** Saving is best effort *)

Lemma respects_ret {A} (a : A) : respects (ret a).
Proof. intros w w' H. split; [reflexivity|exact H]. Qed.

Lemma respects_lift {A} (r : result A) : respects (lift r).
Proof. intros w w' H. destruct r; (split; [reflexivity|exact H]). Qed.

Lemma respects_bind {A B} (m : M A) (k : A -> M B) :
  respects m -> (forall a, respects (k a)) -> respects (bind m k).
Proof.
  intros Hm Hk w w' H. unfold bind. destruct (Hm w w' H) as [Hv Hs].
  destruct (m w) as [a w1|e w1|w1], (m w') as [a' w1'|e' w1'|w1'];
    cbn in Hv, Hs; try discriminate; cbn [verdict_of world_of].
  - injection Hv as ->. apply Hk, Hs.
  - injection Hv as ->. split; [reflexivity|exact Hs].
  - split; [reflexivity|exact Hs].
Qed.

Lemma respects_datetime_now : respects datetime_now.
Proof.
  intros w w' H. unfold datetime_now. cbn.
  pose proof H as (Hn & _). rewrite Hn. split; [reflexivity|exact H].
Qed.

Lemma respects_sleep : respects (effect sleep).
Proof.
  intros w w' (Hn & Hr & Hc & He). split; [reflexivity|].
  unfold same_remote. cbn. repeat split; auto. lia.
Qed.

Lemma respects_save cache_file doc : respects (_save_cache cache_file doc).
Proof.
  intros w w' (Hn & Hr & Hc & He). unfold _save_cache, open_w.
  destruct (writable w cache_file), (writable w' cache_file);
    (split; [reflexivity|]); unfold same_remote; cbn; repeat split; auto.
Qed.

Lemma respects_get_page_content title : respects (get_page_content title).
Proof.
  intros w w' (Hn & Hr & Hc & He). unfold get_page_content.
  cbn [send_request extracts]. rewrite He.
  destruct (extracts w title); (split; [reflexivity|]);
    unfold same_remote; cbn; repeat split; auto.
Qed.

Lemma respects_process_pages titles : forall all_words processed,
  respects (process_pages titles all_words processed).
Proof.
  induction titles as [|title titles IH]; intros all_words processed.
  - apply respects_ret.
  - cbn [process_pages]. apply respects_bind;
      [apply respects_get_page_content|]. intros content.
    destruct (negb (String.eqb content ""));
      (apply respects_bind; [apply respects_sleep|]); intros _; apply IH.
Qed.

Lemma respects_fetch_pages fuel category : forall pages token,
  respects (fetch_pages fuel category pages token).
Proof.
  induction fuel as [|fuel IH]; intros pages token w w' H.
  - split; [reflexivity|exact H].
  - cbn [fetch_pages]. destruct H as (Hn & Hr & Hc & He).
    cbn [send_request categorymembers]. rewrite Hc.
    assert (Hs : same_remote (send_request w) (send_request w')).
    { unfold same_remote. cbn. repeat split; auto. }
    destruct (categorymembers w category _) as [| |titles [t|]];
      try (split; [reflexivity|exact Hs]).
    apply IH. destruct Hs as (Hn' & Hr' & Hc' & He').
    unfold same_remote. cbn in *. repeat split; auto. lia.
Qed.

Lemma respects_fetch_category_members fuel self category :
  respects (fetch_category_members fuel self category).
Proof.
  unfold fetch_category_members.
  apply respects_bind; [apply respects_fetch_pages|]. intros pages.
  apply respects_bind; [apply respects_datetime_now|]. intros t. cbn zeta.
  apply respects_bind; [apply respects_save|]. intros _. apply respects_ret.
Qed.

Lemma respects_analyze_rest self category page_titles :
  respects (if negb (truthy page_titles) then ret (JObj [])
            else
              let* _ := lift (py_len page_titles) in
              let* titles := lift (py_iter page_titles) in
              let* (all_words, processed_pages) := process_pages titles [] 0 in
              let word_freq_dict := Counter all_words in
              let* analyzed_at := datetime_now in
              let analysis :=
                analysis_data category word_freq_dict analyzed_at
                  processed_pages in
              let* _ := _save_cache
                          (_get_cache_filename self category "analysis")
                          analysis in
              ret (table_json word_freq_dict)).
Proof.
  destruct (negb (truthy page_titles)); [apply respects_ret|].
  apply respects_bind; [apply respects_lift|]. intros _.
  apply respects_bind; [apply respects_lift|]. intros titles.
  apply respects_bind; [apply respects_process_pages|]. intros [all_words n].
  cbn zeta.
  apply respects_bind; [apply respects_datetime_now|]. intros t.
  apply respects_bind; [apply respects_save|]. intros _. apply respects_ret.
Qed.

(** The two cache checks read the directory and the clock only. *)
Lemma cached_analysis_writable self category wr w :
  verdict_of (cached_analysis self category (with_writable wr w)) =
    verdict_of (cached_analysis self category w) /\
  world_of (cached_analysis self category (with_writable wr w)) =
    with_writable wr w /\
  world_of (cached_analysis self category w) = w.
Proof.
  unfold cached_analysis.
  rewrite (is_cache_valid_same self _ w (with_writable wr w) eq_refl eq_refl).
  destruct (_is_cache_valid _ _ w); [|auto].
  unfold bind, _load_cache, lift, ret. cbn [with_writable fs].
  destruct (fs w !! _) as [f|]; [destruct (data f) as [| |v]|]; cbn; auto.
  destruct (py_get v "word_frequencies") as [x|]; cbn; auto.
  destruct (truthy x); cbn; auto.
  destruct (py_len x); cbn; auto.
  destruct (py_sum_values x); cbn; auto.
Qed.

Lemma cached_members_writable self category wr w :
  verdict_of (cached_members self category (with_writable wr w)) =
    verdict_of (cached_members self category w) /\
  world_of (cached_members self category (with_writable wr w)) =
    with_writable wr w /\
  world_of (cached_members self category w) = w.
Proof.
  unfold cached_members.
  rewrite (is_cache_valid_same self _ w (with_writable wr w) eq_refl eq_refl).
  destruct (_is_cache_valid _ _ w); [|auto].
  unfold bind, _load_cache, lift, ret. cbn [with_writable fs].
  destruct (fs w !! _) as [f|]; [destruct (data f) as [| |v]|]; cbn; auto.
  destruct (py_get v "pages") as [x|]; cbn; auto.
  destruct (truthy x); cbn; auto.
  destruct (py_len x); cbn; auto.
Qed.

Lemma same_remote_with_writable wr w : same_remote w (with_writable wr w).
Proof. unfold same_remote. cbn. auto. Qed.

Lemma bind_checked {A B} (m : M (option A)) (k : option A -> M B) w w' :
  verdict_of (m w') = verdict_of (m w) ->
  world_of (m w') = w' -> world_of (m w) = w ->
  (forall r, verdict_of (k r w') = verdict_of (k r w) /\
             same_remote (world_of (k r w)) (world_of (k r w'))) ->
  same_remote w w' ->
  verdict_of (bind m k w') = verdict_of (bind m k w) /\
  same_remote (world_of (bind m k w)) (world_of (bind m k w')).
Proof.
  intros Hv Hw' Hw Hk Hs. unfold bind.
  destruct (m w) as [a w1|e w1|w1], (m w') as [a' w1'|e' w1'|w1'];
    cbn in Hv, Hw, Hw'; try discriminate; subst w1 w1';
    cbn [verdict_of world_of].
  - injection Hv as ->. apply Hk.
  - injection Hv as ->. split; [reflexivity|exact Hs].
  - split; [reflexivity|exact Hs].
Qed.

Lemma get_category_members_writable fuel self category wr w :
  verdict_of (get_category_members fuel self category (with_writable wr w)) =
    verdict_of (get_category_members fuel self category w) /\
  same_remote (world_of (get_category_members fuel self category w))
    (world_of (get_category_members fuel self category (with_writable wr w))).
Proof.
  unfold get_category_members.
  destruct (cached_members_writable self category wr w) as (Hv & Hw' & Hw).
  apply bind_checked; auto using same_remote_with_writable.
  intros [pages|].
  - split; [reflexivity|apply same_remote_with_writable].
  - apply respects_fetch_category_members, same_remote_with_writable.
Qed.

(** What [analyze_category] returns, or how it fails, does not depend on
    which paths can be written: a save that fails changes nothing but the
    cache directory. *)
Theorem analyze_category_whatever_writable fuel self category wr w :
  verdict_of (analyze_category fuel self category (with_writable wr w)) =
  verdict_of (analyze_category fuel self category w).
Proof.
  unfold analyze_category.
  destruct (cached_analysis_writable self category wr w) as (Hv & Hw' & Hw).
  apply bind_checked; auto using same_remote_with_writable.
  intros [word_frequencies|].
  - split; [reflexivity|apply same_remote_with_writable].
  - unfold analyze_uncached.
    destruct (get_category_members_writable fuel self category wr w)
      as (Hgv & Hgs).
    unfold bind.
    destruct (get_category_members fuel self category w)
      as [a w1|e w1|w1],
      (get_category_members fuel self category (with_writable wr w))
      as [a' w1'|e' w1'|w1'];
      cbn in Hgv, Hgs; try discriminate; cbn [verdict_of world_of].
    + injection Hgv as ->.
      apply (respects_analyze_rest self category a w1 w1' Hgs).
    + injection Hgv as ->. split; [reflexivity|exact Hgs].
    + split; [reflexivity|exact Hgs].
Qed.


(** ** No file from the future *)

Lemma keeps_past_ret {A} (a : A) : keeps_past (ret a).
Proof. intros w H. exact H. Qed.

Lemma keeps_past_lift {A} (r : result A) : keeps_past (lift r).
Proof. intros w H. destruct r; exact H. Qed.

Lemma keeps_past_bind {A B} (m : M A) (k : A -> M B) :
  keeps_past m -> (forall a, keeps_past (k a)) -> keeps_past (bind m k).
Proof.
  intros Hm Hk w H. unfold bind. specialize (Hm w H).
  destruct (m w) as [a w'|e w'|w']; cbn in *; auto. apply Hk, Hm.
Qed.

Lemma past_fs_later w w' :
  fs w' = fs w -> now w <= now w' -> past_fs w -> past_fs w'.
Proof.
  intros Hfs Hnow H cache_file f Hf. rewrite Hfs in Hf.
  specialize (H _ _ Hf). lia.
Qed.

Lemma past_fs_write cache_file c w :
  past_fs w -> past_fs (write_file cache_file c w).
Proof.
  intros H other f. unfold write_file. cbn [fs set_fs now].
  destruct (decide (cache_file = other)) as [->|Hne].
  - rewrite lookup_insert_eq. intros [= <-]. cbn. lia.
  - rewrite lookup_insert_ne by exact Hne. apply H.
Qed.

Lemma keeps_past_datetime_now : keeps_past datetime_now.
Proof. intros w H. exact H. Qed.

Lemma keeps_past_sleep : keeps_past (effect sleep).
Proof.
  intros w H. eapply past_fs_later; [| |exact H]; cbn; [reflexivity|lia].
Qed.

Lemma keeps_past_load cache_file : keeps_past (_load_cache cache_file).
Proof.
  intros w H. unfold _load_cache.
  destruct (fs w !! cache_file) as [f|]; [destruct (data f)|]; exact H.
Qed.

Lemma keeps_past_save cache_file doc : keeps_past (_save_cache cache_file doc).
Proof.
  intros w H. unfold _save_cache, open_w, json_dump.
  destruct (writable w cache_file); cbn [world_of]; [|exact H].
  apply past_fs_write, past_fs_write, H.
Qed.

Lemma keeps_past_get_page_content title : keeps_past (get_page_content title).
Proof.
  intros w H. unfold get_page_content.
  destruct (extracts (send_request w) title); exact H.
Qed.

Lemma keeps_past_process_pages titles : forall all_words processed,
  keeps_past (process_pages titles all_words processed).
Proof.
  induction titles as [|title titles IH]; intros all_words processed.
  - apply keeps_past_ret.
  - cbn [process_pages]. apply keeps_past_bind;
      [apply keeps_past_get_page_content|]. intros content.
    destruct (negb (String.eqb content ""));
      (apply keeps_past_bind; [apply keeps_past_sleep|]); intros _; apply IH.
Qed.

Lemma keeps_past_fetch_pages fuel category : forall pages token,
  keeps_past (fetch_pages fuel category pages token).
Proof.
  induction fuel as [|fuel IH]; intros pages token w H; cbn [fetch_pages].
  - exact H.
  - destruct (categorymembers _ _ _) as [| |titles [t|]]; try exact H.
    apply IH. eapply past_fs_later; [| |exact H]; cbn; [reflexivity|lia].
Qed.

Lemma keeps_past_cached_members self category :
  keeps_past (cached_members self category).
Proof.
  intros w. unfold cached_members.
  destruct (_is_cache_valid _ _ w); [|auto].
  apply keeps_past_bind; [apply keeps_past_load|]. intros doc.
  apply keeps_past_bind; [apply keeps_past_lift|]. intros v.
  destruct (truthy v); [|apply keeps_past_ret].
  apply keeps_past_bind; [apply keeps_past_lift|]. intros _.
  apply keeps_past_ret.
Qed.

Lemma keeps_past_cached_analysis self category :
  keeps_past (cached_analysis self category).
Proof.
  intros w. unfold cached_analysis.
  destruct (_is_cache_valid _ _ w); [|auto].
  apply keeps_past_bind; [apply keeps_past_load|]. intros doc.
  apply keeps_past_bind; [apply keeps_past_lift|]. intros v.
  destruct (truthy v); [|apply keeps_past_ret].
  apply keeps_past_bind; [apply keeps_past_lift|]. intros _.
  apply keeps_past_bind; [apply keeps_past_lift|]. intros _.
  apply keeps_past_ret.
Qed.

Lemma keeps_past_get_category_members fuel self category :
  keeps_past (get_category_members fuel self category).
Proof.
  unfold get_category_members.
  apply keeps_past_bind; [apply keeps_past_cached_members|].
  intros [pages|]; [apply keeps_past_ret|].
  unfold fetch_category_members.
  apply keeps_past_bind; [apply keeps_past_fetch_pages|]. intros pages.
  apply keeps_past_bind; [apply keeps_past_datetime_now|]. intros t.
  cbn zeta.
  apply keeps_past_bind; [apply keeps_past_save|]. intros _.
  apply keeps_past_ret.
Qed.

(** However a call of [analyze_category] ends, it leaves no cache file
    with a modification time after the current time if there was none
    before: a file it writes is stamped with the clock, which only moves
    forward. *)
Theorem analyze_category_keeps_past fuel self category w :
  past_fs w ->
  past_fs (world_of (analyze_category fuel self category w)).
Proof.
  revert w. change (keeps_past (analyze_category fuel self category)).
  unfold analyze_category.
  apply keeps_past_bind; [apply keeps_past_cached_analysis|].
  intros [word_frequencies|]; [apply keeps_past_ret|].
  unfold analyze_uncached.
  apply keeps_past_bind; [apply keeps_past_get_category_members|].
  intros page_titles.
  destruct (negb (truthy page_titles)); [apply keeps_past_ret|].
  apply keeps_past_bind; [apply keeps_past_lift|]. intros _.
  apply keeps_past_bind; [apply keeps_past_lift|]. intros titles.
  apply keeps_past_bind; [apply keeps_past_process_pages|].
  intros [all_words n]. cbn zeta.
  apply keeps_past_bind; [apply keeps_past_datetime_now|]. intros t.
  apply keeps_past_bind; [apply keeps_past_save|]. intros _.
  apply keeps_past_ret.
Qed.


(** ** A whole run *)

Lemma save_cache_clock cache_file doc w :
  now (world_of (_save_cache cache_file doc w)) = now w /\
  requests (world_of (_save_cache cache_file doc w)) = requests w /\
  extracts (world_of (_save_cache cache_file doc w)) = extracts w /\
  writable (world_of (_save_cache cache_file doc w)) = writable w.
Proof.
  unfold _save_cache, open_w. destruct (writable w cache_file); cbn; auto.
Qed.

Lemma fetch_category_members_listing fuel self category w titles n :
  listing w category None titles n ->
  (n <= fuel)%nat ->
  exists w0,
    fetch_pages fuel category [] None w = Return titles w0 /\
    requests w0 = (requests w + n)%nat /\
    now w0 = now w + 100000 * (Z.of_nat n - 1) /\
    fs w0 = fs w /\ extends w w0 /\
    fetch_category_members fuel self category w =
      Return (JList (map JStr titles))
        (world_of (_save_cache (_get_cache_filename self category "members")
                     (members_data category titles (now w0)) w0)).
Proof.
  intros Hl Hfuel.
  destruct (fetch_pages_listing_gen _ _ _ _ _ Hl fuel [] None w
              eq_refl eq_refl Hfuel) as (w0 & Hf & Hreq & Hnow & Hfs).
  cbn [app] in Hf. exists w0. repeat (split; [assumption|]).
  split.
  - pose proof (steady_fetch_pages fuel category [] None w) as He.
    rewrite Hf in He. exact He.
  - unfold fetch_category_members, bind. rewrite Hf. cbn [datetime_now].
    destruct (_save_cache _ _ w0) as [[] w1|e w1|w1] eqn:Hs;
      unfold _save_cache in Hs; destruct (open_w _ w0); try discriminate;
      reflexivity.
Qed.

(** When the members cache serves nothing and the listing ends within
    the fuel, [get_category_members] returns the titles listed, also when
    there are none or the listing broke off on an error, and writes them
    with their number to the members file where that can be written. *)
Theorem get_category_members_fetch fuel self category w titles n :
  cached_members self category w = Return None w ->
  listing w category None titles n ->
  (n <= fuel)%nat ->
  writable w (_get_cache_filename self category "members") = true ->
  exists w' t doc,
    get_category_members fuel self category w =
      Return (JList (map JStr titles)) w' /\
    requests w' = (requests w + n)%nat /\
    fs w' = <[_get_cache_filename self category "members" :=
                {| mtime := t; data := Document doc |}]> (fs w) /\
    t = now w' /\
    py_get doc "pages" = Ok (JList (map JStr titles)) /\
    py_get doc "total_pages" = Ok (JInt (Z.of_nat (List.length titles))).
Proof.
  intros Hmiss Hl Hfuel Hwr.
  destruct (fetch_category_members_listing fuel self category w titles n
              Hl Hfuel) as (w0 & _ & Hreq & _ & Hfs & He & Hf).
  assert (Hw0 : writable w0 (_get_cache_filename self category "members")
                = true).
  { destruct He as (-> & _). exact Hwr. }
  rewrite save_cache_writable in Hf by exact Hw0. cbn [world_of] in Hf.
  eexists _, _, _. split.
  - unfold get_category_members, bind at 1. rewrite Hmiss. exact Hf.
  - cbn [write_file set_fs requests fs now]. rewrite Hfs.
    repeat split; try reflexivity. exact Hreq.
Qed.

(** A run of [analyze_category] that neither cache serves, for a
    category whose listing ends within the fuel, returns the count of the
    words of the pages listed, in the order of the listing; it sends one
    request per batch and one per page, and takes the 0.1 s between two
    batches and after each page. *)
Theorem analyze_category_fresh fuel self category w titles n :
  cached_analysis self category w = Return None w ->
  cached_members self category w = Return None w ->
  listing w category None titles n ->
  (n <= fuel)%nat ->
  exists w',
    analyze_category fuel self category w =
      Return (table_json
                (Counter (flat_map (page_words w) (map JStr titles)))) w' /\
    requests w' = (requests w + n + List.length titles)%nat /\
    now w' =
      now w + 100000 * (Z.of_nat n - 1 + Z.of_nat (List.length titles)).
Proof.
  intros Ha Hm Hl Hfuel.
  destruct (fetch_category_members_listing fuel self category w titles n
              Hl Hfuel) as (w0 & _ & Hreq & Hnow & _ & He & Hf).
  set (w1 := world_of (_save_cache (_get_cache_filename self category "members")
                         (members_data category titles (now w0)) w0)) in *.
  destruct (save_cache_clock (_get_cache_filename self category "members")
              (members_data category titles (now w0)) w0)
    as (Hn1 & Hr1 & He1 & _).
  fold w1 in Hn1, Hr1, He1.
  assert (Hg : get_category_members fuel self category w =
               Return (JList (map JStr titles)) w1).
  { unfold get_category_members, bind at 1. rewrite Hm. exact Hf. }
  rewrite (analyze_category_miss _ _ _ _ Ha).
  unfold analyze_uncached, bind at 1. rewrite Hg.
  destruct titles as [|title titles].
  - exists w1. split; [reflexivity|]. cbn [List.length]. split; lia.
  - set (ts := title :: titles) in *.
    change (truthy (JList (map JStr ts))) with true. cbn [negb].
    unfold bind at 1. cbn [lift py_len].
    unfold bind at 1. cbn [lift py_iter].
    destruct (process_pages_gen (map JStr ts) [] 0%nat w1)
      as (w2 & Hp & Hreq2 & Hnow2 & _).
    unfold bind at 1. rewrite Hp. cbn [app].
    assert (Hpw : flat_map (page_words w1) (map JStr ts) =
                  flat_map (page_words w) (map JStr ts)).
    { unfold page_words. rewrite He1. destruct He as (_ & _ & -> & _).
      reflexivity. }
    rewrite Hpw. unfold bind at 1. cbn [datetime_now].
    set (doc := analysis_data _ _ _ _).
    destruct (save_cache_clock (_get_cache_filename self category "analysis")
                doc w2) as (Hn3 & Hr3 & _).
    exists (world_of (_save_cache (_get_cache_filename self category "analysis")
                        doc w2)).
    split.
    + unfold bind. destruct (_save_cache _ doc w2) as [[] w3|e w3|w3] eqn:Hs;
        unfold _save_cache in Hs; destruct (open_w _ w2); try discriminate;
        reflexivity.
    + rewrite Hn3, Hr3, Hreq2, Hnow2, Hn1, Hr1, Hreq, Hnow, length_map.
      split; lia.
Qed.

End WithLibrary.

(** ** The theorems at work *)

Lemma paged_listing : listing paged_world "Birds" None ["Owl"; "Wren"] 3.
Proof.
  apply (listing_more _ _ None ["Owl"] "page2" ["Wren"] 2); [reflexivity|].
  apply (listing_more _ _ (Some "page2") ["Wren"] "page3" [] 1);
    [reflexivity|].
  apply listing_error. reflexivity.
Qed.

Lemma cache_filename_collision_witness :
  _get_cache_filename (lib := plain_library) default_analyzer "AC/DC" "analysis"
  = _get_cache_filename (lib := plain_library) default_analyzer "AC_DC"
      "analysis".
Proof.
  apply (cache_filename_collision (lib := plain_library) default_analyzer
           "AC/DC" "AC_DC" "analysis"); cbn; [lia|lia|].
  split; reflexivity.
Defined.

Lemma fetch_pages_listing_witness :
  exists w',
    fetch_pages 5 "Birds" [] None paged_world = Return ["Owl"; "Wren"] w' /\
    requests w' = 3%nat.
Proof.
  destruct (fetch_pages_listing 5 "Birds" paged_world ["Owl"; "Wren"] 3
              paged_listing ltac:(lia)) as (w' & Hf & Hreq & _).
  exists w'. split; [exact Hf|exact Hreq].
Defined.


Lemma get_category_members_fetch_witness :
  exists w',
    get_category_members (lib := plain_library) 5 default_analyzer "Birds"
      paged_world = Return (JList [JStr "Owl"; JStr "Wren"]) w' /\
    requests w' = 3%nat.
Proof.
  destruct (get_category_members_fetch (lib := plain_library) 5
              default_analyzer "Birds" paged_world ["Owl"; "Wren"] 3
              eq_refl paged_listing ltac:(lia) eq_refl)
    as (w' & t & doc & Hrun & Hreq & _).
  exists w'. split; [exact Hrun|exact Hreq].
Defined.

Lemma analyze_category_fresh_witness :
  exists w',
    analyze_category (lib := plain_library) 3 default_analyzer "Birds"
      paged_world =
      Return (JObj [("owls", JInt 3); ("hunt", JInt 1); ("mice", JInt 1);
                    ("hoot", JInt 1); ("wren", JInt 1); ("sings", JInt 1);
                    ("listen", JInt 1)]) w' /\
    requests w' = 5%nat /\ now w' = 400000.
Proof.
  destruct (analyze_category_fresh (lib := plain_library) 3 default_analyzer
              "Birds" paged_world ["Owl"; "Wren"] 3
              eq_refl eq_refl paged_listing ltac:(lia))
    as (w' & Hrun & Hreq & Hnow).
  exists w'. split; [exact Hrun|]. split; [exact Hreq|exact Hnow].
Defined.

Lemma analyze_category_frequencies_witness :
  exists T w',
    analyze_category (lib := plain_library) 5 default_analyzer "Birds"
      birds_world = Return T w' /\
    py_get T "owls" = Ok (JInt 3) /\
    py_get T "the" = Ok JNull.
Proof.
  run_of (analyze_category (lib := plain_library) 5 default_analyzer
            "Birds" birds_world) Hrun.
  destruct (analyze_category_frequencies (lib := plain_library) 5
              default_analyzer "Birds" birds_world _ _ eq_refl Hrun)
    as (page_titles & w1 & titles & Hm & Hit & Hfreq).
  vm_compute in Hm. injection Hm as <- <-.
  cbn in Hit. injection Hit as <-.
  eexists _, _. split; [exact Hrun|].
  split; [apply (Hfreq "owls")|apply (Hfreq "the")].
Defined.


Lemma analyze_category_keeps_past_witness :
  past_fs (world_of (analyze_category (lib := plain_library) 5
                       default_analyzer "Birds" birds_world)).
Proof.
  apply (analyze_category_keeps_past (lib := plain_library) 5
           default_analyzer "Birds" birds_world).
  intros cache_file f Hf. cbn in Hf. rewrite lookup_empty in Hf.
  discriminate Hf.
Defined.

End PipelineMore.

(* ===================================================================== *)
(** * Facts about the cache check in local time *)
(* ===================================================================== *)

Module LocalClockFacts.
Import Json Analyzer AnalyzerMore Examples CacheFacts PipelineFacts.
Import LocalClock.

Section WithTimeZone.
Context {tz : TimeZone}.

(** ** The check *)

Lemma is_cache_valid_missing self cache_file w :
  fs w !! cache_file = None ->
  _is_cache_valid self cache_file w = Return false w.
Proof. unfold _is_cache_valid. intros ->. reflexivity. Qed.

Lemma is_cache_valid_in_range self cache_file w f :
  fs w !! cache_file = Some f ->
  in_range self f (now w) ->
  _is_cache_valid self cache_file w =
    Return (local_time (now w) - cache_expiry_days self * day
              <? local_time (mtime f)) w.
Proof.
  intros Hf (H1 & H2 & H3 & H4). unfold _is_cache_valid. rewrite Hf.
  unfold bind, datetime_now, lift, ret, fromtimestamp, timedelta, datetime_sub.
  rewrite H1, H2. apply Z.leb_le in H3. rewrite H3, H4. reflexivity.
Qed.

Lemma is_cache_valid_out_of_range self cache_file w f :
  fs w !! cache_file = Some f ->
  ~ in_range self f (now w) ->
  exists e, _is_cache_valid self cache_file w = Raise e w.
Proof.
  intros Hf Hn. unfold _is_cache_valid. rewrite Hf.
  unfold bind, datetime_now, lift, ret, fromtimestamp, timedelta, datetime_sub.
  destruct (representable (local_time (mtime f))) eqn:H1; [|eauto].
  destruct (representable (local_time (now w))) eqn:H2; [|eauto].
  destruct (Z.leb_spec (Z.abs (cache_expiry_days self)) 999999999) as [H3|H3];
    [|eauto].
  destruct (representable (local_time (now w) - cache_expiry_days self * day))
    eqn:H4; [|eauto].
  exfalso. apply Hn. repeat split; assumption.
Qed.

Lemma is_cache_valid_world self cache_file w :
  world_of (_is_cache_valid self cache_file w) = w.
Proof.
  unfold _is_cache_valid. destruct (fs w !! cache_file) as [f|]; [|reflexivity].
  unfold bind, datetime_now, lift, ret.
  destruct (fromtimestamp (mtime f)); [|reflexivity].
  destruct (fromtimestamp (now w)); [|reflexivity].
  destruct (timedelta _); [|reflexivity].
  destruct (datetime_sub _ _); reflexivity.
Qed.

Lemma is_cache_valid_return self cache_file w b w' :
  _is_cache_valid self cache_file w = Return b w' -> w' = w.
Proof.
  intros H. pose proof (is_cache_valid_world self cache_file w) as Hw.
  rewrite H in Hw. exact Hw.
Qed.

Lemma in_range_dec self f clock :
  in_range self f clock \/ ~ in_range self f clock.
Proof.
  unfold in_range.
  destruct (representable (local_time (mtime f)));
    [|right; intros (H & _); discriminate H].
  destruct (representable (local_time clock));
    [|right; intros (_ & H & _); discriminate H].
  destruct (representable (local_time clock - cache_expiry_days self * day));
    [|right; intros (_ & _ & _ & H); discriminate H].
  destruct (Z_le_gt_dec (Z.abs (cache_expiry_days self)) 999999999) as [H|H].
  - left. auto.
  - right. intros (_ & _ & H' & _). lia.
Qed.

(** The check reads the file's time and the clock only. *)
Lemma is_cache_valid_frame self cache_file w w' b :
  fs w' !! cache_file = fs w !! cache_file -> now w' = now w ->
  _is_cache_valid self cache_file w = Return b w ->
  _is_cache_valid self cache_file w' = Return b w'.
Proof.
  intros Hfs Hnow H. destruct (fs w !! cache_file) as [f|] eqn:Hf.
  - destruct (in_range_dec self f (now w)) as [Hr|Hn].
    + rewrite (is_cache_valid_in_range _ _ _ _ Hf Hr) in H. injection H as <-.
      rewrite (is_cache_valid_in_range self cache_file w' f);
        rewrite ?Hnow; auto.
    + destruct (is_cache_valid_out_of_range _ _ _ _ Hf Hn) as (e & He).
      rewrite He in H. discriminate H.
  - rewrite (is_cache_valid_missing _ _ _ Hf) in H. injection H as <-.
    apply is_cache_valid_missing, Hfs.
Qed.

Lemma representable_spec t :
  representable t = true <-> datetime_min <= t <= datetime_max.
Proof. unfold representable. rewrite andb_true_iff, !Z.leb_le. tauto. Qed.

(** A file written at the current time is valid under an expiry above 0,
    when the date that many days back is one [datetime] holds. *)
Lemma is_cache_valid_written self cache_file w f :
  fs w !! cache_file = Some f -> mtime f = now w ->
  0 < cache_expiry_days self ->
  datetime_min + cache_expiry_days self * day <= local_time (now w)
    <= datetime_max ->
  _is_cache_valid self cache_file w = Return true w.
Proof.
  intros Hf Hm HE Hr.
  assert (Hday : 0 < day) by (unfold day; lia).
  assert (Hmax : datetime_max - datetime_min < 999999999 * day)
    by (unfold datetime_max, datetime_min, day; lia).
  rewrite (is_cache_valid_in_range _ _ _ _ Hf).
  - rewrite Hm. f_equal. apply Z.ltb_lt. nia.
  - unfold in_range. rewrite Hm.
    repeat split; try (apply representable_spec; nia). nia.
Qed.

(** With an expiry of 0 a file not modified after the current time, by
    the wall clock, is expired. *)
Lemma is_cache_valid_expiry_zero self cache_file w :
  cache_expiry_days self = 0 -> past_local w ->
  _is_cache_valid self cache_file w = Return false w.
Proof.
  intros HE Hpast.
  destruct (fs w !! cache_file) as [f|] eqn:Hf;
    [|apply is_cache_valid_missing, Hf].
  destruct (Hpast _ _ Hf) as (H1 & H2 & H3).
  rewrite (is_cache_valid_in_range _ _ _ _ Hf).
  - f_equal. apply Z.ltb_ge. rewrite HE. lia.
  - repeat split; try assumption; rewrite HE; [cbn; lia|].
    rewrite Z.mul_0_l, Z.sub_0_r. exact H2.
Qed.

(** Where the clock kept one offset to UTC and the dates are within
    range, the check is the comparison of the two instants. *)
Lemma is_cache_valid_agrees self cache_file w :
  one_offset self cache_file w ->
  _is_cache_valid self cache_file w =
    Return (Analyzer._is_cache_valid self cache_file w) w.
Proof.
  intros H. unfold Analyzer._is_cache_valid.
  destruct (fs w !! cache_file) as [f|] eqn:Hf;
    [|apply is_cache_valid_missing, Hf].
  destruct (H f Hf) as (Ho & Hr).
  rewrite (is_cache_valid_in_range _ _ _ _ Hf Hr). f_equal.
  unfold local_time. rewrite Ho.
  destruct (Z.ltb_spec (now w + utcoffset (now w) - cache_expiry_days self * day)
              (mtime f + utcoffset (now w)));
    destruct (Z.ltb_spec (now w - cache_expiry_days self * day) (mtime f));
    try reflexivity; lia.
Qed.

Context {lib : Library}.

(** ** The two cache checks *)

Lemma cached_members_valid self category w :
  _is_cache_valid self (_get_cache_filename self category "members") w =
    Return true w ->
  cached_members self category w =
  (let* cached_data :=
     _load_cache (_get_cache_filename self category "members") in
   let* pages := lift (py_get cached_data "pages") in
   if truthy pages then
     let* _ := lift (py_len pages) in
     ret (Some pages)
   else ret None) w.
Proof. intros H. unfold cached_members, bind at 1. rewrite H. reflexivity. Qed.

Lemma cached_members_invalid self category w :
  _is_cache_valid self (_get_cache_filename self category "members") w =
    Return false w ->
  cached_members self category w = Return None w.
Proof. intros H. unfold cached_members, bind at 1. rewrite H. reflexivity. Qed.

Lemma cached_analysis_valid self category w :
  _is_cache_valid self (_get_cache_filename self category "analysis") w =
    Return true w ->
  cached_analysis self category w =
  (let* cached_analysis :=
     _load_cache (_get_cache_filename self category "analysis") in
   let* word_frequencies :=
     lift (py_get cached_analysis "word_frequencies") in
   if truthy word_frequencies then
     let* _ := lift (py_len word_frequencies) in
     let* _ := lift (py_sum_values word_frequencies) in
     ret (Some word_frequencies)
   else ret None) w.
Proof. intros H. unfold cached_analysis, bind at 1. rewrite H. reflexivity. Qed.

Lemma cached_analysis_invalid self category w :
  _is_cache_valid self (_get_cache_filename self category "analysis") w =
    Return false w ->
  cached_analysis self category w = Return None w.
Proof. intros H. unfold cached_analysis, bind at 1. rewrite H. reflexivity. Qed.

(** Where the check agrees with the comparison of instants, so does the
    cache. *)
Lemma cached_members_agrees self category w :
  one_offset self (_get_cache_filename self category "members") w ->
  cached_members self category w = Analyzer.cached_members self category w.
Proof.
  intros H. apply is_cache_valid_agrees in H.
  unfold Analyzer.cached_members.
  destruct (Analyzer._is_cache_valid _ _ w).
  - apply cached_members_valid, H.
  - apply cached_members_invalid, H.
Qed.

Lemma cached_analysis_agrees self category w :
  one_offset self (_get_cache_filename self category "analysis") w ->
  cached_analysis self category w = Analyzer.cached_analysis self category w.
Proof.
  intros H. apply is_cache_valid_agrees in H.
  unfold Analyzer.cached_analysis.
  destruct (Analyzer._is_cache_valid _ _ w).
  - apply cached_analysis_valid, H.
  - apply cached_analysis_invalid, H.
Qed.

Lemma load_cache_world cache_file w :
  world_of (_load_cache cache_file w) = w.
Proof.
  unfold _load_cache.
  destruct (fs w !! cache_file) as [f|]; [destruct (data f)|]; reflexivity.
Qed.

Lemma lift_world {A} (r : result A) w : world_of (lift r w) = w.
Proof. destruct r; reflexivity. Qed.

Lemma bind_world {A B} (m : M A) (k : A -> M B) w :
  world_of (m w) = w -> (forall a, world_of (k a w) = w) ->
  world_of (bind m k w) = w.
Proof.
  intros Hm Hk. unfold bind.
  destruct (m w) as [a w'|e w'|w']; cbn in Hm; subst w'; auto.
Qed.

(** A cache check changes nothing. *)
Lemma cached_members_world self category w :
  world_of (cached_members self category w) = w.
Proof.
  unfold cached_members.
  apply bind_world; [apply is_cache_valid_world|]. intros [|]; [|reflexivity].
  apply bind_world; [apply load_cache_world|]. intros doc.
  apply bind_world; [apply lift_world|]. intros v.
  destruct (truthy v); [|reflexivity].
  apply bind_world; [apply lift_world|]. reflexivity.
Qed.

Lemma cached_analysis_world self category w :
  world_of (cached_analysis self category w) = w.
Proof.
  unfold cached_analysis.
  apply bind_world; [apply is_cache_valid_world|]. intros [|]; [|reflexivity].
  apply bind_world; [apply load_cache_world|]. intros doc.
  apply bind_world; [apply lift_world|]. intros v.
  destruct (truthy v); [|reflexivity].
  apply bind_world; [apply lift_world|]. intros _.
  apply bind_world; [apply lift_world|]. reflexivity.
Qed.

Lemma cached_members_returns self category w r w' :
  cached_members self category w = Return r w' -> w' = w.
Proof.
  intros H. pose proof (cached_members_world self category w) as Hw.
  rewrite H in Hw. exact Hw.
Qed.

Lemma cached_analysis_returns self category w r w' :
  cached_analysis self category w = Return r w' -> w' = w.
Proof.
  intros H. pose proof (cached_analysis_world self category w) as Hw.
  rewrite H in Hw. exact Hw.
Qed.

(** A valid members document that lists a page is served. *)
Lemma cached_members_served self category w t pages fetched_at :
  fs w !! _get_cache_filename self category "members" =
    Some {| mtime := t;
            data := Document (members_data category pages fetched_at) |} ->
  _is_cache_valid self (_get_cache_filename self category "members") w =
    Return true w ->
  pages <> [] ->
  cached_members self category w = Return (Some (JList (map JStr pages))) w.
Proof.
  intros Hfs Hv Hne. rewrite (cached_members_valid _ _ _ Hv).
  unfold bind, _load_cache. rewrite Hfs. cbn [data].
  change (py_get (members_data category pages fetched_at) "pages")
    with (Ok (JList (map JStr pages))).
  cbn [lift]. destruct pages; [contradiction|reflexivity].
Qed.

(** A valid analysis document with a table that is not empty is served. *)
Lemma cached_analysis_served self category w t (tbl : table)
    analyzed_at processed_pages :
  fs w !! _get_cache_filename self category "analysis" =
    Some {| mtime := t;
            data := Document (analysis_data category tbl analyzed_at
                                processed_pages) |} ->
  _is_cache_valid self (_get_cache_filename self category "analysis") w =
    Return true w ->
  truthy (table_json tbl) = true ->
  cached_analysis self category w = Return (Some (table_json tbl)) w.
Proof.
  intros Hfs Hv Htrue. rewrite (cached_analysis_valid _ _ _ Hv).
  unfold bind, _load_cache. rewrite Hfs. cbn [data].
  change (py_get (analysis_data category tbl analyzed_at processed_pages)
            "word_frequencies") with (Ok (table_json tbl)).
  cbn [lift]. rewrite Htrue. rewrite table_json_numbers. reflexivity.
Qed.

(** The members check reads the members file and the clock only. *)
Lemma cached_members_frame self category w w' r :
  fs w' = fs w -> now w' = now w ->
  cached_members self category w = Return r w ->
  cached_members self category w' = Return r w'.
Proof.
  intros Hfs Hnow H. unfold cached_members in H.
  apply bind_return in H as (b & w0 & Hv & H).
  pose proof (is_cache_valid_return _ _ _ _ _ Hv). subst w0.
  unfold cached_members, bind at 1.
  rewrite (is_cache_valid_frame _ _ w w' b) by (rewrite ?Hfs; auto).
  destruct b; [|apply ret_return in H as [-> _]; reflexivity].
  revert H. unfold bind, _load_cache. rewrite Hfs.
  destruct (fs w !! _) as [f|]; [destruct (data f) as [| |v]|];
    try discriminate.
  - cbn. intros [= <-]. reflexivity.
  - unfold lift. destruct (py_get v "pages") as [p|]; [|discriminate].
    destruct (truthy p); [|intros [= <-]; reflexivity].
    destruct (py_len p); [|discriminate]. intros [= <-]. reflexivity.
  - cbn. intros [= <-]. reflexivity.
Qed.

(** ** The members of a category *)

Lemma get_category_members_cases fuel self category w pages w1 :
  get_category_members fuel self category w = Return pages w1 ->
  (cached_members self category w = Return (Some pages) w /\ w1 = w) \/
  (cached_members self category w = Return None w /\
   exists titles w0 fetched_at,
     fetch_pages fuel category [] None w = Return titles w0 /\
     pages = JList (map JStr titles) /\
     _save_cache (_get_cache_filename self category "members")
       (members_data category titles fetched_at) w0 = Return tt w1).
Proof.
  unfold get_category_members. intros H.
  apply bind_return in H as (r & w0 & Hc & H).
  pose proof (cached_members_returns _ _ _ _ _ Hc). subst w0.
  destruct r as [cached|].
  - apply ret_return in H as [-> ->]. left. auto.
  - right. split; [exact Hc|].
    unfold fetch_category_members in H.
    apply bind_return in H as (titles & w0 & Hf & H).
    apply bind_return in H as (t & w0' & Hd & H).
    apply lift_return in Hd as [_ ->]. cbn zeta in H.
    apply bind_return in H as ([] & w2 & Hs & H).
    apply ret_return in H as [-> ->].
    exists titles, w0, t. auto.
Qed.

Lemma steady_cached_members_local self category :
  steady (cached_members self category).
Proof.
  intros w. rewrite cached_members_world. apply extends_refl.
Qed.

Lemma steady_datetime_now_local : steady datetime_now.
Proof. intros w. unfold datetime_now. apply steady_lift. Qed.

Lemma steady_stamp_and_save self category pages :
  steady (let* fetched_at := datetime_now in
          let cache_data := members_data category pages fetched_at in
          let* _ := _save_cache (_get_cache_filename self category "members")
                      cache_data in
          ret (JList (map JStr pages))).
Proof.
  apply steady_bind; [apply steady_datetime_now_local|]. intros t. cbn zeta.
  apply steady_bind; [apply steady_save|]. intros _. apply steady_ret.
Qed.

Lemma steady_fetch_category_members_local fuel self category :
  steady (fetch_category_members fuel self category).
Proof.
  unfold fetch_category_members.
  apply steady_bind; [apply steady_fetch_pages|]. intros pages.
  apply steady_stamp_and_save.
Qed.

Lemma steady_get_category_members_local fuel self category :
  steady (get_category_members fuel self category).
Proof.
  unfold get_category_members.
  apply steady_bind; [apply steady_cached_members_local|]. intros [pages|].
  - apply steady_ret.
  - apply steady_fetch_category_members_local.
Qed.

Lemma steady_analyze_pages self category page_titles :
  steady (analyze_pages self category page_titles).
Proof.
  unfold analyze_pages.
  destruct (negb (truthy page_titles)); [apply steady_ret|].
  apply steady_bind; [apply steady_lift|]. intros _.
  apply steady_bind; [apply steady_lift|]. intros titles.
  apply steady_bind; [apply steady_process_pages|]. intros [all_words n].
  cbn zeta.
  apply steady_bind; [apply steady_datetime_now_local|]. intros t.
  apply steady_bind; [apply steady_save|]. intros _. apply steady_ret.
Qed.

(** ** The analysis *)

Lemma analyze_category_cases fuel self category w T w1 :
  analyze_category fuel self category w = Return T w1 ->
  (cached_analysis self category w = Return (Some T) w /\ w1 = w) \/
  (cached_analysis self category w = Return None w /\
   analyze_uncached fuel self category w = Return T w1).
Proof.
  unfold analyze_category. intros H.
  apply bind_return in H as (r & w0 & Hc & H).
  pose proof (cached_analysis_returns _ _ _ _ _ Hc). subst w0.
  destruct r as [cached|].
  - apply ret_return in H as [-> ->]. left. auto.
  - right. auto.
Qed.

Lemma analyze_category_served fuel self category w word_frequencies :
  cached_analysis self category w = Return (Some word_frequencies) w ->
  analyze_category fuel self category w = Return word_frequencies w.
Proof. intros H. unfold analyze_category, bind at 1. rewrite H. reflexivity. Qed.

Lemma analyze_category_not_served fuel self category w :
  cached_analysis self category w = Return None w ->
  analyze_category fuel self category w =
  analyze_uncached fuel self category w.
Proof. intros H. unfold analyze_category, bind at 1. rewrite H. reflexivity. Qed.

Lemma get_category_members_not_served fuel self category w :
  cached_members self category w = Return None w ->
  get_category_members fuel self category w =
  fetch_category_members fuel self category w.
Proof.
  intros H. unfold get_category_members, bind at 1. rewrite H. reflexivity.
Qed.

(** What a run past the page titles that returns a table with words has
    saved. *)
Lemma analyze_pages_saved self category page_titles w1 T w' :
  analyze_pages self category page_titles w1 = Return T w' ->
  truthy T = true ->
  exists (tbl : table) analyzed_at processed_pages w2,
    extends w1 w2 /\
    T = table_json tbl /\
    _save_cache (_get_cache_filename self category "analysis")
      (analysis_data category tbl analyzed_at processed_pages) w2
      = Return tt w'.
Proof.
  unfold analyze_pages. intros H HT.
  destruct (truthy page_titles) eqn:Ht; cbn [negb] in H.
  - apply bind_return in H as (n & w1' & Hlen & H).
    apply lift_return in Hlen as [_ ->].
    apply bind_return in H as (titles & w1' & Hit & H).
    apply lift_return in Hit as [Hit ->].
    apply bind_return in H as ([all_words processed_pages] & w2 & Hp & H).
    pose proof (steady_process_pages titles [] 0%nat w1) as He.
    rewrite Hp in He. cbn [world_of] in He.
    apply bind_return in H as (t & w2' & Hd & H).
    apply lift_return in Hd as [_ ->]. cbn zeta in H.
    apply bind_return in H as ([] & w3 & Hs & H).
    apply ret_return in H as [-> ->].
    exists (Counter all_words), t, processed_pages, w2. auto.
  - apply ret_return in H as [-> ->]. discriminate HT.
Qed.

(** With nothing served by the members cache and fuel left, the analysis
    sends a request. *)
Lemma analyze_uncached_fetches fuel self category w :
  cached_members self category w = Return None w ->
  (0 < fuel)%nat ->
  (requests w <
   requests (world_of (analyze_uncached fuel self category w)))%nat.
Proof.
  intros Hm Hfuel.
  pose proof (fetch_pages_requests fuel category [] None w Hfuel) as H1.
  assert (H2 : extends (world_of (fetch_pages fuel category [] None w))
                 (world_of (get_category_members fuel self category w))).
  { rewrite (get_category_members_not_served _ _ _ _ Hm).
    unfold fetch_category_members.
    apply bind_extends. intros pages. apply steady_stamp_and_save. }
  assert (H3 : extends (world_of (get_category_members fuel self category w))
                 (world_of (analyze_uncached fuel self category w))).
  { unfold analyze_uncached. apply bind_extends. intros page_titles.
    apply steady_analyze_pages. }
  destruct H2 as (_ & _ & _ & _ & H2). destruct H3 as (_ & _ & _ & _ & H3).
  lia.
Qed.

(** ** Asking twice *)

(** C1, as amended. With an expiry above 0 such that the date that many
    days before the time of the second call is one [datetime] holds (the
    year 1 at the earliest), when a call of [analyze_category] returns a
    table that is not empty and the analysis cache file can be written, the
    same call made again at once returns the same table from the cache: it
    sends no request and changes nothing. *)
Theorem analyze_category_twice fuel fuel' self category w T w1 :
  0 < cache_expiry_days self ->
  analyze_category fuel self category w = Return T w1 ->
  truthy T = true ->
  writable w (_get_cache_filename self category "analysis") = true ->
  datetime_min + cache_expiry_days self * day <= local_time (now w1)
    <= datetime_max ->
  exists w2,
    analyze_category fuel' self category w1 = Return T w2 /\
    requests w2 = requests w1 /\
    w2 = w1.
Proof.
  intros HE Hrun HT Hwr Hrange. exists w1.
  split; [|split; reflexivity].
  apply analyze_category_cases in Hrun as [[Hc ->]|[_ Hrun]].
  - (* served by the cache the first time already *)
    apply analyze_category_served, Hc.
  - unfold analyze_uncached in Hrun.
    apply bind_return in Hrun as (page_titles & w' & Hm & Hp).
    pose proof (steady_get_category_members_local fuel self category w) as He1.
    rewrite Hm in He1. cbn [world_of] in He1.
    apply analyze_pages_saved in Hp
      as (tbl & analyzed_at & processed & w2 & He & -> & Hs); [|exact HT].
    assert (Hw : writable w2 (_get_cache_filename self category "analysis") =
                 true).
    { destruct He1 as (Hw1 & _). destruct He as (Hw2 & _).
      rewrite Hw2, Hw1. exact Hwr. }
    rewrite save_cache_writable in Hs by exact Hw. injection Hs as <-.
    apply analyze_category_served.
    eapply cached_analysis_served; [apply write_file_lookup| |exact HT].
    eapply is_cache_valid_written;
      [apply write_file_lookup|reflexivity|exact HE|exact Hrange].
Qed.

(** Once [get_category_members] has returned a list that is not empty and
    the members file can be written, the same call made again at once
    returns the same list from the cache, whatever the encyclopedia would
    answer by then: it sends no request, even without fuel.  The expiry is
    above 0, and the date that many days before the time of the second
    call is one [datetime] holds. *)
Theorem get_category_members_twice fuel fuel' self category w pages w1 cm ex :
  0 < cache_expiry_days self ->
  get_category_members fuel self category w = Return pages w1 ->
  truthy pages = true ->
  writable w (_get_cache_filename self category "members") = true ->
  datetime_min + cache_expiry_days self * day <= local_time (now w1)
    <= datetime_max ->
  get_category_members fuel' self category (with_remote cm ex w1) =
    Return pages (with_remote cm ex w1).
Proof.
  intros HE Hrun Ht Hwr Hrange.
  apply get_category_members_cases in Hrun
    as [[Hc ->]|(_ & titles & w0 & fetched_at & Hf & -> & Hs)].
  - unfold get_category_members, bind.
    rewrite (cached_members_frame self category w (with_remote cm ex w)
               (Some pages) eq_refl eq_refl Hc).
    reflexivity.
  - pose proof (steady_fetch_pages fuel category [] None w) as He.
    rewrite Hf in He. cbn [world_of] in He. destruct He as (Hw0 & _).
    rewrite save_cache_writable in Hs by (rewrite Hw0; exact Hwr).
    injection Hs as <-.
    unfold get_category_members, bind.
    erewrite cached_members_served; [reflexivity| | |].
    + cbn [with_remote fs]. apply write_file_lookup.
    + eapply is_cache_valid_written;
        [cbn [with_remote fs]; apply write_file_lookup|reflexivity|exact HE|].
      exact Hrange.
    + destruct titles; [discriminate Ht|discriminate].
Qed.

(** ** An expiry of zero days *)

Lemma expiry_zero_not_served self category w :
  cache_expiry_days self = 0 -> past_local w ->
  cached_analysis self category w = Return None w /\
  cached_members self category w = Return None w.
Proof.
  intros HE Hpast. split.
  - apply cached_analysis_invalid, is_cache_valid_expiry_zero; assumption.
  - apply cached_members_invalid, is_cache_valid_expiry_zero; assumption.
Qed.



(** With an expiry of 0 days, as [main] sets it for [--no-cache], and no
    cache file modified after the current time, by the wall clock, neither
    cache is served, whatever the files hold: [analyze_category] lists the
    category anew and, with fuel for one request, sends a request. *)
Theorem analyze_category_expiry_zero fuel self category w :
  cache_expiry_days self = 0 ->
  past_local w ->
  (0 < fuel)%nat ->
  analyze_category fuel self category w =
    analyze_uncached fuel self category w /\
  get_category_members fuel self category w =
    fetch_category_members fuel self category w /\
  (requests w <
   requests (world_of (analyze_category fuel self category w)))%nat.
Proof.
  intros HE Hpast Hfuel.
  destruct (expiry_zero_not_served self category w HE Hpast) as [Ha Hm].
  split; [apply analyze_category_not_served, Ha|].
  split; [apply get_category_members_not_served, Hm|].
  rewrite (analyze_category_not_served _ _ _ _ Ha).
  apply analyze_uncached_fetches; assumption.
Qed.

End WithTimeZone.

(** ** Examples *)

(** The category "Birds", asked for twice on a machine on UTC. *)
Lemma analyze_category_twice_witness :
  let w1 := world_of (analyze_category (tz := utc) (lib := plain_library) 5
                        default_analyzer "Birds" birds_world) in
  exists T,
    analyze_category (tz := utc) (lib := plain_library) 5 default_analyzer
      "Birds" birds_world = Return T w1 /\
    analyze_category (tz := utc) (lib := plain_library) 0 default_analyzer
      "Birds" w1 = Return T w1.
Proof.
  cbn zeta.
  run_of (analyze_category (tz := utc) (lib := plain_library) 5
            default_analyzer "Birds" birds_world) Hrun.
  eexists. split; [exact Hrun|].
  destruct (analyze_category_twice (tz := utc) (lib := plain_library) 5 0
              default_analyzer "Birds" birds_world _ _ ltac:(cbn; lia) Hrun
              eq_refl eq_refl ltac:(vm_compute; split; discriminate))
    as (w2 & Hagain & _ & ->).
  exact Hagain.
Defined.

(** C1, as stated, fails twice over.  For a category without pages the
    second call sends a request although the expiry is 7 days.  And with
    an expiry of 1000000 days the second call raises [OverflowError]: the
    date that many days before the current time is before the year 1. *)
Lemma analyze_category_twice_fails :
  let first := analyze_category (tz := utc) (lib := plain_library) 5
                 default_analyzer "Empty" empty_world in
  let second := analyze_category (tz := utc) (lib := plain_library) 5
                  default_analyzer "Empty" (world_of first) in
  let long := {| cache_dir := "cache"; cache_expiry_days := 1000000 |} in
  let first' := analyze_category (tz := utc) (lib := plain_library) 5 long
                  "Birds" birds_world in
  let second' := analyze_category (tz := utc) (lib := plain_library) 5 long
                   "Birds" (world_of first') in
  (returned first = Some (JObj []) /\
   returned second = Some (JObj []) /\
   requests (world_of first) = 1%nat /\
   requests (world_of second) = 2%nat) /\
  ((exists T, returned first' = Some T /\ truthy T = true) /\
   second' = Raise OverflowError (world_of first')) /\
  ~ (forall (tz : TimeZone) (lib : Library) fuel self category w T w1,
       0 < cache_expiry_days self ->
       analyze_category fuel self category w = Return T w1 ->
       exists w2,
         analyze_category fuel self category w1 = Return T w2 /\
         requests w2 = requests w1).
Proof.
  cbn zeta. split; [repeat split; vm_compute; reflexivity|].
  split.
  { split; [eexists; split; vm_compute; reflexivity|].
    vm_compute. reflexivity. }
  intros H.
  run_of (analyze_category (tz := utc) (lib := plain_library) 5
            default_analyzer "Empty" empty_world) Hfirst.
  destruct (H utc plain_library 5%nat default_analyzer "Empty" empty_world _ _
              ltac:(cbn; lia) Hfirst)
    as (w2 & Hrun & Hreq).
  apply (f_equal (fun o => requests (world_of o))) in Hrun.
  cbn [world_of] in Hrun. rewrite <- Hrun in Hreq.
  vm_compute in Hreq. discriminate Hreq.
Qed.

Lemma one_file_past_local {tz : TimeZone} cache_file t c clock :
  representable (local_time t) = true ->
  representable (local_time clock) = true ->
  local_time t <= local_time clock ->
  past_local (one_file cache_file t c clock).
Proof.
  intros H1 H2 H3 other f. unfold one_file. cbn [fs now].
  destruct (decide (cache_file = other)) as [->|Hne].
  - rewrite lookup_singleton_eq. intros [= <-]. cbn [mtime]. auto.
  - rewrite lookup_singleton_ne by exact Hne. discriminate.
Qed.



(** The members of "Birds", listed in two batches and asked for again
    when the encyclopedia has changed. *)
Lemma get_category_members_twice_witness :
  let w1 := world_of (get_category_members (tz := utc) (lib := plain_library)
                        5 default_analyzer "Birds" ExamplesMore.paged_world) in
  let w1' := with_remote (categorymembers birds_world) (extracts birds_world)
               w1 in
  get_category_members (tz := utc) (lib := plain_library) 0 default_analyzer
    "Birds" w1' =
    Return (JList [JStr "Owl"; JStr "Wren"]) w1'.
Proof.
  cbn zeta.
  run_of (get_category_members (tz := utc) (lib := plain_library) 5
            default_analyzer "Birds" ExamplesMore.paged_world) Hrun.
  apply (get_category_members_twice (tz := utc) (lib := plain_library) 5 0
           default_analyzer "Birds" ExamplesMore.paged_world _ _ _ _
           ltac:(cbn; lia) Hrun eq_refl eq_refl
           ltac:(vm_compute; split; discriminate)).
Defined.

(** A full analysis document of a second ago is not served when the
    expiry is 0 days. *)
Lemma analyze_category_expiry_zero_witness :
  let self := {| cache_dir := "cache"; cache_expiry_days := 0 |} in
  let w := one_file "cache/Birds_d41d8cd9_analysis.json" 0
             (Document (analysis_data (lib := plain_library) "Birds"
                          [("owls", 3)] 0 1))
             1000000 in
  (requests w <
   requests (world_of (analyze_category (tz := utc) (lib := plain_library) 5
                         self "Birds" w)))%nat.
Proof.
  cbn zeta.
  apply (analyze_category_expiry_zero (tz := utc) (lib := plain_library) 5
           {| cache_dir := "cache"; cache_expiry_days := 0 |} "Birds").
  - reflexivity.
  - apply one_file_past_local; vm_compute; [reflexivity|reflexivity|discriminate].
  - lia.
Defined.

End LocalClockFacts.


(* ===================================================================== *)
(** * More about the routes and the report *)
(* ===================================================================== *)

Module WordCloudMore.
Import Json Float FloatFacts WordCloud WordCloudFacts Report.

(** ** The sort *)

Lemma filter_insert_desc k x l :
  List.filter (fun y => snd y =? k) (insert_desc x l) =
  List.filter (fun y => snd y =? k) (x :: l).
Proof.
  induction l as [|y l IH]; cbn [insert_desc]; [reflexivity|].
  destruct (Z.leb_spec (snd y) (snd x)) as [Hle|Hlt]; [reflexivity|].
  cbn [List.filter] in *. rewrite IH.
  destruct (Z.eqb_spec (snd x) k) as [Hx|Hx];
    destruct (Z.eqb_spec (snd y) k) as [Hy|Hy]; try reflexivity.
  lia.
Qed.

(** [sorted(..., reverse=True)] as the routes and the report use it: the
    result holds the same items, in descending order of frequency, and
    items of equal frequency keep the order they have in the table. *)
Theorem sorted_desc_stable (items : list (string * Z)) :
  Permutation (sorted_desc items) items /\
  StronglySorted desc (sorted_desc items) /\
  forall k,
    List.filter (fun y => snd y =? k) (sorted_desc items) =
    List.filter (fun y => snd y =? k) items.
Proof.
  split; [apply sorted_desc_perm|]. split; [apply sorted_desc_sorted|].
  intros k. induction items as [|x items IH]; [reflexivity|].
  cbn [sorted_desc fold_right]. fold (sorted_desc items).
  rewrite filter_insert_desc. cbn [List.filter]. rewrite IH. reflexivity.
Qed.


(** ** Sizes and colors *)

Lemma entry_of_top word_freq palette_name e :
  In e (word_cloud_data word_freq palette_name) ->
  In (text e, frequency e) (top_words word_freq) /\
  size e = size_of (90 * (frequency e - last_freq (top_words word_freq)))
             (freq_range (top_words word_freq)).
Proof.
  intros He. rewrite word_cloud_data_entries in He.
  apply In_nth_error in He as [k Hk].
  apply cloud_entries_spec in Hk as (w & f & Hk & <- & <- & -> & _).
  apply nth_error_In in Hk.
  split; [exact Hk|]. apply size_normalized.
Qed.

(** A word that is more frequent is never displayed smaller: among the
    entries of a response the size grows with the frequency. *)
Theorem word_cloud_size_monotone category word_freq palette_name e1 e2 :
  let words :=
    response_words (get_word_cloud_data category word_freq palette_name) in
  In e1 words -> In e2 words ->
  frequency e1 <= frequency e2 ->
  size e1 <= size e2.
Proof.
  cbn zeta. rewrite response_words_data. intros H1 H2 Hle.
  apply entry_of_top in H1 as [Hin1 ->]. apply entry_of_top in H2 as [_ ->].
  pose proof (top_words_sorted word_freq) as Hs.
  pose proof (freq_range_pos _ Hs) as Hr.
  pose proof (sorted_first_last _ Hs _ Hin1) as Hb. cbn [snd] in Hb.
  apply size_of_mono; try lia. nia.
Qed.

Lemma selected_palette_cases palette_name :
  In (selected_palette palette_name)
    [PastelPalette; BrightPalette; DarkPalette; NeutralPalette; RGBPalette].
Proof.
  unfold selected_palette, get_all_color_palettes. cbn [assoc].
  repeat (destruct (String.eqb palette_name _); [cbn; tauto|]).
  cbn. tauto.
Qed.

Lemma selected_palette_length palette_name :
  List.length (colors (selected_palette palette_name)) = 6%nat.
Proof.
  pose proof (selected_palette_cases palette_name) as H. cbn in H.
  destruct H as [<-|[<-|[<-|[<-|[<-|[]]]]]]; reflexivity.
Qed.

(** Whatever palette name is asked for, known or not, every entry gets
    one of the six colors of a palette of [color_palette.py], the entry of
    rank [i] the color of index [i mod 6]: the colors repeat every six
    entries, and a name that is no palette gives the pastel colors. *)
Theorem word_cloud_colors category word_freq palette_name :
  let words :=
    response_words (get_word_cloud_data category word_freq palette_name) in
  let palette_colors := colors (selected_palette palette_name) in
  List.length palette_colors = 6%nat /\
  (assoc palette_name get_all_color_palettes = None ->
   palette_colors = colors PastelPalette) /\
  (forall i e, nth_error words i = Some e ->
     nth_error palette_colors (i mod 6) = Some (color e)) /\
  (forall i e e', nth_error words i = Some e ->
     nth_error words (i + 6) = Some e' -> color e' = color e).
Proof.
  cbn zeta. rewrite response_words_data, word_cloud_data_entries.
  pose proof (selected_palette_length palette_name) as Hlen.
  assert (Hcol : forall i e,
    nth_error (cloud_entries 0 (top_words word_freq)
                 (last_freq (top_words word_freq))
                 (freq_range (top_words word_freq))
                 (selected_palette palette_name)) i = Some e ->
    nth_error (colors (selected_palette palette_name)) (i mod 6) =
      Some (color e)).
  { intros i e Hi.
    apply cloud_entries_spec in Hi as (w & f & _ & _ & _ & _ & ->).
    unfold color_at. rewrite Hlen. cbn [Nat.add].
    apply nth_error_nth'. rewrite Hlen. apply Nat.mod_upper_bound. lia. }
  split; [exact Hlen|]. split; [|split].
  - intros Hnone. unfold selected_palette. rewrite Hnone. reflexivity.
  - exact Hcol.
  - intros i e e' Hi Hi'. apply Hcol in Hi, Hi'.
    replace ((i + 6) mod 6)%nat with (i mod 6)%nat in Hi'.
    + congruence.
    + replace (i + 6)%nat with (i + 1 * 6)%nat by lia.
      rewrite Nat.Div0.mod_add. reflexivity.
Qed.

(** ** The words displayed are the most frequent ones *)

Lemma sorted_split n l :
  StronglySorted desc l ->
  forall x y, In x (firstn n l) -> In y (skipn n l) -> snd y <= snd x.
Proof.
  revert l. induction n as [|n IH]; intros l Hs x y Hx Hy.
  - destruct Hx.
  - destruct l as [|z l]; [destruct Hx|].
    apply StronglySorted_inv in Hs as [Hs Hz].
    cbn [firstn skipn] in Hx, Hy. destruct Hx as [->|Hx].
    + rewrite List.Forall_forall in Hz. apply Hz.
      apply (in_firstn (List.length l)). rewrite firstn_all.
      clear -Hy. revert l Hy. induction n as [|n IHn]; intros l Hy; [exact Hy|].
      destruct l as [|a l]; [destruct Hy|]. right. apply IHn, Hy.
    + eapply IH; eauto.
Qed.

(** The response leaves out only words that are not more frequent than
    any word it displays: the table is, up to order, the displayed words
    followed by the words left out. *)
Theorem word_cloud_most_frequent category word_freq palette_name :
  let words :=
    response_words (get_word_cloud_data category word_freq palette_name) in
  exists left_out : list (string * Z),
    Permutation (map (fun e => (text e, frequency e)) words ++ left_out)
      word_freq /\
    forall e x, In e words -> In x left_out -> snd x <= frequency e.
Proof.
  cbn zeta. rewrite response_words_data, word_cloud_data_entries.
  exists (skipn 100 (sorted_desc word_freq)).
  rewrite nth_error_map_entry. unfold top_words. split.
  - rewrite firstn_skipn. apply sorted_desc_perm.
  - intros e x He Hx. apply entry_in_top in He as (w & f & Hin & -> & _).
    apply (sorted_split 100 _ (sorted_desc_sorted word_freq) (w, f) x Hin Hx).
Qed.


(** ** The analysis route *)

Lemma sum_frequencies_perm l l' :
  Permutation l l' -> sum_frequencies l = sum_frequencies l'.
Proof.
  unfold sum_frequencies.
  induction 1 as [|x l l' _ IH|x y l|l l' l'' _ IH1 _ IH2]; cbn; lia.
Qed.

(** For a table that is not empty the route answers with all the words
    in descending order of frequency; the statistics are the number of
    words, the sum of their frequencies, and as [max_frequency] and
    [min_frequency] the greatest and the least frequency of the table. *)
Theorem analyze_route_stats category word_freq :
  (0 < List.length word_freq)%nat ->
  exists words stats,
    analyze_route category word_freq = AnalysisData category words stats /\
    Permutation words word_freq /\
    StronglySorted desc words /\
    total_unique_words stats = List.length word_freq /\
    total_occurrences stats = sum_frequencies word_freq /\
    (forall x, In x word_freq ->
       min_frequency stats <= snd x <= max_frequency stats) /\
    In (max_frequency stats) (map snd word_freq) /\
    In (min_frequency stats) (map snd word_freq).
Proof.
  intros Hne. destruct word_freq as [|x0 word_freq]; [cbn in Hne; lia|].
  set (t := x0 :: word_freq) in *.
  exists (sorted_desc t), 
    {| total_unique_words := List.length (sorted_desc t);
       total_occurrences := sum_frequencies (sorted_desc t);
       max_frequency := first_freq (sorted_desc t);
       min_frequency := last_freq (sorted_desc t) |}.
  pose proof (sorted_desc_perm t) as Hp.
  pose proof (sorted_desc_sorted t) as Hs.
  cbn [total_unique_words total_occurrences max_frequency min_frequency].
  split; [reflexivity|]. split; [exact Hp|]. split; [exact Hs|].
  split; [apply Permutation_length, Hp|].
  split; [apply sum_frequencies_perm, Hp|].
  assert (Hin : forall y, In y (sorted_desc t) -> In y t).
  { intros y. apply Permutation_in, Hp. }
  destruct (sorted_desc t) as [|s0 sorted] eqn:Hsorted.
  { apply Permutation_length in Hp. discriminate Hp. }
  split; [|split].
  - intros x Hx. apply (sorted_first_last _ Hs).
    eapply Permutation_in; [symmetry; exact Hp|exact Hx].
  - unfold first_freq. apply in_map, Hin. left. reflexivity.
  - unfold last_freq. apply in_map, Hin, last_in.
Qed.

Lemma analyze_route_stats_witness :
  exists words stats,
    analyze_route "Greek" [("beta", 3); ("alpha", 5); ("gamma", 3)] =
      AnalysisData "Greek" words stats /\
    words = [("alpha", 5); ("beta", 3); ("gamma", 3)] /\
    total_occurrences stats = 11.
Proof.
  destruct (analyze_route_stats "Greek"
              [("beta", 3); ("alpha", 5); ("gamma", 3)] ltac:(cbn; lia))
    as (words & stats & Hr & _ & _ & _ & Ho & _).
  exists words, stats. split; [exact Hr|].
  injection Hr as <- <-. split; [reflexivity|exact Ho].
Defined.

(** ** The printed report *)

Lemma enumerate_length {A} (l : list A) : forall start,
  List.length (enumerate start l) = List.length l.
Proof. induction l as [|x l IH]; intros start; cbn; auto. Qed.

Lemma enumerate_nth {A} (l : list A) : forall start i r x,
  nth_error (enumerate start l) i = Some (r, x) ->
  r = start + Z.of_nat i /\ nth_error l i = Some x.
Proof.
  induction l as [|y l IH]; intros start i r x; cbn [enumerate].
  - destruct i; discriminate.
  - destruct i as [|i]; cbn [nth_error].
    + intros [= <- <-]. split; [lia|reflexivity].
    + intros H. apply IH in H as [-> H]. split; [lia|exact H].
Qed.

Lemma slice_to_length {A} n (l : list A) :
  Z.of_nat (List.length (slice_to n l)) =
  if 0 <=? n then Z.min n (Z.of_nat (List.length l))
  else Z.max 0 (Z.of_nat (List.length l) + n).
Proof.
  unfold slice_to. destruct (Z.leb_spec 0 n); rewrite length_firstn; lia.
Qed.

Lemma nth_error_slice {A} n (l : list A) i x :
  nth_error (slice_to n l) i = Some x -> nth_error l i = Some x.
Proof.
  unfold slice_to. destruct (0 <=? n); intros H.
  - rewrite nth_error_firstn in H. destruct (_ <? _)%nat in H; congruence.
  - rewrite nth_error_firstn in H. destruct (_ <? _)%nat in H; congruence.
Qed.

(** For a table that is not empty [print_results] lists the words in
    descending order of frequency, ranked from 1. With [top_n >= 0] it
    lists [min(top_n, number of words)] rows, the number it announces.
    With a negative [top_n] it announces that negative number and lists
    all but the last [-top_n] words. *)
Theorem print_results_rows word_freq top_n :
  (0 < List.length word_freq)%nat ->
  exists r,
    print_results word_freq top_n = Some r /\
    (forall i rank x, nth_error (rows r) i = Some (rank, x) ->
       rank = Z.of_nat i + 1 /\
       nth_error (sorted_desc word_freq) i = Some x) /\
    (0 <= top_n ->
     Z.of_nat (List.length (rows r)) = announced r /\
     announced r = Z.min top_n (Z.of_nat (List.length word_freq))) /\
    (top_n < 0 ->
     announced r = top_n /\
     Z.of_nat (List.length (rows r)) =
       Z.max 0 (Z.of_nat (List.length word_freq) + top_n)).
Proof.
  intros Hne. destruct word_freq as [|x0 word_freq]; [cbn in Hne; lia|].
  set (t := x0 :: word_freq) in *.
  eexists. split; [reflexivity|].
  cbn [rows announced].
  pose proof (Permutation_length (sorted_desc_perm t)) as Hlen.
  split; [|split].
  - intros i rank x Hi. apply enumerate_nth in Hi as [-> Hi].
    split; [lia|]. eapply nth_error_slice, Hi.
  - intros Hn. rewrite enumerate_length, slice_to_length, Hlen.
    destruct (Z.leb_spec 0 top_n); [|lia]. split; reflexivity.
  - intros Hn. rewrite enumerate_length, slice_to_length, Hlen.
    destruct (Z.leb_spec 0 top_n); [lia|]. split; [lia|reflexivity].
Qed.

Lemma print_results_rows_witness :
  exists r,
    print_results [("beta", 3); ("alpha", 5); ("gamma", 3)] (-1) = Some r /\
    announced r = -1 /\
    rows r = [(1, ("alpha", 5)); (2, ("beta", 3))].
Proof.
  destruct (print_results_rows [("beta", 3); ("alpha", 5); ("gamma", 3)] (-1)
              ltac:(cbn; lia))
    as (r & Hr & _ & _ & Hneg).
  exists r. split; [exact Hr|]. split; [apply Hneg; lia|].
  injection Hr as <-. reflexivity.
Defined.


Lemma word_cloud_size_monotone_witness :
  let words :=
    response_words
      (get_word_cloud_data "Greek" [("beta", 3); ("alpha", 5)] "rgb") in
  let e1 := {| text := "beta"; size := 10; frequency := 3;
               color := "#00ff00" |} in
  let e2 := {| text := "alpha"; size := 100; frequency := 5;
               color := "#ff0000" |} in
  In e1 words /\ In e2 words /\ size e1 <= size e2.
Proof.
  cbn zeta.
  assert (H1 : In {| text := "beta"; size := 10; frequency := 3;
                     color := "#00ff00" |}
                 (response_words
                    (get_word_cloud_data "Greek"
                       [("beta", 3); ("alpha", 5)] "rgb")))
    by (vm_compute; auto).
  assert (H2 : In {| text := "alpha"; size := 100; frequency := 5;
                     color := "#ff0000" |}
                 (response_words
                    (get_word_cloud_data "Greek"
                       [("beta", 3); ("alpha", 5)] "rgb")))
    by (vm_compute; auto).
  split; [exact H1|]. split; [exact H2|].
  apply (word_cloud_size_monotone "Greek" [("beta", 3); ("alpha", 5)] "rgb"
           _ _ H1 H2).
  cbn. lia.
Defined.

(** A palette name that is none: the pastel colors. *)
Lemma word_cloud_colors_witness :
  colors (selected_palette "sepia") = colors PastelPalette.
Proof.
  apply (proj1 (proj2 (word_cloud_colors "Greek" [("alpha", 5)] "sepia"))).
  reflexivity.
Defined.

(** ** The category of a route and the slug *)

Lemma safe_underscore c :
  Analyzer.safe_char (underscore c) = Analyzer.safe_char c.
Proof. destruct c as [[] [] [] [] [] [] [] []]; reflexivity. Qed.

Lemma underscore_idem c : underscore (underscore c) = underscore c.
Proof. destruct c as [[] [] [] [] [] [] [] []]; reflexivity. Qed.

Lemma underscore_no_space c : Ascii.eqb (underscore c) " " = false.
Proof. destruct c as [[] [] [] [] [] [] [] []]; reflexivity. Qed.

(** The routes replace the spaces of a category by underscores before
    they call the analyzer. The result has no space, replacing again
    changes nothing, and the slug in the names of the cache files is the
    slug of the category as it was given: of the name of a cache file the
    replacement can only change the digest. *)
Theorem normalize_category_slug category :
  forallb (fun c => negb (Ascii.eqb c " "))
    (list_ascii_of_string (normalize_category category)) = true /\
  normalize_category (normalize_category category) =
    normalize_category category /\
  AnalyzerMore.safe_category (normalize_category category) =
    AnalyzerMore.safe_category category.
Proof.
  unfold normalize_category, AnalyzerMore.safe_category.
  rewrite !list_ascii_of_string_of_list_ascii.
  split; [|split].
  - apply forallb_forall. intros c Hc.
    apply in_map_iff in Hc as (c0 & <- & _).
    rewrite underscore_no_space. reflexivity.
  - f_equal. rewrite map_map. apply map_ext, underscore_idem.
  - f_equal. rewrite map_map. apply map_ext, safe_underscore.
Qed.


Lemma word_cloud_most_frequent_witness :
  exists left_out : list (string * Z),
    Permutation
      (map (fun e => (text e, frequency e))
         (response_words
            (get_word_cloud_data "Greek" [("beta", 3); ("alpha", 5)] "rgb"))
       ++ left_out)
      [("beta", 3); ("alpha", 5)].
Proof.
  destruct (word_cloud_most_frequent "Greek" [("beta", 3); ("alpha", 5)] "rgb")
    as (left_out & Hp & _).
  exists left_out. exact Hp.
Defined.

End WordCloudMore.
